(** * pcb-to-stencil: Gerber interpreter, rasterizer and mesh extruder

    A shallow embedding of [gerber.go] and [main.go].  Go's [int] is the
    64-bit two's-complement integer (a [Z] with the wrap-around written
    out), [float64] is IEEE-754 binary64 (the standard library's
    [spec_float] at precision 53), strings are byte strings, Go maps are
    [gmap]s, and a pointer field that may be [nil] is an [option]. *)

From Stdlib Require Import ZArith Bool Lia Ascii String.
From Stdlib Require Import Floats.SpecFloat.
From stdpp Require Import gmap strings list.
From stdpp Require Import sorting.

Local Open Scope Z_scope.

(** ** Go's [int] on a 64-bit target *)

Module Int.
Definition min_int : Z := - 2 ^ 63.
Definition max_int : Z := 2 ^ 63 - 1.

(** Reduction of a mathematical integer to the representable range. *)
Definition wrap (z : Z) : Z := (z + 2 ^ 63) mod 2 ^ 64 - 2 ^ 63.

Definition add (a b : Z) : Z := wrap (a + b).
Definition sub (a b : Z) : Z := wrap (a - b).
Definition mul (a b : Z) : Z := wrap (a * b).
Definition neg (a : Z) : Z := wrap (- a).
(** Go's [/] truncates toward zero. *)
Definition quo (a b : Z) : Z := wrap (Z.quot a b).

Definition in_range (z : Z) : bool := (min_int <=? z) && (z <=? max_int).
End Int.

(** ** Go's [float64] *)

Module F64.
Definition prec : Z := 53.
Definition emax : Z := 1024.

Definition add : spec_float -> spec_float -> spec_float := SFadd prec emax.
Definition sub : spec_float -> spec_float -> spec_float := SFsub prec emax.
Definition mul : spec_float -> spec_float -> spec_float := SFmul prec emax.
Definition div : spec_float -> spec_float -> spec_float := SFdiv prec emax.
Definition sqrt : spec_float -> spec_float := SFsqrt prec emax.
Definition abs : spec_float -> spec_float := SFabs.

(** Comparisons; all are false on NaN, and [-0 == 0]. *)
Definition ltb : spec_float -> spec_float -> bool := SFltb.
Definition eqb : spec_float -> spec_float -> bool := SFeqb.
Definition gtb (x y : spec_float) : bool := SFltb y x.

Definition nan : spec_float := S754_nan.
Definition inf (neg : bool) : spec_float := S754_infinity neg.
Definition zero : spec_float := S754_zero false.

(** [float64(n)] for an integer [n]: the nearest binary64 number. *)
Definition of_Z (n : Z) : spec_float := binary_normalize prec emax n 0 false.

(** The binary64 number nearest to the rational [p/q] ([0 <= p], [0 < q]),
    with sign bit [s]: how a decimal literal is read. *)
Definition ratio (s : bool) (p q : Z) : spec_float :=
  match p with
  | Z0 => S754_zero s
  | _ =>
      let '(m, e, l) := SFdiv_core_binary prec emax p 0 q 0 in
      binary_round_aux prec emax s m e l
  end.

(** The decimal literal [p * 10^e] with sign bit [s]. *)
Definition decimal (s : bool) (p e : Z) : spec_float :=
  if 0 <=? e
  then binary_normalize prec emax (cond_Zopp s (p * 10 ^ e)) 0 s
  else ratio s p (10 ^ (- e)).

Definition is_finite (x : spec_float) : bool :=
  match x with
  | S754_zero _ | S754_finite _ _ _ => true
  | _ => false
  end.

(** The integer part of a finite number, rounded toward zero. *)
Definition trunc (x : spec_float) : Z :=
  match x with
  | S754_finite s m e =>
      let v := match e with
               | Zneg p => Zpos m / 2 ^ Zpos p
               | _ => Zpos m * 2 ^ e
               end in
      cond_Zopp s v
  | _ => 0
  end.

(** [int(x)]: truncation toward zero.  When the value does not fit (or is
    NaN or infinite) the Go specification leaves the result to the
    implementation; amd64's conversion instruction yields the smallest
    [int], which is what is modelled. *)
Definition to_int (x : spec_float) : Z :=
  if is_finite x && Int.in_range (trunc x) then trunc x else Int.min_int.

(** [math.Mod(x, y)]: the exact remainder of [x/y], with the sign of [x]. *)
Definition Mod (x y : spec_float) : spec_float :=
  match x, y with
  | S754_nan, _ | _, S754_nan => S754_nan
  | S754_infinity _, _ => S754_nan
  | _, S754_zero _ => S754_nan
  | _, S754_infinity _ => x
  | S754_zero _, S754_finite _ _ _ => x
  | S754_finite sx mx ex, S754_finite _ my ey =>
      let e := Z.min ex ey in
      let a := Zpos mx * 2 ^ (ex - e) in
      let b := Zpos my * 2 ^ (ey - e) in
      binary_normalize prec emax (cond_Zopp sx (a mod b)) e sx
  end.

(** [math.Pow(10, float64(d))] for an integer [d].  The library computes
    the power by repeated squaring; the result is the exact power of ten
    whenever that is a binary64 number ([0 <= d <= 22]), which covers
    every digit count a format specification can carry.  Outside that
    range the nearest binary64 number is taken. *)
Definition Pow10 (d : Z) : spec_float :=
  if 0 <=? d then of_Z (10 ^ d) else div (of_Z 1) (of_Z (10 ^ (- d))).
End F64.

Abbreviation float64 := spec_float.

(** ** Byte strings: package [strings] *)

Definition is_digit (c : ascii) : bool :=
  (48 <=? Z.of_N (N_of_ascii c)) && (Z.of_N (N_of_ascii c) <=? 57).

Definition digit_val (c : ascii) : Z := Z.of_N (N_of_ascii c) - 48.

Definition is_letter (c : ascii) : bool :=
  let n := Z.of_N (N_of_ascii c) in
  ((65 <=? n) && (n <=? 90)) || ((97 <=? n) && (n <=? 122)).

(** The white space [strings.TrimSpace] removes among the bytes below 128:
    tab, line feed, vertical tab, form feed, carriage return and space.
    (The text is taken as ASCII, as Gerber files are; the two-byte
    encodings of further Unicode spaces are kept as they are.) *)
Definition is_space (c : ascii) : bool :=
  let n := Z.of_N (N_of_ascii c) in
  ((9 <=? n) && (n <=? 13)) || (n =? 32).

Definition lower (c : ascii) : ascii :=
  let n := N_of_ascii c in
  if (65 <=? Z.of_N n) && (Z.of_N n <=? 90) then ascii_of_N (n + 32) else c.

Fixpoint trim_left (s : string) : string :=
  match s with
  | String c s' => if is_space c then trim_left s' else s
  | EmptyString => EmptyString
  end.

Fixpoint trim_right (s : string) : string :=
  match s with
  | String c s' =>
      match trim_right s' with
      | EmptyString => if is_space c then EmptyString else String c EmptyString
      | t => String c t
      end
  | EmptyString => EmptyString
  end.

Definition TrimSpace (s : string) : string := trim_right (trim_left s).

Definition HasPrefix (s p : string) : bool := String.prefix p s.

Fixpoint drop_str (n : nat) (s : string) : string :=
  match n, s with
  | S n', String _ s' => drop_str n' s'
  | _, _ => s
  end.

Fixpoint take_str (n : nat) (s : string) : string :=
  match n, s with
  | S n', String c s' => String c (take_str n' s')
  | _, _ => EmptyString
  end.

Definition TrimPrefix (s p : string) : string :=
  if HasPrefix s p then drop_str (String.length p) s else s.

Definition HasSuffix (s p : string) : bool :=
  (String.length p <=? String.length s)%nat &&
  String.eqb (drop_str (String.length s - String.length p) s) p.

Definition TrimSuffix (s p : string) : string :=
  if HasSuffix s p then take_str (String.length s - String.length p) s else s.

Fixpoint Contains (s sub : string) : bool :=
  String.prefix sub s ||
  match s with
  | String _ s' => Contains s' sub
  | EmptyString => false
  end.

(** [strings.Split(s, sep)] for a one-byte separator. *)
Fixpoint Split (s : string) (sep : ascii) : list string :=
  match s with
  | EmptyString => [EmptyString]
  | String c s' =>
      if Ascii.eqb c sep then EmptyString :: Split s' sep
      else match Split s' sep with
           | p :: ps => String c p :: ps
           | [] => [String c EmptyString]
           end
  end.

(** ** Package [strconv] *)

Fixpoint all_digits (s : string) : bool :=
  match s with
  | EmptyString => true
  | String c s' => is_digit c && all_digits s'
  end.

Fixpoint digits_val (acc : Z) (s : string) : Z :=
  match s with
  | EmptyString => acc
  | String c s' => digits_val (10 * acc + digit_val c) s'
  end.

(** [strconv.Atoi]: the value and whether [err == nil].  A syntax error
    returns 0, a range error the nearest representable [int]. *)
Definition Atoi (s : string) : Z * bool :=
  let '(neg, body) :=
    match s with
    | String "-" s' => (true, s')
    | String "+" s' => (false, s')
    | _ => (false, s)
    end in
  match body with
  | EmptyString => (0, false)
  | _ =>
      if all_digits body then
        let n := cond_Zopp neg (digits_val 0 body) in
        if Int.in_range n then (n, true)
        else (if neg then Int.min_int else Int.max_int, false)
      else (0, false)
  end.

(** Leading decimal digits of [s]: their value appended to [acc], their
    number, and the rest of the string. *)
Fixpoint read_digits (acc : Z) (n : Z) (s : string) : Z * Z * string :=
  match s with
  | String c s' =>
      if is_digit c then read_digits (10 * acc + digit_val c) (n + 1) s'
      else (acc, n, s)
  | EmptyString => (acc, n, s)
  end.

Definition lower_str (s : string) : string :=
  string_of_list_ascii (map lower (list_ascii_of_string s)).

(** [strconv.ParseFloat(s, 64)]: the value and whether [err == nil].
    Accepted are an optional sign followed by [inf], [infinity] (any case),
    or by decimal digits with at most one point and an optional decimal
    exponent, and the unsigned [nan]; the literal is rounded to the nearest
    binary64 number.  A syntax error returns 0; a literal beyond the
    largest number returns the infinity of its sign with an error.
    Hexadecimal literals (prefix [0x]) are not modelled and count as
    syntax errors here; the character classes of the coordinate and
    aperture-definition patterns exclude them. *)
Definition ParseFloat (s : string) : float64 * bool :=
  let '(signed, neg, body) :=
    match s with
    | String "-" s' => (true, true, s')
    | String "+" s' => (true, false, s')
    | _ => (false, false, s)
    end in
  let low := lower_str body in
  if String.eqb low "inf" || String.eqb low "infinity" then (F64.inf neg, true)
  else if negb signed && String.eqb low "nan" then (F64.nan, true)
  else
    let '(m1, n1, r1) := read_digits 0 0 body in
    let '(m2, n2, r2) :=
      match r1 with
      | String "." r => read_digits m1 0 r
      | _ => (m1, 0, r1)
      end in
    if (n1 + n2 =? 0) then (F64.zero, false)
    else
      let finish (e : Z) :=
        let v := F64.decimal neg m2 (e - n2) in
        match v with
        | S754_infinity _ => (v, false)
        | _ => (v, true)
        end in
      match r2 with
      | EmptyString => finish 0
      | String c r3 =>
          if Ascii.eqb (lower c) "e" then
            let '(eneg, r4) :=
              match r3 with
              | String "-" r => (true, r)
              | String "+" r => (false, r)
              | _ => (false, r3)
              end in
            let '(ev, en, r5) := read_digits 0 0 r4 in
            if (en =? 0) then (F64.zero, false)
            else match r5 with
                 | EmptyString => finish (cond_Zopp eneg ev)
                 | _ => (F64.zero, false)
                 end
          else (F64.zero, false)
      end.

(** ** Package [regexp], for the three patterns of the parser

    A pattern is a sequence of items over byte classes; an item matches one
    byte, an optional byte, one or more bytes, or an optional run of bytes,
    and may be a capture group.  Matching is leftmost-first with greedy
    repetition and backtracking, as in Go's [regexp]. *)

Inductive rep := One | Opt | Plus | OptPlus.

Record item := Item { it_capture : bool; it_rep : rep; it_class : ascii -> bool }.

(** The prefixes of [s] made of bytes of class [cl], longest first, each
    with what follows it; the empty prefix is not listed. *)
Fixpoint runs (cl : ascii -> bool) (s : string) : list (string * string) :=
  match s with
  | String c s' =>
      if cl c
      then map (fun '(p, r) => (String c p, r)) (runs cl s') ++ [(String c EmptyString, s')]
      else []
  | EmptyString => []
  end.

(** The ways an item can match at the start of [s], in order of preference. *)
Definition spans (it : item) (s : string) : list (string * string) :=
  let one := match s with
             | String c s' => if it_class it c then [(String c EmptyString, s')] else []
             | EmptyString => []
             end in
  match it_rep it with
  | One => one
  | Opt => one ++ [(EmptyString, s)]
  | Plus => runs (it_class it) s
  | OptPlus => runs (it_class it) s ++ [(EmptyString, s)]
  end.

Fixpoint first_some {A B : Type} (f : A -> option B) (l : list A) : option B :=
  match l with
  | [] => None
  | a :: l' => match f a with Some b => Some b | None => first_some f l' end
  end.

(** Match the whole pattern at the start of [s]: the captured groups and
    the unmatched rest. *)
Fixpoint match_here (pat : list item) (s : string) : option (list string * string) :=
  match pat with
  | [] => Some ([], s)
  | it :: pat' =>
      first_some
        (fun '(p, r) =>
           match match_here pat' r with
           | Some (caps, rest) => Some (if it_capture it then p :: caps else caps, rest)
           | None => None
           end)
        (spans it s)
  end.

(** Leftmost match anywhere in [s]: the submatches (the whole match
    first) and the rest of [s] after the match. *)
Fixpoint find_from (pat : list item) (s : string) : option (list string * string) :=
  match match_here pat s with
  | Some (caps, rest) =>
      Some (take_str (String.length s - String.length rest) s :: caps, rest)
  | None =>
      match s with
      | String _ s' => find_from pat s'
      | EmptyString => None
      end
  end.

(** [FindStringSubmatch]: [nil] (the empty list) when nothing matches. *)
Definition FindStringSubmatch (pat : list item) (s : string) : list string :=
  match find_from pat s with
  | Some (m, _) => m
  | None => []
  end.

(** [FindAllStringSubmatch(s, -1)] for a pattern that matches no empty
    string: the successive non-overlapping matches.  [fuel] bounds the
    number of matches; the length of [s] plus one is enough. *)
Fixpoint find_all (fuel : nat) (pat : list item) (s : string) : list (list string) :=
  match fuel with
  | O => []
  | S fuel' =>
      match find_from pat s with
      | Some (m, rest) => m :: find_all fuel' pat rest
      | None => []
      end
  end.

Definition FindAllStringSubmatch (pat : list item) (s : string) : list (list string) :=
  find_all (S (String.length s)) pat s.

Definition lit (c : ascii) : item := Item false One (Ascii.eqb c).
Definition lits (s : string) : list item := map lit (list_ascii_of_string s).
Definition cls (l : string) (c : ascii) : bool :=
  existsb (Ascii.eqb c) (list_ascii_of_string l).

(** [([XYD])([\d\.\-]+)] *)
Definition reCoord : list item :=
  [ Item true One (cls "XYD");
    Item true Plus (fun c => is_digit c || cls ".-" c) ].

(** [%ADD(\d+)([A-Za-z0-9_]+),?([\d\.X]+)?\*%] *)
Definition reAD : list item :=
  lits "%ADD" ++
  [ Item true Plus is_digit;
    Item true Plus (fun c => is_letter c || is_digit c || cls "_" c);
    Item false Opt (cls ",");
    Item true OptPlus (fun c => is_digit c || cls ".X" c) ] ++
  lits "*%".

(** [%FSLAX(\d)(\d)Y(\d)(\d)\*%] *)
Definition reFS : list item :=
  lits "%FSLAX" ++
  [ Item true One is_digit; Item true One is_digit; lit "Y";
    Item true One is_digit; Item true One is_digit ] ++
  lits "*%".

(** ** Outcomes of a Go call

    A call returns normally, returns a non-nil [error], or panics (an index
    out of range, a nil dereference, a failed allocation check). *)

Inductive outcome (A : Type) : Type :=
  | Done (a : A)
  | Failed (err : string)
  | Panic (msg : string).
Arguments Done {A} a.
Arguments Failed {A} err.
Arguments Panic {A} msg.

#[global] Instance outcome_ret : MRet outcome := fun A a => Done a.
#[global] Instance outcome_bind : MBind outcome := fun A B f m =>
  match m with
  | Done a => f a
  | Failed e => Failed e
  | Panic p => Panic p
  end.

Fixpoint foldlM {A B : Type} (f : B -> A -> outcome B) (l : list A) (b : B) : outcome B :=
  match l with
  | [] => Done b
  | a :: l' => b' ← f b a; foldlM f l' b'
  end.

(** [l[i]]: panics outside the list. *)
Definition index {A : Type} (l : list A) (i : nat) : outcome A :=
  match l !! i with
  | Some a => Done a
  | None => Panic "index out of range"
  end.

(** [*p]: panics on [nil]. *)
Definition deref {A : Type} (p : option A) : outcome A :=
  match p with
  | Some a => Done a
  | None => Panic "nil pointer dereference"
  end.

(** ** The data model of [gerber.go] *)

Definition ApertureCircle : string := "C".
Definition ApertureRect : string := "R".
Definition ApertureObround : string := "O".

Record Aperture := { ap_Type : string; ap_Modifiers : list float64 }.

Record MacroPrimitive := { prim_Code : Z; prim_Modifiers : list float64 }.

Record Macro := { Name : string; Primitives : list MacroPrimitive }.

(** The anonymous [struct{ Integer, Decimal int }]. *)
Record Format := { Integer : Z; Decimal : Z }.

Record GerberState := {
  Apertures : gmap Z Aperture;
  Macros : gmap string Macro;
  CurrentAperture : Z;
  st_X : float64;
  st_Y : float64;
  FormatX : Format;
  FormatY : Format;
  Units : string
}.

Record GerberCommand := {
  cmd_Type : string;
  cmd_X : option float64;
  cmd_Y : option float64;
  cmd_D : option Z
}.

Record GerberFile := { Commands : list GerberCommand; State : GerberState }.

Definition NewGerberFile : GerberFile :=
  {| Commands := [];
     State := {| Apertures := ∅; Macros := ∅; CurrentAperture := 0;
                 st_X := F64.zero; st_Y := F64.zero;
                 FormatX := {| Integer := 0; Decimal := 0 |};
                 FormatY := {| Integer := 0; Decimal := 0 |};
                 Units := "MM" |} |}.

Definition set_State (gf : GerberFile) (st : GerberState) : GerberFile :=
  {| Commands := Commands gf; State := st |}.

Definition append_Command (gf : GerberFile) (c : GerberCommand) : GerberFile :=
  {| Commands := Commands gf ++ [c]; State := State gf |}.

Definition set_Formats (st : GerberState) (fx fy : Format) : GerberState :=
  {| Apertures := Apertures st; Macros := Macros st;
     CurrentAperture := CurrentAperture st; st_X := st_X st; st_Y := st_Y st;
     FormatX := fx; FormatY := fy; Units := Units st |}.

Definition set_Aperture (st : GerberState) (d : Z) (ap : Aperture) : GerberState :=
  {| Apertures := <[d := ap]> (Apertures st); Macros := Macros st;
     CurrentAperture := CurrentAperture st; st_X := st_X st; st_Y := st_Y st;
     FormatX := FormatX st; FormatY := FormatY st; Units := Units st |}.

Definition set_Macro (st : GerberState) (name : string) (m : Macro) : GerberState :=
  {| Apertures := Apertures st; Macros := <[name := m]> (Macros st);
     CurrentAperture := CurrentAperture st; st_X := st_X st; st_Y := st_Y st;
     FormatX := FormatX st; FormatY := FormatY st; Units := Units st |}.

Definition set_Units (st : GerberState) (u : string) : GerberState :=
  {| Apertures := Apertures st; Macros := Macros st;
     CurrentAperture := CurrentAperture st; st_X := st_X st; st_Y := st_Y st;
     FormatX := FormatX st; FormatY := FormatY st; Units := u |}.

(** ** [parseCoordinate] *)

Definition parseCoordinate (valStr : string) (fmtSpec : Format) : float64 :=
  if Contains valStr "." then
    let '(val, _) := ParseFloat valStr in
    val
  else
    let '(val, _) := ParseFloat valStr in
    let divisor := F64.Pow10 (Decimal fmtSpec) in
    F64.div val divisor.

(** ** [ParseGerber] *)

Definition with_X (c : GerberCommand) (v : float64) : GerberCommand :=
  {| cmd_Type := cmd_Type c; cmd_X := Some v; cmd_Y := cmd_Y c; cmd_D := cmd_D c |}.

Definition with_Y (c : GerberCommand) (v : float64) : GerberCommand :=
  {| cmd_Type := cmd_Type c; cmd_X := cmd_X c; cmd_Y := Some v; cmd_D := cmd_D c |}.

Definition with_D (c : GerberCommand) (ty : string) (d : Z) : GerberCommand :=
  {| cmd_Type := ty; cmd_X := cmd_X c; cmd_Y := cmd_Y c; cmd_D := Some d |}.

(** The operation code a [D] field carries: [int(val)] of its number. *)
Definition opcode (valStr : string) : Z :=
  let '(val, _) := ParseFloat valStr in
  F64.to_int val.

(** The body of the loop over the submatches [m] of one statement. *)
Definition parse_field (gf : GerberFile) (cmd : GerberCommand) (m : list string)
  : outcome GerberCommand :=
  valStr ← index m 2;
  key ← index m 1;
  if String.eqb key "X" then
    let v := parseCoordinate valStr (FormatX (State gf)) in
    mret (with_X cmd v)
  else if String.eqb key "Y" then
    let v := parseCoordinate valStr (FormatY (State gf)) in
    mret (with_Y cmd v)
  else if String.eqb key "D" then
    let d := opcode valStr in
    let ty := if d =? 1 then "DRAW"
              else if d =? 2 then "MOVE"
              else if d =? 3 then "FLASH"
              else cmd_Type cmd in
    mret (with_D cmd ty d)
  else mret cmd.

(** The aperture code of a statement [Dnn] with [nn >= 10], if it is one. *)
Definition aperture_select (part : string) : option Z :=
  if HasPrefix part "D" && (2 <=? String.length part)%nat then
    let '(dCode, ok) := Atoi (drop_str 1 part) in
    if ok && (10 <=? dCode) then Some dCode else None
  else None.

(** The body of the loop over the [*]-separated parts of a line. *)
Definition parse_statement (gf : GerberFile) (part : string) : outcome GerberFile :=
  let part := TrimSpace part in
  if String.eqb part EmptyString then mret gf
  else
    match aperture_select part with
    | Some dCode =>
        mret (append_Command gf
                {| cmd_Type := "APERTURE"; cmd_X := None; cmd_Y := None;
                   cmd_D := Some dCode |})
    | None =>
        let matches := FindAllStringSubmatch reCoord part in
        if (0 <? length matches)%nat then
          cmd ← foldlM (parse_field gf) matches
                  {| cmd_Type := "MOVE"; cmd_X := None; cmd_Y := None; cmd_D := None |};
          mret (append_Command gf cmd)
        else mret gf
    end.

Definition parse_modifiers (parts : list string) : list float64 :=
  map (fun p => fst (ParseFloat p)) parts.

(** Where the scanner stands: in the outer loop, or in the inner loop
    that collects the primitives of the macro [name]. *)
Inductive scan_mode :=
  | Outer
  | InMacro (name : string) (primitives : list MacroPrimitive).

(** A parameter line (one that starts with [%]). *)
Definition parse_parameter (gf : GerberFile) (line : string)
  : outcome (GerberFile * scan_mode) :=
  if HasPrefix line "%FS" then
    let matches := FindStringSubmatch reFS line in
    if (length matches =? 5)%nat then
      m1 ← index matches 1; m2 ← index matches 2;
      m3 ← index matches 3; m4 ← index matches 4;
      mret (set_State gf
              (set_Formats (State gf)
                 {| Integer := fst (Atoi m1); Decimal := fst (Atoi m2) |}
                 {| Integer := fst (Atoi m3); Decimal := fst (Atoi m4) |}), Outer)
    else mret (gf, Outer)
  else if HasPrefix line "%AD" then
    let matches := FindStringSubmatch reAD line in
    if (3 <=? length matches)%nat then
      m1 ← index matches 1;
      apType ← index matches 2;
      m3 ← (if (3 <? length matches)%nat then index matches 3 else mret EmptyString);
      let mods := if (3 <? length matches)%nat && negb (String.eqb m3 EmptyString)
                  then parse_modifiers (Split m3 "X") else [] in
      mret (set_State gf
              (set_Aperture (State gf) (fst (Atoi m1))
                 {| ap_Type := apType; ap_Modifiers := mods |}), Outer)
    else mret (gf, Outer)
  else if HasPrefix line "%AM" then
    let name := TrimPrefix line "%AM" in
    let name := TrimSuffix name "*" in
    mret (gf, InMacro name [])
  else if HasPrefix line "%MO" then
    mret (set_State gf
            (set_Units (State gf) (if Contains line "IN" then "IN" else "MM")), Outer)
  else mret (gf, Outer).

(** One line read in the inner loop, which collects macro primitives until
    a line that is [%] alone. *)
Definition macro_line (gf : GerberFile) (name : string) (primitives : list MacroPrimitive)
    (text : string) : outcome (GerberFile * scan_mode) :=
  let mLine := TrimSpace text in
  if String.eqb mLine "%" then
    mret (set_State gf (set_Macro (State gf) name
                          {| Name := name; Primitives := primitives |}), Outer)
  else
    let mLine := TrimSuffix mLine "*" in
    let parts := Split mLine "," in
    if (0 <? length parts)%nat then
      p0 ← index parts 0;
      let code := fst (Atoi p0) in
      let mods := parse_modifiers (drop 1 parts) in
      mret (gf, InMacro name (primitives ++ [{| prim_Code := code; prim_Modifiers := mods |}]))
    else mret (gf, InMacro name primitives).

(** One line read in the outer loop. *)
Definition outer_line (gf : GerberFile) (text : string) : outcome (GerberFile * scan_mode) :=
  let line := TrimSpace text in
  if String.eqb line EmptyString then mret (gf, Outer)
  else if HasPrefix line "%" then parse_parameter gf line
  else
    gf' ← foldlM parse_statement (Split line "*") gf; mret (gf', Outer).

Definition scan_line (st : GerberFile * scan_mode) (text : string)
  : outcome (GerberFile * scan_mode) :=
  match st with
  | (gf, Outer) => outer_line gf text
  | (gf, InMacro name primitives) => macro_line gf name primitives text
  end.

(** When the input ends inside a macro, the inner loop ends and the macro
    collected so far is stored before the outer loop ends too. *)
Definition end_of_input (st : GerberFile * scan_mode) : GerberFile :=
  match st with
  | (gf, Outer) => gf
  | (gf, InMacro name primitives) =>
      set_State gf (set_Macro (State gf) name {| Name := name; Primitives := primitives |})
  end.

(** What [os.Open] answers: an error, or a file, given by the lines the
    line scanner delivers from it (line ends removed). *)
Inductive open_result :=
  | OpenError (err : string)
  | Opened (lines : list string).

Definition ParseGerber (os_Open : string -> open_result) (filename : string)
  : outcome GerberFile :=
  match os_Open filename with
  | OpenError err => Failed err
  | Opened lines =>
      st ← foldlM scan_line lines (NewGerberFile, Outer);
      mret (end_of_input st)
  end.

(** ** [CalculateBounds] *)

Record Bounds := { MinX : float64; MinY : float64; MaxX : float64; MaxY : float64 }.

(** The closure [updateBounds], on the four tracked extremes. *)
Definition updateBounds (b : Bounds) (x y : float64) : Bounds :=
  {| MinX := if F64.ltb x (MinX b) then x else MinX b;
     MinY := if F64.ltb y (MinY b) then y else MinY b;
     MaxX := if F64.gtb x (MaxX b) then x else MaxX b;
     MaxY := if F64.gtb y (MaxY b) then y else MaxY b |}.

(** The pen after a command: an axis the command leaves out is unchanged. *)
Definition move_pen (cur : float64 * float64) (cmd : GerberCommand) : float64 * float64 :=
  (match cmd_X cmd with Some v => v | None => fst cur end,
   match cmd_Y cmd with Some v => v | None => snd cur end).

Definition bounds_step (st : float64 * float64 * Bounds) (cmd : GerberCommand)
  : float64 * float64 * Bounds :=
  let '(prevX, prevY, b) := st in
  let '(curX, curY) := move_pen (prevX, prevY) cmd in
  if String.eqb (cmd_Type cmd) "FLASH" then
    (curX, curY, updateBounds b curX curY)
  else if String.eqb (cmd_Type cmd) "DRAW" then
    (curX, curY, updateBounds (updateBounds b prevX prevY) curX curY)
  else (curX, curY, b).

Definition initial_extremes : Bounds :=
  {| MinX := F64.of_Z (10 ^ 9); MinY := F64.of_Z (10 ^ 9);
     MaxX := F64.of_Z (- 10 ^ 9); MaxY := F64.of_Z (- 10 ^ 9) |}.

Definition default_extent : Bounds :=
  {| MinX := F64.zero; MinY := F64.zero; MaxX := F64.of_Z 10; MaxY := F64.of_Z 10 |}.

Definition padding : float64 := F64.of_Z 2.

Definition pad (b : Bounds) : Bounds :=
  {| MinX := F64.sub (MinX b) padding; MinY := F64.sub (MinY b) padding;
     MaxX := F64.add (MaxX b) padding; MaxY := F64.add (MaxY b) padding |}.

(** The extremes after the loop over the commands. *)
Definition scan_bounds (cmds : list GerberCommand) : Bounds :=
  snd (fold_left bounds_step cmds (F64.zero, F64.zero, initial_extremes)).

Definition CalculateBounds (gf : GerberFile) : Bounds :=
  let b := scan_bounds (Commands gf) in
  let b := if F64.eqb (MinX b) (F64.of_Z (10 ^ 9)) then default_extent else b in
  pad b.

(** ** Packages [image], [image/color] and [image/draw] *)

(** [image.Rectangle]: the points with [Min <= p < Max] on both axes. *)
Record Rectangle := { Min_X : Z; Min_Y : Z; Max_X : Z; Max_Y : Z }.

(** [image.Rect]: the corners are put in order. *)
Definition image_Rect (x0 y0 x1 y1 : Z) : Rectangle :=
  let '(x0, x1) := if x1 <? x0 then (x1, x0) else (x0, x1) in
  let '(y0, y1) := if y1 <? y0 then (y1, y0) else (y0, y1) in
  {| Min_X := x0; Min_Y := y0; Max_X := x1; Max_Y := y1 |}.

Definition ZR : Rectangle := {| Min_X := 0; Min_Y := 0; Max_X := 0; Max_Y := 0 |}.

Definition Empty (r : Rectangle) : bool :=
  (Max_X r <=? Min_X r) || (Max_Y r <=? Min_Y r).

Definition Dx (r : Rectangle) : Z := Int.sub (Max_X r) (Min_X r).
Definition Dy (r : Rectangle) : Z := Int.sub (Max_Y r) (Min_Y r).

(** [Point{x, y}.In(r)] *)
Definition In_rect (x y : Z) (r : Rectangle) : bool :=
  (Min_X r <=? x) && (x <? Max_X r) && (Min_Y r <=? y) && (y <? Max_Y r).

Definition Intersect (r s : Rectangle) : Rectangle :=
  let r' := {| Min_X := Z.max (Min_X r) (Min_X s); Min_Y := Z.max (Min_Y r) (Min_Y s);
               Max_X := Z.min (Max_X r) (Max_X s); Max_Y := Z.min (Max_Y r) (Max_Y s) |} in
  if Empty r' then ZR else r'.

(** [color.RGBA]: four 8-bit channels. *)
Record Color := { R : Z; G : Z; B : Z; A : Z }.

Definition Black : Color := {| R := 0; G := 0; B := 0; A := 255 |}.
Definition White : Color := {| R := 255; G := 255; B := 255; A := 255 |}.
Definition Transparent : Color := {| R := 0; G := 0; B := 0; A := 0 |}.

(** The method [RGBA()] of a colour: the channels on 16 bits. *)
Definition RGBA16 (c : Color) : Z * Z * Z * Z :=
  (Z.lor (R c) (Z.shiftl (R c) 8), Z.lor (G c) (Z.shiftl (G c) 8),
   Z.lor (B c) (Z.shiftl (B c) 8), Z.lor (A c) (Z.shiftl (A c) 8)).

(** [*image.RGBA]: the bounds and the pixel store. *)
Record RGBA := { Rect : Rectangle; Pix : Z -> Z -> Color }.

(** The interface [image.Image], as far as the mesh generator uses it. *)
Class Image (I : Type) := { img_Bounds : I -> Rectangle; img_At : I -> Z -> Z -> Color }.

(** [RGBA.At]: the zero colour outside the bounds. *)
#[global] Instance RGBA_Image : Image RGBA :=
  {| img_Bounds := Rect;
     img_At := fun img x y => if In_rect x y (Rect img) then Pix img x y else Transparent |}.

(** The check [image.NewRGBA] makes on the buffer length: [-1] when a
    dimension is negative or the product does not fit an [int]. *)
Definition mul3NonNeg (x y z : Z) : Z :=
  if (x <? 0) || (y <? 0) || (z <? 0) then -1
  else if 2 ^ 64 <=? x * y then -1
  else if 2 ^ 64 <=? x * y * z then -1
  else if 2 ^ 63 <=? x * y * z then -1
  else x * y * z.

(** [image.NewRGBA(r)]: a zeroed image, or the panic of the length check.
    Memory is not bounded in this model: every buffer whose length fits an
    [int] is allocated. *)
Definition NewRGBA (r : Rectangle) : outcome RGBA :=
  if mul3NonNeg 4 (Dx r) (Dy r) <? 0
  then Panic "image: NewRGBA Rectangle has huge or negative dimensions"
  else Done {| Rect := r; Pix := fun _ _ => Transparent |}.

(** [RGBA.Set]: nothing happens outside the bounds. *)
Definition Set_pixel (img : RGBA) (x y : Z) (c : Color) : RGBA :=
  if In_rect x y (Rect img)
  then {| Rect := Rect img;
          Pix := fun x' y' => if (x' =? x) && (y' =? y) then c else Pix img x' y' |}
  else img.

(** The bounds of an [image.Uniform]. *)
Definition Uniform_Bounds : Rectangle :=
  {| Min_X := - 10 ^ 9; Min_Y := - 10 ^ 9; Max_X := 10 ^ 9; Max_Y := 10 ^ 9 |}.

Definition Add_rect (r : Rectangle) (dx dy : Z) : Rectangle :=
  {| Min_X := Int.add (Min_X r) dx; Min_Y := Int.add (Min_Y r) dy;
     Max_X := Int.add (Max_X r) dx; Max_Y := Int.add (Max_Y r) dy |}.

(** The rectangle [draw.Draw] really fills: [r] clipped to the destination
    and to the bounds of the uniform source moved to [r.Min]. *)
Definition clip (img : RGBA) (r : Rectangle) : Rectangle :=
  Intersect (Intersect r (Rect img)) (Add_rect Uniform_Bounds (Min_X r) (Min_Y r)).

(** [draw.Draw(img, r, &image.Uniform{c}, image.Point{}, draw.Src)] *)
Definition Draw_uniform (img : RGBA) (r : Rectangle) (c : Color) : RGBA :=
  let r' := clip img r in
  if Empty r' then img
  else {| Rect := Rect img;
          Pix := fun x y => if In_rect x y r' then c else Pix img x y |}.

(** A loop [for i := lo; i <= hi; i++] over [int]s (with [hi] below the
    largest [int], so that the loop ends). *)
Definition for_range {S : Type} (lo hi : Z) (body : Z -> S -> S) (s : S) : S :=
  fold_left (fun s i => body i s) (seqZ lo (hi - lo + 1)) s.

(** ** The rasterizer *)

Definition drawCircle (img : RGBA) (x0 y0 r : Z) : RGBA :=
  for_range (Int.neg r) r (fun y img =>
    for_range (Int.neg r) r (fun x img =>
      if Int.add (Int.mul x x) (Int.mul y y) <=? Int.mul r r
      then Set_pixel img (Int.add x0 x) (Int.add y0 y) White
      else img) img) img.

(** The rectangle of a rectangular (or obround) stamp of [w] by [h] pixels
    around [(x, y)]. *)
Definition centered_rect (x y w h : Z) : Rectangle :=
  image_Rect (Int.sub x (Int.quo w 2)) (Int.sub y (Int.quo h 2))
             (Int.add x (Int.quo w 2)) (Int.add y (Int.quo h 2)).

Definition nth_mod (mods : list float64) (i : nat) : float64 := nth i mods F64.zero.

(** The rotation of a centre-line primitive after [math.Mod] and the
    adjustment of negative values. *)
Definition normalize_rotation (rot : float64) : float64 :=
  let rot := F64.Mod rot (F64.of_Z 360) in
  if F64.ltb rot F64.zero then F64.add rot (F64.of_Z 360) else rot.

(** Whether the normalised rotation counts as a quarter turn. *)
Definition swaps_sides (rot : float64) : bool :=
  F64.ltb (F64.abs (F64.sub rot (F64.of_Z 90))) (F64.of_Z 1) ||
  F64.ltb (F64.abs (F64.sub rot (F64.of_Z 270))) (F64.of_Z 1).

(** The rectangle primitive 21 fills, from its six modifiers. *)
Definition center_line_rect (x y : Z) (mods : list float64) (scale : float64) : Rectangle :=
  let width := nth_mod mods 1 in
  let height := nth_mod mods 2 in
  let cx := nth_mod mods 3 in
  let cy := nth_mod mods 4 in
  let rot := normalize_rotation (nth_mod mods 5) in
  let '(width, height) := if swaps_sides rot then (height, width) else (width, height) in
  let w := F64.to_int (F64.mul width scale) in
  let h := F64.to_int (F64.mul height scale) in
  let icx := F64.to_int (F64.mul cx scale) in
  let icy := F64.to_int (F64.mul cy scale) in
  let rx := Int.add x icx in
  let ry := Int.sub y icy in
  image_Rect (Int.sub rx (Int.quo w 2)) (Int.sub ry (Int.quo h 2))
             (Int.add rx (Int.quo w 2)) (Int.add ry (Int.quo h 2)).

(** The body of the loop over the primitives of a macro. *)
Definition drawPrimitive (x y : Z) (scale : float64) (c : Color)
    (img : RGBA) (prim : MacroPrimitive) : RGBA :=
  let mods := prim_Modifiers prim in
  if prim_Code prim =? 1 then
    if (4 <=? length mods)%nat then
      let dia := nth_mod mods 1 in
      let cx := nth_mod mods 2 in
      let cy := nth_mod mods 3 in
      let px := F64.to_int (F64.mul cx scale) in
      let py := F64.to_int (F64.mul cy scale) in
      let radius := F64.to_int (F64.div (F64.mul dia scale) (F64.of_Z 2)) in
      drawCircle img (Int.add x px) (Int.sub y py) radius
    else img
  else if prim_Code prim =? 21 then
    if (6 <=? length mods)%nat then
      Draw_uniform img (center_line_rect x y mods scale) c
    else img
  else img.

Definition drawAperture (gf : GerberFile) (img : RGBA) (x y : Z) (ap : Aperture)
    (scale : float64) (c : Color) : RGBA :=
  let mods := ap_Modifiers ap in
  if String.eqb (ap_Type ap) ApertureCircle then
    if (0 <? length mods)%nat then
      let radius := F64.to_int (F64.div (F64.mul (nth_mod mods 0) scale) (F64.of_Z 2)) in
      drawCircle img x y radius
    else img
  else if String.eqb (ap_Type ap) ApertureRect || String.eqb (ap_Type ap) ApertureObround then
    if (2 <=? length mods)%nat then
      let w := F64.to_int (F64.mul (nth_mod mods 0) scale) in
      let h := F64.to_int (F64.mul (nth_mod mods 1) scale) in
      Draw_uniform img (centered_rect x y w h) c
    else img
  else
    match Macros (State gf) !! ap_Type ap with
    | Some macro => fold_left (drawPrimitive x y scale c) (Primitives macro) img
    | None => img
    end.

Definition drawLine (gf : GerberFile) (img : RGBA) (x1 y1 x2 y2 : Z) (ap : Aperture)
    (scale : float64) (c : Color) : RGBA :=
  let dx := F64.of_Z (Int.sub x2 x1) in
  let dy := F64.of_Z (Int.sub y2 y1) in
  let dist := F64.sqrt (F64.add (F64.mul dx dx) (F64.mul dy dy)) in
  let steps := F64.to_int dist in
  if steps =? 0 then drawAperture gf img x1 y1 ap scale c
  else
    for_range 0 steps (fun i img =>
      let t := F64.div (F64.of_Z i) (F64.of_Z steps) in
      let x := F64.to_int (F64.add (F64.of_Z x1) (F64.mul t dx)) in
      let y := F64.to_int (F64.add (F64.of_Z y1) (F64.mul t dy)) in
      drawAperture gf img x y ap scale c) img.

(** ** [Render] *)

(** The closure [toPix]: physical units to pixels, with the Y axis flipped. *)
Definition toPix (b : Bounds) (heightMM scale : float64) (x y : float64) : Z * Z :=
  (F64.to_int (F64.mul (F64.sub x (MinX b)) scale),
   F64.to_int (F64.mul (F64.sub heightMM (F64.sub y (MinY b))) scale)).

(** What the replay loop carries from one command to the next. *)
Record Pen := { pen_img : RGBA; curX : float64; curY : float64; curDCode : Z }.

Definition render_step (gf : GerberFile) (b : Bounds) (heightMM scale : float64)
    (st : Pen) (cmd : GerberCommand) : outcome Pen :=
  if String.eqb (cmd_Type cmd) "APERTURE" then
    d ← deref (cmd_D cmd);
    mret {| pen_img := pen_img st; curX := curX st; curY := curY st; curDCode := d |}
  else
    let '(prevX, prevY) := (curX st, curY st) in
    let '(cX, cY) := move_pen (prevX, prevY) cmd in
    let img :=
      if String.eqb (cmd_Type cmd) "FLASH" then
        match Apertures (State gf) !! curDCode st with
        | Some ap =>
            let '(cx, cy) := toPix b heightMM scale cX cY in
            drawAperture gf (pen_img st) cx cy ap scale White
        | None => pen_img st
        end
      else if String.eqb (cmd_Type cmd) "DRAW" then
        match Apertures (State gf) !! curDCode st with
        | Some ap =>
            let '(x1, y1) := toPix b heightMM scale prevX prevY in
            let '(x2, y2) := toPix b heightMM scale cX cY in
            drawLine gf (pen_img st) x1 y1 x2 y2 ap scale White
        | None => pen_img st
        end
      else pen_img st in
    mret {| pen_img := img; curX := cX; curY := cY; curDCode := curDCode st |}.

(** The pixels per physical unit. *)
Definition render_scale (gf : GerberFile) (dpi : float64) : float64 :=
  if String.eqb (Units (State gf)) "IN" then dpi
  else F64.div dpi (F64.decimal false 254 (-1)).

Definition render_bounds (gf : GerberFile) (bounds : option Bounds) : Bounds :=
  match bounds with
  | Some b => b
  | None => CalculateBounds gf
  end.

(** The size of the raster, in pixels. *)
Definition raster_size (gf : GerberFile) (dpi : float64) (bounds : option Bounds) : Z * Z :=
  let b := render_bounds gf bounds in
  let widthMM := F64.sub (MaxX b) (MinX b) in
  let heightMM := F64.sub (MaxY b) (MinY b) in
  let scale := render_scale gf dpi in
  (F64.to_int (F64.mul widthMM scale), F64.to_int (F64.mul heightMM scale)).

Definition Render (gf : GerberFile) (dpi : float64) (bounds : option Bounds) : outcome RGBA :=
  let b := render_bounds gf bounds in
  let heightMM := F64.sub (MaxY b) (MinY b) in
  let scale := render_scale gf dpi in
  let '(imgWidth, imgHeight) := raster_size gf dpi bounds in
  img ← NewRGBA (image_Rect 0 0 imgWidth imgHeight);
  let img := Draw_uniform img (Rect img) Black in
  st ← foldlM (render_step gf b heightMM scale) (Commands gf)
         {| pen_img := img; curX := F64.zero; curY := F64.zero; curDCode := 0 |};
  mret (pen_img st).

(** ** The mesh generator of [main.go] *)

Definition DPI : float64 := F64.of_Z 1000.

(** The constant [25.4 / DPI] is evaluated exactly and then rounded. *)
Definition PixelToMM : float64 := F64.decimal false 254 (-4).

Record Point := { pt_X : float64; pt_Y : float64; pt_Z : float64 }.

Definition Triangle : Type := Point * Point * Point.

(** The closure [addQuad]. *)
Definition addQuad (triangles : list Triangle) (a b c d : Point) : list Triangle :=
  (triangles ++ [(a, b, c)]) ++ [(c, d, a)].

Definition AddBox (triangles : list Triangle) (x y w h zHeight : float64) : list Triangle :=
  let '(x0, y0) := (x, y) in
  let '(x1, y1) := (F64.add x w, F64.add y h) in
  let '(z0, z1) := (F64.zero, zHeight) in
  let p000 := {| pt_X := x0; pt_Y := y0; pt_Z := z0 |} in
  let p100 := {| pt_X := x1; pt_Y := y0; pt_Z := z0 |} in
  let p110 := {| pt_X := x1; pt_Y := y1; pt_Z := z0 |} in
  let p010 := {| pt_X := x0; pt_Y := y1; pt_Z := z0 |} in
  let p001 := {| pt_X := x0; pt_Y := y0; pt_Z := z1 |} in
  let p101 := {| pt_X := x1; pt_Y := y0; pt_Z := z1 |} in
  let p111 := {| pt_X := x1; pt_Y := y1; pt_Z := z1 |} in
  let p011 := {| pt_X := x0; pt_Y := y1; pt_Z := z1 |} in
  let triangles := addQuad triangles p000 p010 p110 p100 in
  let triangles := addQuad triangles p101 p111 p011 p001 in
  let triangles := addQuad triangles p000 p100 p101 p001 in
  let triangles := addQuad triangles p100 p110 p111 p101 in
  let triangles := addQuad triangles p110 p010 p011 p111 in
  addQuad triangles p010 p000 p001 p011.

(** The test on a pixel's colour: dark on all three channels. *)
Definition isSolid (c : Color) : bool :=
  let '(r, g, b, _) := RGBA16 c in
  (r <? 10000) && (g <? 10000) && (b <? 10000).

(** The row scan, for any way [emit acc startX y stripLen] of recording a
    finished strip: [startX] is [-1] outside a strip. *)
Section Scan.
Context {I : Type} `{Image I} {Acc : Type}.
Variable emit : Acc -> Z -> Z -> Z -> Acc.
Variable img : I.

Definition scan_pixel (y x : Z) (st : Z * Acc) : Z * Acc :=
  let '(startX, acc) := st in
  if isSolid (img_At img x y) then
    if startX =? -1 then (x, acc) else (startX, acc)
  else
    if negb (startX =? -1)
    then (-1, emit acc startX y (Int.sub x startX))
    else (startX, acc).

Definition scan_row (width y : Z) (acc : Acc) : Acc :=
  let '(startX, acc) := for_range 0 (width - 1) (scan_pixel y) (-1, acc) in
  if negb (startX =? -1)
  then emit acc startX y (Int.sub width startX)
  else acc.

Definition scan_image (acc : Acc) : Acc :=
  let bounds := img_Bounds img in
  let width := Max_X bounds in
  let height := Max_Y bounds in
  for_range 0 (height - 1) (scan_row width) acc.
End Scan.

(** The [AddBox] call for the strip of [stripLen] pixels from [startX] in
    row [y]. *)
Definition strip_box (StencilHeight : float64) (triangles : list Triangle)
    (startX y stripLen : Z) : list Triangle :=
  AddBox triangles
    (F64.mul (F64.of_Z startX) PixelToMM)
    (F64.mul (F64.of_Z y) PixelToMM)
    (F64.mul (F64.of_Z stripLen) PixelToMM)
    PixelToMM
    StencilHeight.

(** [GenerateMeshFromImage]; the global [StencilHeight] is a parameter. *)
Definition GenerateMeshFromImage {I : Type} `{Image I} (StencilHeight : float64) (img : I)
  : list Triangle :=
  scan_image (strip_box StencilHeight) img [].

(** ** Notions the properties are stated with *)

(** *** Outcomes and patterns *)

(** A call that returns normally. *)
Definition returns {A : Type} (o : outcome A) : Prop := exists a, o = Done a.

(** The number of capture groups of a pattern. *)
Definition groups (pat : list item) : nat := length (List.filter it_capture pat).

(** *** The fields of a statement

    The key ([X], [Y] or [D]) and the number of a field matched by
    [reCoord]. *)
Definition field_key (m : list string) : string := nth 1 m EmptyString.
Definition field_value (m : list string) : string := nth 2 m EmptyString.

(** The fields of a statement with a given key, in order. *)
Definition fields (key : string) (part : string) : list string :=
  map field_value
    (List.filter (fun m => String.eqb (field_key m) key)
       (FindAllStringSubmatch reCoord part)).

(** The value a statement gives an axis: that of its last field with the
    key, if there is one. *)
Definition axis_value (key : string) (fmtSpec : Format) (part : string) : option float64 :=
  last (map (fun v => parseCoordinate v fmtSpec) (fields key part)).

(** *** Binary64 numbers as integers

    Every finite binary64 number is a whole multiple of [2^-1074]; its
    value in that unit, and the numbers in canonical form. *)
Definition units (x : float64) : Z :=
  match x with
  | S754_finite s m e => cond_Zopp s (Zpos m * 2 ^ (e + 1074))
  | _ => 0
  end.

Definition canonical (x : float64) : Prop :=
  F64.is_finite x = true /\ valid_binary F64.prec F64.emax x = true.

(** One physical unit, in units of [2^-1074]. *)
Definition unit_1 : Z := 2 ^ 1074.

(** *** Bounds

    The points a command sequence contributes to the bounds, with the pen
    at [pen] before it: a flash its own point, a draw the point it starts
    from and the point it ends at, any other command nothing. *)
Fixpoint contributors (pen : float64 * float64) (cmds : list GerberCommand)
  : list (float64 * float64) :=
  match cmds with
  | [] => []
  | cmd :: rest =>
      let pen' := move_pen pen cmd in
      (if String.eqb (cmd_Type cmd) "FLASH" then [pen']
       else if String.eqb (cmd_Type cmd) "DRAW" then [pen; pen']
       else []) ++ contributors pen' rest
  end.

(** The extremes [b] widened to cover the points [pts]. *)
Definition cover (b : Bounds) (pts : list (float64 * float64)) : Bounds :=
  fold_left (fun b p => updateBounds b (fst p) (snd p)) pts b.

(** A drawing of one flash whose Y coordinate, a one followed by 309
    zeros, is beyond the largest binary64 number. *)
Definition overflow_text : list string :=
  ["Y1000000000000000000000000000000000000000000000000000000000000000000000000000000000000000000000000000000000000000000000000000000000000000000000000000000000000000000000000000000000000000000000000000000000000000000000000000000000000000000000000000000000000000000000000000000000000000000000000000000000000000000000D03*"].

Definition overflow_drawing : GerberFile :=
  {| Commands := [{| cmd_Type := "FLASH"; cmd_X := None;
                     cmd_Y := Some (F64.inf false); cmd_D := Some 3 |}];
     State := State NewGerberFile |}.

(** A coordinate between the initial extremes of the scan: a binary64
    number of magnitude at most 1e9. *)
Definition within_extremes (v : float64) : Prop :=
  canonical v /\ Z.abs (units v) <= 10 ^ 9 * unit_1.

Definition coordinates_within (cmds : list GerberCommand) : Prop :=
  Forall (fun cmd =>
            (forall v, cmd_X cmd = Some v -> within_extremes v) /\
            (forall v, cmd_Y cmd = Some v -> within_extremes v)) cmds.

Definition Bounds_finite (b : Bounds) : Prop :=
  F64.is_finite (MinX b) = true /\ F64.is_finite (MinY b) = true /\
  F64.is_finite (MaxX b) = true /\ F64.is_finite (MaxY b) = true.

Definition Bounds_nonempty (b : Bounds) : Prop :=
  F64.ltb (MinX b) (MaxX b) = true /\ F64.ltb (MinY b) (MaxY b) = true.

(** A drawing without geometry: an aperture selection and a move. *)
Definition no_geometry : GerberFile :=
  {| Commands := [{| cmd_Type := "APERTURE"; cmd_X := None; cmd_Y := None;
                     cmd_D := Some 10 |};
                  {| cmd_Type := "MOVE"; cmd_X := Some (F64.of_Z 3); cmd_Y := None;
                     cmd_D := Some 2 |}];
     State := State NewGerberFile |}.

(** A drawing of one flash, at (3, -5). *)
Definition one_flash : GerberFile :=
  {| Commands := [{| cmd_Type := "FLASH"; cmd_X := Some (F64.of_Z 3);
                     cmd_Y := Some (F64.of_Z (-5)); cmd_D := Some 3 |}];
     State := State NewGerberFile |}.

(** *** Raster sizes

    Two flashes a hundred kilometres apart, and two a kilometre apart. *)
Definition huge_text : list string := ["X0Y0D03*"; "X100000000Y100000000D03*"].
Definition large_text : list string := ["X0Y0D03*"; "X1000000Y1000000D03*"].

Definition two_flashes (far : Z) : GerberFile :=
  {| Commands := [{| cmd_Type := "FLASH"; cmd_X := Some F64.zero; cmd_Y := Some F64.zero;
                     cmd_D := Some 3 |};
                  {| cmd_Type := "FLASH"; cmd_X := Some (F64.of_Z far);
                     cmd_Y := Some (F64.of_Z far); cmd_D := Some 3 |}];
     State := State NewGerberFile |}.

(** Commands as the interpreter builds them: an aperture selection
    carries its code. *)
Definition selections_carry_code (cmds : list GerberCommand) : Prop :=
  Forall (fun cmd => cmd_Type cmd = "APERTURE" -> cmd_D cmd <> None) cmds.

(** *** Centre-line primitives

    The rectangle of a centre-line primitive when its sides are taken as
    given: [width] by [height] around the offset centre. *)
Definition unrotated_rect (x y : Z) (mods : list float64) (scale : float64) : Rectangle :=
  centered_rect (Int.add x (F64.to_int (F64.mul (nth_mod mods 3) scale)))
                (Int.sub y (F64.to_int (F64.mul (nth_mod mods 4) scale)))
                (F64.to_int (F64.mul (nth_mod mods 1) scale))
                (F64.to_int (F64.mul (nth_mod mods 2) scale)).

(** The same with the sides exchanged. *)
Definition quarter_turn_rect (x y : Z) (mods : list float64) (scale : float64) : Rectangle :=
  centered_rect (Int.add x (F64.to_int (F64.mul (nth_mod mods 3) scale)))
                (Int.sub y (F64.to_int (F64.mul (nth_mod mods 4) scale)))
                (F64.to_int (F64.mul (nth_mod mods 2) scale))
                (F64.to_int (F64.mul (nth_mod mods 1) scale)).

(** A centre line 2 wide and 4 high, at the flash point, turned by the
    given number of degrees. *)
Definition center_line (rot : float64) : list float64 :=
  [F64.of_Z 1; F64.of_Z 2; F64.of_Z 4; F64.zero; F64.zero; rot].

(** *** A thin stroke

    A horizontal stroke of 6.62 mm with a round aperture of 0.03 mm, which
    is less than two pixels across at 1000 pixels per inch. *)
Definition thin_stroke_text : list string :=
  ["%FSLAX24Y24*%"; "%MOMM*%"; "%ADD10C,0.03*%"; "D10*"; "X0Y0D02*"; "X66200Y0D01*"].

(** The colour of a pixel of a rendered field. *)
Definition rendered_pixel (o : outcome RGBA) (x y : Z) : option Color :=
  match o with
  | Done img => Some (img_At img x y)
  | _ => None
  end.

(** The columns from [lo] to [hi] that are still stencil material in row
    [y] of a rendered field. *)
Definition solid_columns (o : outcome RGBA) (y lo hi : Z) : list Z :=
  match o with
  | Done img => List.filter (fun x => isSolid (img_At img x y)) (seqZ lo (hi - lo + 1))
  | _ => []
  end.

(** Whether a whole column is stencil material. *)
Definition solid_column (o : outcome RGBA) (x : Z) : bool :=
  match o with
  | Done img =>
      forallb (fun y => isSolid (img_At img x y))
              (seqZ (Min_Y (Rect img)) (Max_Y (Rect img) - Min_Y (Rect img)))
  | _ => false
  end.

Definition parsed (o : outcome GerberFile) : GerberFile :=
  match o with
  | Done gf => gf
  | _ => NewGerberFile
  end.

(** *** A small field

    Four columns and two rows: [#.##] above [..#.], where [#] is stencil
    material. *)
Definition sample_field : RGBA :=
  {| Rect := image_Rect 0 0 4 2;
     Pix := fun x y =>
       if ((y =? 0) && negb (x =? 1)) || ((y =? 1) && (x =? 2)) then Black else White |}.

(** The field of an empty drawing at one pixel per millimetre: fourteen
    by fourteen pixels of stencil material. *)
Definition blank_field : RGBA :=
  Draw_uniform {| Rect := image_Rect 0 0 14 14; Pix := fun _ _ => Transparent |}
    (image_Rect 0 0 14 14) Black.

(** *** Strips

    A strip: its first column, its row and its length in pixels. *)
Record Strip := { strip_start : Z; strip_row : Z; strip_len : Z }.

Definition emit_strip (acc : list Strip) (startX y stripLen : Z) : list Strip :=
  acc ++ [{| strip_start := startX; strip_row := y; strip_len := stripLen |}].

(** The strips in the order the scan finishes them. *)
Definition image_strips {I : Type} `{Image I} (img : I) : list Strip :=
  scan_image emit_strip img [].

(** Recording strips with [emit], one after the other. *)
Definition replay {Acc : Type} (emit : Acc -> Z -> Z -> Z -> Acc) (l : list Strip) (acc : Acc)
  : Acc :=
  fold_left (fun acc s => emit acc (strip_start s) (strip_row s) (strip_len s)) l acc.

(** The triangles of the box that stands on one strip. *)
Definition strip_triangles (StencilHeight : float64) (s : Strip) : list Triangle :=
  strip_box StencilHeight [] (strip_start s) (strip_row s) (strip_len s).

(** The pixel area the boxes of these strips cover in the XY plane: each
    box is as long as its strip and one pixel row high. *)
Definition strips_area (l : list Strip) : Z :=
  fold_right (fun s n => strip_len s * 1 + n) 0 l.

(** The number of solid pixels of the field. *)
Definition count_solid {I : Type} `{Image I} (img : I) : Z :=
  let r := img_Bounds img in
  for_range (Min_Y r) (Max_Y r - 1) (fun y n =>
    for_range (Min_X r) (Max_X r - 1) (fun x n =>
      if isSolid (img_At img x y) then n + 1 else n) n) 0.

(** *** The shape of a box

    A corner of a box is named by the end it lies at on the X, the Y and
    the Z axis ([true] for the far end). *)
Definition Corner : Type := bool * bool * bool.

Inductive Axis := AxisX | AxisY | AxisZ.

Definition corner_end (a : Axis) (c : Corner) : bool :=
  match a, c with
  | AxisX, (ex, _, _) => ex
  | AxisY, (_, ey, _) => ey
  | AxisZ, (_, _, ez) => ez
  end.

(** The six [addQuad] calls of [AddBox], by corner: bottom, top, front,
    right, back, left. *)
Definition box_quads : list (Corner * Corner * Corner * Corner) :=
  [ ((false, false, false), (false, true, false), (true, true, false), (true, false, false));
    ((true, false, true), (true, true, true), (false, true, true), (false, false, true));
    ((false, false, false), (true, false, false), (true, false, true), (false, false, true));
    ((true, false, false), (true, true, false), (true, true, true), (true, false, true));
    ((true, true, false), (false, true, false), (false, true, true), (true, true, true));
    ((false, true, false), (false, false, false), (false, false, true), (false, true, true)) ].

(** The two triangles [addQuad] makes of a quad. *)
Definition quad_triangles {A : Type} (q : A * A * A * A) : list (A * A * A) :=
  let '(a, b, c, d) := q in [(a, b, c); (c, d, a)].

Definition box_triangles : list (Corner * Corner * Corner) :=
  flat_map quad_triangles box_quads.

(** The face of the box a quad lies in: the axis and the end all four of
    its corners share. *)
Definition quad_face (q : Corner * Corner * Corner * Corner) : list (Axis * bool) :=
  let '(a, b, c, d) := q in
  List.filter (fun '(ax, e) =>
            forallb (fun k => Bool.eqb (corner_end ax k) e) [a; b; c; d])
         [(AxisX, false); (AxisX, true); (AxisY, false); (AxisY, true);
          (AxisZ, false); (AxisZ, true)].

Definition corner_eqb (a b : Corner) : bool :=
  let '(a1, a2, a3) := a in
  let '(b1, b2, b3) := b in
  Bool.eqb a1 b1 && Bool.eqb a2 b2 && Bool.eqb a3 b3.

(** The directed edges of a triangle list. *)
Definition edges (ts : list (Corner * Corner * Corner)) : list (Corner * Corner) :=
  flat_map (fun '(a, b, c) => [(a, b); (b, c); (c, a)]) ts.

Definition count_edge (e : Corner * Corner) (es : list (Corner * Corner)) : nat :=
  length (List.filter (fun e' => corner_eqb (fst e) (fst e') && corner_eqb (snd e) (snd e')) es).

(** A closed, consistently oriented surface: every directed edge is used
    by one triangle, and its reverse by one triangle. *)
Definition closed_surface (ts : list (Corner * Corner * Corner)) : bool :=
  forallb (fun e => Nat.eqb (count_edge e (edges ts)) 1
                    && Nat.eqb (count_edge (snd e, fst e) (edges ts)) 1)
          (edges ts).

(** The vertex [AddBox] puts at a corner. *)
Definition corner_point (x y w h zHeight : float64) (c : Corner) : Point :=
  let '(ex, ey, ez) := c in
  {| pt_X := if ex then F64.add x w else x;
     pt_Y := if ey then F64.add y h else y;
     pt_Z := if ez then zHeight else F64.zero |}.

Definition triangle_at {A B : Type} (f : A -> B) (t : A * A * A) : B * B * B :=
  let '(a, b, c) := t in (f a, f b, f c).

(** Both ends of the extrusion: the Z coordinate is 0 or the height. *)
Definition on_extrusion_ends (zHeight : float64) (t : Triangle) : Prop :=
  let '(a, b, c) := t in
  (pt_Z a = F64.zero \/ pt_Z a = zHeight) /\
  (pt_Z b = F64.zero \/ pt_Z b = zHeight) /\
  (pt_Z c = F64.zero \/ pt_Z c = zHeight).

(** *** Clearing

    The field [Render] starts from: a raster from the origin, filled with
    stencil material. *)
Definition filled_field (w h : Z) : RGBA :=
  Draw_uniform {| Rect := image_Rect 0 0 w h; Pix := fun _ _ => Transparent |}
    (image_Rect 0 0 w h) Black.

(** A field got from [img0] by clearing: the same bounds, and every pixel
    as it was or, inside the bounds, white. *)
Definition cleared_from (img0 img : RGBA) : Prop :=
  Rect img = Rect img0 /\
  forall x y, Pix img x y = Pix img0 x y \/
              (Pix img x y = White /\ In_rect x y (Rect img0) = true).

(** Commands that draw nothing: neither flashes nor draws. *)
Definition no_drawing (cmds : list GerberCommand) : Prop :=
  Forall (fun cmd => cmd_Type cmd <> "FLASH" /\ cmd_Type cmd <> "DRAW") cmds.

(** The drawing [gf] with other commands. *)
Definition with_Commands (gf : GerberFile) (cmds : list GerberCommand) : GerberFile :=
  {| Commands := cmds; State := State gf |}.

(** The field a call of [Render] returned (the zero raster if it did not
    return). *)
Definition field_of (o : outcome RGBA) : RGBA :=
  match o with
  | Done img => img
  | _ => {| Rect := ZR; Pix := fun _ _ => Transparent |}
  end.

(** A drawing of one flash at (3, 5) with a round aperture 4 across. *)
Definition round_flash : GerberFile :=
  {| Commands := [{| cmd_Type := "APERTURE"; cmd_X := None; cmd_Y := None;
                     cmd_D := Some 10 |};
                  {| cmd_Type := "FLASH"; cmd_X := Some (F64.of_Z 3);
                     cmd_Y := Some (F64.of_Z 5); cmd_D := Some 3 |}];
     State := set_Aperture (State NewGerberFile) 10
                {| ap_Type := "C"; ap_Modifiers := [F64.of_Z 4] |} |}.

(** One pixel per millimetre. *)
Definition dpi_1mm : float64 := F64.decimal false 254 (-1).

(** The command [cmd] with another type. *)
Definition with_Type (cmd : GerberCommand) (ty : string) : GerberCommand :=
  {| cmd_Type := ty; cmd_X := cmd_X cmd; cmd_Y := cmd_Y cmd; cmd_D := cmd_D cmd |}.

(** A rectangular aperture 3 by 1. *)
Definition thin_rect : Aperture :=
  {| ap_Type := "R"; ap_Modifiers := [F64.of_Z 3; F64.of_Z 1] |}.

(** The centres [drawLine] stamps the aperture at, from [(x1, y1)] to
    [(x2, y2)]. *)
Definition stroke_centres (x1 y1 x2 y2 : Z) : list (Z * Z) :=
  let dx := F64.of_Z (Int.sub x2 x1) in
  let dy := F64.of_Z (Int.sub y2 y1) in
  let dist := F64.sqrt (F64.add (F64.mul dx dx) (F64.mul dy dy)) in
  let steps := F64.to_int dist in
  if steps =? 0 then [(x1, y1)]
  else
    map (fun i =>
           let t := F64.div (F64.of_Z i) (F64.of_Z steps) in
           (F64.to_int (F64.add (F64.of_Z x1) (F64.mul t dx)),
            F64.to_int (F64.add (F64.of_Z y1) (F64.mul t dy))))
        (seqZ 0 (steps - 0 + 1)).

(** *** Runs

    A strip that is a maximal run of solid pixels among the columns below
    [width] of its row: solid throughout, with no solid pixel right
    before it or right after it. *)
Definition maximal_run {I : Type} `{Image I} (img : I) (width : Z) (s : Strip) : Prop :=
  0 <= strip_start s /\ 1 <= strip_len s /\ strip_start s + strip_len s <= width /\
  (forall x, strip_start s <= x < strip_start s + strip_len s ->
             isSolid (img_At img x (strip_row s)) = true) /\
  (0 < strip_start s -> isSolid (img_At img (strip_start s - 1) (strip_row s)) = false) /\
  (strip_start s + strip_len s < width ->
   isSolid (img_At img (strip_start s + strip_len s) (strip_row s)) = false).

(** The pixel [(x, y)] lies under the strip. *)
Definition in_strip (x y : Z) (s : Strip) : Prop :=
  strip_row s = y /\ strip_start s <= x < strip_start s + strip_len s.

(** The order of the scan: an earlier row, or the same row with at least
    one column between the strips. *)
Definition strip_before (s t : Strip) : Prop :=
  strip_row s < strip_row t \/
  (strip_row s = strip_row t /\ strip_start s + strip_len s < strip_start t).

(** The state of the scan of row [y] after the columns below [k]: the
    finished strips and the column [sx] the open strip starts at. *)
Definition row_scanned {I : Type} `{Image I} (img : I) (y k : Z) (st : Z * list Strip) : Prop :=
  let '(sx, l) := st in
  Forall (fun s => strip_row s = y /\ maximal_run img (strip_start s + strip_len s + 1) s /\
                   strip_start s + strip_len s < k /\
                   (sx <> -1 -> strip_start s + strip_len s < sx)) l /\
  StronglySorted strip_before l /\
  ((sx = -1 /\ (0 < k -> isSolid (img_At img (k - 1) y) = false)) \/
   (0 <= sx < k /\ (forall x, sx <= x < k -> isSolid (img_At img x y) = true) /\
    (0 < sx -> isSolid (img_At img (sx - 1) y) = false))) /\
  (forall x, 0 <= x < k -> isSolid (img_At img x y) = true ->
             (sx <> -1 /\ sx <= x) \/ exists s, s ∈ l /\ in_strip x y s).

(** The strips of the rows below [h] of a field [width] wide. *)
Definition rows_scanned {I : Type} `{Image I} (img : I) (width h : Z) (l : list Strip) : Prop :=
  Forall (fun s => 0 <= strip_row s < h /\ maximal_run img width s) l /\
  StronglySorted strip_before l /\
  (forall x y, 0 <= x < width -> 0 <= y < h -> isSolid (img_At img x y) = true ->
               exists s, s ∈ l /\ in_strip x y s).

(** The strip that takes the whole row [y] of a field [width] wide. *)
Definition full_row (width y : Z) : Strip :=
  {| strip_start := 0; strip_row := y; strip_len := width |}.

(** A field of two by two holes. *)
Definition white_field : RGBA :=
  {| Rect := image_Rect 0 0 2 2; Pix := fun _ _ => White |}.

(** *** What the interpreter builds

    A string over a byte class. *)
Fixpoint all_in (cl : ascii -> bool) (s : string) : bool :=
  match s with
  | EmptyString => true
  | String c s' => cl c && all_in cl s'
  end.

(** What a group of the item [it] can capture. *)
Definition captures (it : item) (p : string) : Prop :=
  all_in (it_class it) p = true /\
  match it_rep it with
  | One => String.length p = 1%nat
  | Opt => (String.length p <= 1)%nat
  | Plus => (1 <= String.length p)%nat
  | OptPlus => True
  end.

(** The commands the interpreter emits: an aperture selection carries a
    code from 10 up and no coordinates; any other command is a move, a
    draw or a flash with at least one field, and a draw or a flash
    carries an operation code. *)
Definition command_wellformed (cmd : GerberCommand) : Prop :=
  (cmd_Type cmd = "APERTURE" /\ cmd_X cmd = None /\ cmd_Y cmd = None /\
   exists d, cmd_D cmd = Some d /\ 10 <= d <= Int.max_int) \/
  ((cmd_Type cmd = "MOVE" \/ cmd_Type cmd = "DRAW" \/ cmd_Type cmd = "FLASH") /\
   (cmd_X cmd <> None \/ cmd_Y cmd <> None \/ cmd_D cmd <> None) /\
   (cmd_Type cmd = "DRAW" \/ cmd_Type cmd = "FLASH" -> cmd_D cmd <> None)).

Definition digit_counts (f : Format) : Prop :=
  0 <= Integer f <= 9 /\ 0 <= Decimal f <= 9.

(** The state the interpreter builds: the unit is one of the two, the
    digit counts of the formats are single digits, a macro is stored under
    its own name, and the current aperture and position are as
    [NewGerberFile] made them. *)
Definition state_wellformed (st : GerberState) : Prop :=
  (Units st = "MM" \/ Units st = "IN") /\
  digit_counts (FormatX st) /\ digit_counts (FormatY st) /\
  map_Forall (fun name m => Name m = name) (Macros st) /\
  CurrentAperture st = 0 /\ st_X st = F64.zero /\ st_Y st = F64.zero.

(** A file of two parameter lines and three statements. *)
Definition sample_text : list string :=
  ["%FSLAX24Y24*%"; "%ADD10R,1.5X0.5*%"; "D10*"; "X10000Y20000D03*"; "X30000D01*"].

(** The state a line left the scan in (the initial state if the line did
    not return). *)
Definition field_of_line (o : outcome (GerberFile * scan_mode)) : GerberFile * scan_mode :=
  match o with
  | Done st => st
  | _ => (NewGerberFile, Outer)
  end.

(** The string does not go on with a byte of the class. *)
Definition stops (cl : ascii -> bool) (r : string) : Prop :=
  match r with
  | EmptyString => True
  | String c _ => cl c = false
  end.

(** The operation a code below 10 stands for. *)
Definition operation_type (n : Z) : string :=
  if n =? 1 then "DRAW" else if n =? 3 then "FLASH" else "MOVE".

(** The modifiers an aperture definition carries. *)
Definition definition_modifiers (mods : string) : list float64 :=
  if String.eqb mods EmptyString then [] else parse_modifiers (Split mods "X").

(** The primitive a line of a macro body is read as. *)
Definition primitive_of_line (text : string) : MacroPrimitive :=
  let parts := Split (TrimSuffix (TrimSpace text) "*") "," in
  {| prim_Code := fst (Atoi (hd EmptyString parts));
     prim_Modifiers := parse_modifiers (tl parts) |}.

(** The aperture definition [%ADD<d><ty>,<mods>*%]. *)
Definition definition_line (d ty mods : string) : string :=
  String "%" (String "A" (String "D" (String "D"
    (d ++ ty ++ String "," (mods ++ "*%"))))).

(** The format specification [%FSLAX<a><b>Y<c><d>*%]. *)
Definition format_line (a b c d : ascii) : string :=
  String "%" (String "F" (String "S" (String "L" (String "A" (String "X"
    (String a (String b (String "Y" (String c (String d "*%")))))))))).

(** The line [%AM<name>*] that opens a macro. *)
Definition macro_header (name : string) : string :=
  String "%" (String "A" (String "M" (name ++ "*"))).

(** ** The output path of [main]

    [filepath.Ext]: the suffix of the path from the last dot of its last
    element, empty if that element has no dot.  (The path separator is
    [/].)  [cur] is the extension of the part read so far. *)
Fixpoint ext_from (s cur : string) : string :=
  match s with
  | EmptyString => cur
  | String c s' =>
      if Ascii.eqb c "/" then ext_from s' EmptyString
      else if Ascii.eqb c "." then ext_from s' s
      else ext_from s' cur
  end.

Definition Ext (path : string) : string := ext_from path EmptyString.

(** [strings.TrimSuffix(gerberPath, filepath.Ext(gerberPath)) + ".stl"] *)
Definition outputPath (gerberPath : string) : string :=
  (TrimSuffix gerberPath (Ext gerberPath) ++ ".stl")%string.

(** [strings.TrimSuffix(gerberPath, filepath.Ext(gerberPath)) + ".png"] *)
Definition pngPath (gerberPath : string) : string :=
  (TrimSuffix gerberPath (Ext gerberPath) ++ ".png")%string.

(** ** [WriteSTL]

    The decimal digits of a natural number. *)
Definition digit_char (d : Z) : ascii := ascii_of_N (Z.to_N (48 + d)).

Fixpoint decimal_digits (fuel : nat) (n : Z) (acc : string) : string :=
  match fuel with
  | O => acc
  | S fuel' =>
      let acc' := String (digit_char (n mod 10)) acc in
      if n / 10 =? 0 then acc' else decimal_digits fuel' (n / 10) acc'
  end.

(** [n] in decimal, for [0 <= n]; a number has no more decimal digits
    than binary ones. *)
Definition itoa (n : Z) : string := decimal_digits (S (Z.to_nat (Z.log2 n))) n EmptyString.

(** The six digits of [n], for [0 <= n < 10^6]. *)
Definition six_digits (n : Z) : string :=
  String (digit_char (n / 100000 mod 10)) (String (digit_char (n / 10000 mod 10))
    (String (digit_char (n / 1000 mod 10)) (String (digit_char (n / 100 mod 10))
      (String (digit_char (n / 10 mod 10)) (String (digit_char (n mod 10)) EmptyString))))).

(** [num / den] rounded to the nearest integer, halves to the even one. *)
Definition round_half_even (num den : Z) : Z :=
  let q := num / den in
  let r := num mod den in
  if (den <? 2 * r) || ((2 * r =? den) && Z.odd q) then q + 1 else q.

(** The magnitude [m * 2^e] in millionths, rounded. *)
Definition millionths (m : positive) (e : Z) : Z :=
  if 0 <=? e then Zpos m * 2 ^ e * 10 ^ 6
  else round_half_even (Zpos m * 10 ^ 6) (2 ^ (- e)).

Definition fixed6 (neg : bool) (n : Z) : string :=
  ((if neg then "-" else EmptyString) ++ itoa (n / 10 ^ 6) ++ "." ++ six_digits (n mod 10 ^ 6))%string.

(** [fmt.Sprintf("%f", x)]: six digits after the point, the value rounded
    to the nearest such decimal. *)
Definition Sprintf_f (x : float64) : string :=
  match x with
  | S754_nan => "NaN"
  | S754_infinity false => "+Inf"
  | S754_infinity true => "-Inf"
  | S754_zero s => fixed6 s 0
  | S754_finite s m e => fixed6 s (millionths m e)
  end.

Definition newline : string := String (ascii_of_nat 10) EmptyString.

(** What [os.Create] answers: an error, or a file.  A write to the file
    may fall short: [short i] is the number of bytes the write number [i]
    gets out before it fails, if it fails. *)
Inductive create_result :=
  | CreateError (err : string)
  | Created (short : nat -> option nat).

(** The file: the pieces written so far and the number of writes. *)
Record File := { written : list string; writes : nat; file_short : nat -> option nat }.

(** [f.WriteString(s)], the returned count and error being dropped. *)
Definition WriteString (f : File) (s : string) : File :=
  {| written := written f ++ [match file_short f (writes f) with
                              | Some k => take_str k s
                              | None => s
                              end];
     writes := S (writes f);
     file_short := file_short f |}.

(** The loop over the three points of a triangle. *)
Definition write_vertex (f : File) (p : Point) : File :=
  WriteString f ("    vertex " ++ Sprintf_f (pt_X p) ++ " " ++ Sprintf_f (pt_Y p) ++ " "
                  ++ Sprintf_f (pt_Z p) ++ newline)%string.

(** The body of the loop over the triangles. *)
Definition write_facet (f : File) (t : Triangle) : File :=
  let '(a, b, c) := t in
  let f := WriteString f ("facet normal 0 0 0" ++ newline)%string in
  let f := WriteString f ("  outer loop" ++ newline)%string in
  let f := fold_left write_vertex [a; b; c] f in
  let f := WriteString f ("  endloop" ++ newline)%string in
  WriteString f ("endfacet" ++ newline)%string.

(** [WriteSTL]: the error returned, if any, and the file left behind, if
    one was created. *)
Definition WriteSTL (os_Create : string -> create_result) (filename : string)
    (triangles : list Triangle) : option string * option File :=
  match os_Create filename with
  | CreateError err => (Some err, None)
  | Created short =>
      let f := {| written := []; writes := 0; file_short := short |} in
      let f := WriteString f ("solid stencil" ++ newline)%string in
      let f := fold_left write_facet triangles f in
      let f := WriteString f ("endsolid stencil" ++ newline)%string in
      (None, Some f)
  end.

(** The text of a file. *)
Definition file_text (f : File) : string := fold_right String.append EmptyString (written f).

(** The lines [WriteSTL] writes for one triangle. *)
Definition vertex_line (p : Point) : string :=
  ("    vertex " ++ Sprintf_f (pt_X p) ++ " " ++ Sprintf_f (pt_Y p) ++ " "
    ++ Sprintf_f (pt_Z p) ++ newline)%string.

Definition facet_lines (t : Triangle) : list string :=
  let '(a, b, c) := t in
  [("facet normal 0 0 0" ++ newline)%string; ("  outer loop" ++ newline)%string;
   vertex_line a; vertex_line b; vertex_line c;
   ("  endloop" ++ newline)%string; ("endfacet" ++ newline)%string].

(** * Properties *)

(** ** Coordinates *)

Lemma read_digits_all (s : string) : forall acc n,
  all_digits s = true ->
  read_digits acc n s = (digits_val acc s, n + Z.of_nat (String.length s), EmptyString).
Proof.
  induction s as [|c s IH]; intros acc n Hd; simpl in *.
  - f_equal. f_equal. lia.
  - apply andb_true_iff in Hd as [Hc Hs]. rewrite Hc, IH by exact Hs.
    f_equal. f_equal. lia.
Qed.

Lemma all_digits_head (c : ascii) (s : string) :
  all_digits (String c s) = true -> c <> "-"%char /\ c <> "+"%char.
Proof.
  simpl. intros H. apply andb_true_iff in H as [Hc _].
  split; intros ->; vm_compute in Hc; discriminate.
Qed.

Lemma lower_str_digits (s : string) :
  all_digits s = true -> s <> EmptyString ->
  String.eqb (lower_str s) "inf" = false /\
  String.eqb (lower_str s) "infinity" = false /\
  String.eqb (lower_str s) "nan" = false.
Proof.
  destruct s as [|c s]; [congruence|]. intros Hd _.
  simpl in Hd. apply andb_true_iff in Hd as [Hc _].
  unfold lower_str. simpl.
  assert (Hl : lower c = c).
  { unfold lower. unfold is_digit in Hc.
    destruct (65 <=? Z.of_N (N_of_ascii c)) eqn:E; [|reflexivity].
    apply andb_true_iff in Hc as [_ Hc]. apply Z.leb_le in Hc, E. lia. }
  rewrite Hl.
  repeat split;
    match goal with |- context [Ascii.eqb c ?k] =>
      destruct (Ascii.eqb_spec c k) as [->|]; [vm_compute in Hc; discriminate | reflexivity]
    end.
Qed.

Lemma ParseFloat_digits (s : string) :
  all_digits s = true -> s <> EmptyString ->
  fst (ParseFloat s) = F64.of_Z (digits_val 0 s).
Proof.
  intros Hd Hne.
  destruct (lower_str_digits s Hd Hne) as (Hi1 & Hi2 & Hn).
  unfold ParseFloat.
  destruct s as [|c s]; [congruence|].
  destruct (all_digits_head c s Hd) as [Hm Hp].
  assert (Hsplit : match String c s with
                   | String "-" s' => (true, true, s')
                   | String "+" s' => (true, false, s')
                   | _ => (false, false, String c s)
                   end = (false, false, String c s)).
  { destruct c as [[] [] [] [] [] [] [] []]; try reflexivity; congruence. }
  rewrite Hsplit. rewrite Hi1, Hi2, Hn. simpl orb. simpl negb. cbv iota.
  rewrite (read_digits_all _ 0 0 Hd). cbv iota beta.
  assert (Hlen : (0 + Z.of_nat (String.length (String c s)) + 0 =? 0) = false).
  { apply Z.eqb_neq. simpl String.length. lia. }
  rewrite Hlen.
  replace (0 - 0) with 0 by lia.
  unfold F64.decimal. simpl (0 <=? 0). cbv iota.
  unfold cond_Zopp. rewrite Z.pow_0_r, Z.mul_1_r.
  unfold F64.of_Z.
  destruct (binary_normalize F64.prec F64.emax (digits_val 0 (String c s)) 0 false);
    reflexivity.
Qed.

Lemma binary_round_opp (m : positive) (e : Z) :
  binary_round F64.prec F64.emax true m e
  = SFopp (binary_round F64.prec F64.emax false m e).
Proof.
  unfold binary_round.
  destruct (shl_align m e _) as [mz ez]. unfold binary_round_aux.
  destruct (shr_fexp F64.prec F64.emax (Z.pos mz) ez loc_Exact) as [mrs e'].
  destruct (shr_fexp F64.prec F64.emax _ e' loc_Exact) as [mrs' e''].
  destruct (shr_m mrs'); try reflexivity.
  destruct (e'' <=? F64.emax - F64.prec); reflexivity.
Qed.

Lemma decimal_neg_integer (n : Z) :
  F64.decimal true n 0 = SFopp (F64.of_Z n).
Proof.
  unfold F64.decimal. change (0 <=? 0) with true. cbv iota.
  rewrite Z.pow_0_r, Z.mul_1_r. unfold F64.of_Z, binary_normalize, cond_Zopp.
  destruct n as [|p|p]; [reflexivity | apply binary_round_opp |].
  change (- Z.neg p) with (Z.pos p). cbv iota. rewrite binary_round_opp.
  destruct (binary_round F64.prec F64.emax false p 0) as [[]|[]| |[] ? ?]; reflexivity.
Qed.

Lemma ParseFloat_neg_digits (s : string) :
  all_digits s = true -> s <> EmptyString ->
  fst (ParseFloat (String "-" s)) = SFopp (F64.of_Z (digits_val 0 s)).
Proof.
  intros Hd Hne.
  destruct (lower_str_digits s Hd Hne) as (Hi1 & Hi2 & Hn).
  unfold ParseFloat. rewrite Hi1, Hi2. cbn [orb negb andb].
  rewrite (read_digits_all _ 0 0 Hd). cbv iota beta.
  assert (Hlen : (0 + Z.of_nat (String.length s) + 0 =? 0) = false).
  { apply Z.eqb_neq. destruct s; [congruence|]. simpl String.length. lia. }
  rewrite Hlen. replace (0 - 0) with 0 by lia.
  rewrite decimal_neg_integer.
  destruct (SFopp (F64.of_Z (digits_val 0 s))); reflexivity.
Qed.

Lemma Contains_point_digits (s : string) :
  all_digits s = true -> Contains s "." = false.
Proof.
  induction s as [|c s IH]; [reflexivity|].
  intros H. apply andb_true_iff in H as [Hc Hs].
  change (Contains (String c s) ".")
    with ((if ascii_dec "."%char c then String.prefix EmptyString s else false) || Contains s ".").
  rewrite (IH Hs), orb_false_r.
  destruct (ascii_dec "."%char c) as [<-|]; [vm_compute in Hc; discriminate|].
  reflexivity.
Qed.

(** C1. A coordinate string with a decimal point is returned as the number
    it spells, whatever the format; one without is that number divided by
    ten to the format's count of decimal digits: for a string of digits,
    with or without a minus sign, the integer it spells over [10^Decimal].
    Under the format (2, 4), [1234] is the binary64 number nearest to
    0.1234. *)
Theorem parseCoordinate_format (valStr : string) (fmtSpec : Format) :
  (Contains valStr "." = true ->
     parseCoordinate valStr fmtSpec = fst (ParseFloat valStr)) /\
  (Contains valStr "." = false ->
     parseCoordinate valStr fmtSpec
     = F64.div (fst (ParseFloat valStr)) (F64.Pow10 (Decimal fmtSpec))) /\
  (all_digits valStr = true -> valStr <> EmptyString -> 0 <= Decimal fmtSpec ->
     parseCoordinate valStr fmtSpec
     = F64.div (F64.of_Z (digits_val 0 valStr)) (F64.of_Z (10 ^ Decimal fmtSpec)) /\
     parseCoordinate (String "-" valStr) fmtSpec
     = F64.div (SFopp (F64.of_Z (digits_val 0 valStr))) (F64.of_Z (10 ^ Decimal fmtSpec))) /\
  parseCoordinate "1234" {| Integer := 2; Decimal := 4 |} = F64.decimal false 1234 (-4) /\
  parseCoordinate "0.1234" fmtSpec = F64.decimal false 1234 (-4).
Proof.
  split; [|split; [|split; [|split; reflexivity]]].
  - intros H. unfold parseCoordinate. rewrite H. destruct (ParseFloat valStr); reflexivity.
  - intros H. unfold parseCoordinate. rewrite H. destruct (ParseFloat valStr); reflexivity.
  - intros Hd Hne Hdec. unfold parseCoordinate.
    assert (Hminus : Contains (String "-" valStr) "." = false).
    { change (Contains (String "-" valStr) ".") with (false || Contains valStr ".").
      apply (Contains_point_digits _ Hd). }
    rewrite Hminus, (Contains_point_digits _ Hd).
    rewrite <- (ParseFloat_neg_digits _ Hd Hne), <- (ParseFloat_digits _ Hd Hne).
    unfold F64.Pow10. apply Z.leb_le in Hdec. rewrite Hdec.
    destruct (ParseFloat valStr), (ParseFloat (String "-" valStr)). split; reflexivity.
Qed.

Lemma parseCoordinate_format_witness :
  parseCoordinate "2.5" {| Integer := 2; Decimal := 4 |} = fst (ParseFloat "2.5") /\
  parseCoordinate "100000" {| Integer := 2; Decimal := 4 |}
  = F64.div (fst (ParseFloat "100000")) (F64.Pow10 4) /\
  parseCoordinate "100000" {| Integer := 2; Decimal := 4 |}
  = F64.div (F64.of_Z 100000) (F64.of_Z (10 ^ 4)) /\
  parseCoordinate "-100000" {| Integer := 2; Decimal := 4 |}
  = F64.div (SFopp (F64.of_Z 100000)) (F64.of_Z (10 ^ 4)).
Proof.
  pose proof (parseCoordinate_format "2.5" {| Integer := 2; Decimal := 4 |}) as (H1 & _).
  pose proof (parseCoordinate_format "100000" {| Integer := 2; Decimal := 4 |})
    as (_ & H2 & H3 & _).
  split; [apply H1; reflexivity|].
  split; [apply H2; reflexivity|].
  apply H3; [reflexivity | discriminate | simpl; lia].
Defined.

(** ** The interpreter never fails on text *)

Lemma returns_bind {A B : Type} (m : outcome A) (f : A -> outcome B) :
  returns m -> (forall a, returns (f a)) -> returns (a ← m; f a).
Proof. intros [a ->] Hf. apply Hf. Qed.

Lemma returns_ret {A : Type} (a : A) : returns (mret a : outcome A).
Proof. exists a. reflexivity. Qed.

Lemma returns_foldlM {A B : Type} (f : B -> A -> outcome B) (P : A -> Prop) (l : list A) :
  Forall P l -> (forall b a, P a -> returns (f b a)) ->
  forall b, returns (foldlM f l b).
Proof.
  intros Hl Hf. induction Hl as [|a l Ha _ IH]; intros b; cbn [foldlM].
  - exists b. reflexivity.
  - apply returns_bind; [apply Hf, Ha | apply IH].
Qed.

Lemma returns_index {A : Type} (l : list A) (i : nat) :
  (i < length l)%nat -> returns (index l i).
Proof.
  intros Hi. unfold index. destruct (lookup_lt_is_Some_2 l i Hi) as [a ->].
  exists a. reflexivity.
Qed.

Lemma first_some_Some {A B : Type} (f : A -> option B) (l : list A) (b : B) :
  first_some f l = Some b -> exists a, In a l /\ f a = Some b.
Proof.
  induction l as [|a l IH]; cbn [first_some]; [discriminate|].
  destruct (f a) as [b'|] eqn:E.
  - intros [= <-]. exists a. split; [left; reflexivity | exact E].
  - intros H. destruct (IH H) as (a' & Hin & Ha'). exists a'. split; [right|]; assumption.
Qed.

(** A match captures one string per group. *)
Lemma match_here_groups (pat : list item) :
  forall s caps rest, match_here pat s = Some (caps, rest) -> length caps = groups pat.
Proof.
  induction pat as [|it pat IH]; intros s caps rest; cbn [match_here].
  - intros [= <- _]. reflexivity.
  - intros H. apply first_some_Some in H as ([p r] & _ & Hm).
    destruct (match_here pat r) as [[caps' rest']|] eqn:E; [|discriminate].
    apply IH in E. unfold groups in *. cbn [List.filter].
    destruct (it_capture it); injection Hm as <- _; cbn [length]; congruence.
Qed.

Lemma find_from_groups (pat : list item) (s : string) :
  forall m rest, find_from pat s = Some (m, rest) -> length m = S (groups pat).
Proof.
  induction s as [|c s IH]; intros m rest; cbn [find_from];
    destruct (match_here pat _) as [[caps r]|] eqn:E.
  - intros [= <- _]. cbn [length]. f_equal. eapply match_here_groups, E.
  - discriminate.
  - intros [= <- _]. cbn [length]. f_equal. eapply match_here_groups, E.
  - apply IH.
Qed.

Lemma find_all_groups (pat : list item) (fuel : nat) :
  forall s, Forall (fun m => length m = S (groups pat)) (find_all fuel pat s).
Proof.
  induction fuel as [|fuel IH]; intros s; cbn [find_all]; [constructor|].
  destruct (find_from pat s) as [[m rest]|] eqn:E; [|constructor].
  constructor; [eapply find_from_groups, E | apply IH].
Qed.

Lemma parse_field_returns (gf : GerberFile) (cmd : GerberCommand) (m : list string) :
  length m = 3%nat -> returns (parse_field gf cmd m).
Proof.
  intros Hm. unfold parse_field.
  apply returns_bind; [apply returns_index; lia|]. intros valStr.
  apply returns_bind; [apply returns_index; lia|]. intros key.
  destruct (String.eqb key "X"); [apply returns_ret|].
  destruct (String.eqb key "Y"); [apply returns_ret|].
  destruct (String.eqb key "D"); apply returns_ret.
Qed.

Lemma parse_statement_returns (gf : GerberFile) (part : string) :
  returns (parse_statement gf part).
Proof.
  unfold parse_statement.
  destruct (String.eqb (TrimSpace part) EmptyString); [apply returns_ret|].
  destruct (aperture_select (TrimSpace part)); [apply returns_ret|].
  destruct (0 <? length (FindAllStringSubmatch reCoord (TrimSpace part)))%nat;
    [|apply returns_ret].
  apply returns_bind; [|intros; apply returns_ret].
  apply returns_foldlM with (P := fun m => length m = 3%nat).
  - apply (find_all_groups reCoord).
  - intros cmd m Hm. apply parse_field_returns, Hm.
Qed.

Lemma parse_parameter_returns (gf : GerberFile) (line : string) :
  returns (parse_parameter gf line).
Proof.
  unfold parse_parameter.
  destruct (HasPrefix line "%FS").
  { destruct (Nat.eqb_spec (length (FindStringSubmatch reFS line)) 5) as [Hl|];
      [|apply returns_ret].
    repeat (apply returns_bind; [apply returns_index; lia | intros ?]).
    apply returns_ret. }
  destruct (HasPrefix line "%AD").
  { destruct (Nat.leb_spec 3 (length (FindStringSubmatch reAD line))) as [Hl|];
      [|apply returns_ret].
    repeat (apply returns_bind; [apply returns_index; lia | intros ?]).
    apply returns_bind; [|intros ?; apply returns_ret].
    destruct (Nat.ltb_spec 3 (length (FindStringSubmatch reAD line)));
      [apply returns_index; lia | apply returns_ret]. }
  destruct (HasPrefix line "%AM"); [apply returns_ret|].
  destruct (HasPrefix line "%MO"); apply returns_ret.
Qed.

Lemma scan_line_returns (st : GerberFile * scan_mode) (text : string) :
  returns (scan_line st text).
Proof.
  destruct st as [gf [|name primitives]]; cbn [scan_line].
  - unfold outer_line.
    destruct (String.eqb (TrimSpace text) EmptyString); [apply returns_ret|].
    destruct (HasPrefix (TrimSpace text) "%"); [apply parse_parameter_returns|].
    apply returns_bind; [|intros; apply returns_ret].
    apply returns_foldlM with (P := fun _ => True).
    + apply Forall_forall. trivial.
    + intros gf' part _. apply parse_statement_returns.
  - unfold macro_line.
    destruct (String.eqb (TrimSpace text) "%"); [apply returns_ret|].
    destruct (Nat.ltb_spec 0 (length (Split (TrimSuffix (TrimSpace text) "*") ",")));
      [|apply returns_ret].
    apply returns_bind; [apply returns_index; lia | intros ?; apply returns_ret].
Qed.



(** ** Statements without a drawing operation *)

Lemma foldlM_app {A B : Type} (f : B -> A -> outcome B) (l1 l2 : list A) (b : B) :
  foldlM f (l1 ++ l2) b = (b' ← foldlM f l1 b; foldlM f l2 b').
Proof.
  revert b. induction l1 as [|a l1 IH]; intros b; cbn [foldlM app]; [reflexivity|].
  destruct (f b a) as [b'| |]; cbn; [apply IH | reflexivity | reflexivity].
Qed.

Lemma index_nth (m : list string) (i : nat) :
  (i < length m)%nat -> index m i = Done (nth i m EmptyString).
Proof.
  intros Hi. unfold index.
  destruct (m !! i) as [a|] eqn:E.
  - f_equal. symmetry. apply nth_lookup_Some with (d := EmptyString) in E. exact E.
  - apply lookup_ge_None in E. lia.
Qed.

Lemma option_match_id {A : Type} (o : option A) :
  match o with Some v => Some v | None => None end = o.
Proof. destruct o; reflexivity. Qed.

(** The command the fields [ms] build from [cmd0]: each axis takes the
    value of its last field, and the kind stays [cmd0]'s unless a [D] field
    carries 1, 2 or 3. *)
Lemma parse_fields_spec (gf : GerberFile) (cmd0 : GerberCommand) (ms : list (list string)) :
  Forall (fun m => length m = 3%nat) ms ->
  exists cmd,
    foldlM (parse_field gf) ms cmd0 = Done cmd /\
    cmd_X cmd = match last (map (fun m => parseCoordinate (field_value m) (FormatX (State gf)))
                              (List.filter (fun m => String.eqb (field_key m) "X") ms)) with
                | Some v => Some v
                | None => cmd_X cmd0
                end /\
    cmd_Y cmd = match last (map (fun m => parseCoordinate (field_value m) (FormatY (State gf)))
                              (List.filter (fun m => String.eqb (field_key m) "Y") ms)) with
                | Some v => Some v
                | None => cmd_Y cmd0
                end /\
    (Forall (fun d => d <> 1 /\ d <> 3)
       (map (fun m => opcode (field_value m))
          (List.filter (fun m => String.eqb (field_key m) "D") ms)) ->
     cmd_Type cmd0 = "MOVE" -> cmd_Type cmd = "MOVE").
Proof.
  induction ms as [|m ms IH] using rev_ind; intros Hlen.
  - exists cmd0. cbn. split; [reflexivity|].
    split; [destruct (cmd_X cmd0); reflexivity|].
    split; [destruct (cmd_Y cmd0); reflexivity|]. auto.
  - apply Forall_app in Hlen as [Hms Hm]. apply Forall_inv in Hm.
    destruct (IH Hms) as (cmd & Hfold & HX & HY & HT).
    rewrite foldlM_app, Hfold. cbn [foldlM mbind outcome_bind].
    unfold parse_field. rewrite !index_nth by lia. cbn [mbind outcome_bind].
    fold (field_value m). fold (field_key m).
    rewrite !List.filter_app, !map_app. cbn [List.filter].
    destruct (String.eqb (field_key m) "X") eqn:EX.
    { apply String.eqb_eq in EX. rewrite EX. cbn [String.eqb Ascii.eqb Bool.eqb].
      eexists. split; [reflexivity|]. cbn [map with_X cmd_X cmd_Y cmd_Type].
      rewrite last_snoc, !app_nil_r. repeat split; auto. }
    destruct (String.eqb (field_key m) "Y") eqn:EY.
    { apply String.eqb_eq in EY. rewrite EY. cbn [String.eqb Ascii.eqb Bool.eqb].
      eexists. split; [reflexivity|]. cbn [map with_Y cmd_X cmd_Y cmd_Type].
      rewrite last_snoc, !app_nil_r. repeat split; auto. }
    destruct (String.eqb (field_key m) "D") eqn:ED.
    { eexists. split; [reflexivity|]. cbn [map with_D cmd_X cmd_Y cmd_Type].
      rewrite !app_nil_r. split; [exact HX|]. split; [exact HY|].
      intros Hd Hty. apply Forall_app in Hd as [Hd1 Hd2]. apply Forall_inv in Hd2.
      destruct Hd2 as [Hn1 Hn3].
      destruct (Z.eqb_spec (opcode (field_value m)) 1); [contradiction|].
      destruct (Z.eqb_spec (opcode (field_value m)) 2); [reflexivity|].
      destruct (Z.eqb_spec (opcode (field_value m)) 3); [contradiction|].
      apply HT; assumption. }
    eexists. split; [reflexivity|]. cbn [map]. rewrite !app_nil_r.
    repeat split; auto.
Qed.

(** C10. A coordinate/operation statement (one that is not an aperture
    selection and has at least one field) none of whose [D] fields
    carries 1 or 3 (no [D] field at all, the code 2, or any other code)
    emits one command of kind [MOVE], with the axis values of the
    statement; replaying a [MOVE] command moves the pen to these values,
    an axis left out staying where it was, and leaves the field and the
    selected aperture as they are. *)
Theorem no_operation_is_move (gf : GerberFile) (part : string) :
  TrimSpace part <> EmptyString ->
  aperture_select (TrimSpace part) = None ->
  FindAllStringSubmatch reCoord (TrimSpace part) <> [] ->
  Forall (fun d => d <> 1 /\ d <> 3) (map opcode (fields "D" (TrimSpace part))) ->
  exists cmd,
    parse_statement gf part = Done (append_Command gf cmd) /\
    cmd_Type cmd = "MOVE" /\
    cmd_X cmd = axis_value "X" (FormatX (State gf)) (TrimSpace part) /\
    cmd_Y cmd = axis_value "Y" (FormatY (State gf)) (TrimSpace part) /\
    forall (gf' : GerberFile) (b : Bounds) (heightMM scale : float64) (st : Pen),
      render_step gf' b heightMM scale st cmd
      = Done {| pen_img := pen_img st;
                curX := match cmd_X cmd with Some v => v | None => curX st end;
                curY := match cmd_Y cmd with Some v => v | None => curY st end;
                curDCode := curDCode st |}.
Proof.
  intros Hne Hsel Hfields Hops. unfold parse_statement.
  apply String.eqb_neq in Hne. rewrite Hne, Hsel.
  destruct (FindAllStringSubmatch reCoord (TrimSpace part)) as [|m ms] eqn:Hm;
    [contradiction|].
  cbn [length Nat.ltb Nat.leb].
  destruct (parse_fields_spec gf
              {| cmd_Type := "MOVE"; cmd_X := None; cmd_Y := None; cmd_D := None |}
              (m :: ms)) as (cmd & Hfold & HX & HY & HT).
  { rewrite <- Hm. apply (find_all_groups reCoord). }
  rewrite Hfold. exists cmd. split; [reflexivity|].
  assert (Hty : cmd_Type cmd = "MOVE").
  { apply HT; [|reflexivity]. unfold fields in Hops. rewrite Hm, map_map in Hops.
    exact Hops. }
  split; [exact Hty|].
  unfold axis_value, fields. rewrite Hm, !map_map.
  split; [rewrite HX; cbn [cmd_X]; apply option_match_id|].
  split; [rewrite HY; cbn [cmd_Y]; apply option_match_id|].
  intros gf' b heightMM scale st. unfold render_step. rewrite Hty.
  reflexivity.
Qed.

Lemma no_operation_is_move_witness :
  exists cmd,
    parse_statement NewGerberFile " X25Y-1.5D04 " = Done (append_Command NewGerberFile cmd) /\
    cmd_Type cmd = "MOVE" /\
    cmd_X cmd = axis_value "X" (FormatX (State NewGerberFile)) "X25Y-1.5D04" /\
    cmd_Y cmd = axis_value "Y" (FormatY (State NewGerberFile)) "X25Y-1.5D04" /\
    forall (gf' : GerberFile) (b : Bounds) (heightMM scale : float64) (st : Pen),
      render_step gf' b heightMM scale st cmd
      = Done {| pen_img := pen_img st;
                curX := match cmd_X cmd with Some v => v | None => curX st end;
                curY := match cmd_Y cmd with Some v => v | None => curY st end;
                curDCode := curDCode st |}.
Proof.
  apply (no_operation_is_move NewGerberFile " X25Y-1.5D04 ").
  - vm_compute. discriminate.
  - reflexivity.
  - vm_compute. discriminate.
  - vm_compute. repeat constructor; discriminate.
Defined.

(** ** Binary64 arithmetic *)

Lemma digits2_size (p : positive) : digits2_pos p = Pos.size p.
Proof. induction p as [p IH|p IH|]; cbn; rewrite ?IH; reflexivity. Qed.

Lemma size_bounds (p : positive) :
  2 ^ (Zpos (Pos.size p) - 1) <= Zpos p < 2 ^ Zpos (Pos.size p).
Proof.
  pose proof (Pos.size_gt p) as Hgt. pose proof (Pos.size_le p) as Hle.
  assert (H2 : Zpos (2 ^ Pos.size p) = 2 ^ Zpos (Pos.size p)).
  { rewrite Pos2Z.inj_pow. reflexivity. }
  split.
  - assert (2 ^ Zpos (Pos.size p) <= 2 * Zpos p) by (rewrite <- H2; exact Hle).
    replace (Zpos (Pos.size p)) with (Z.succ (Zpos (Pos.size p) - 1)) in H by lia.
    rewrite Z.pow_succ_r in H by lia. lia.
  - rewrite <- H2. exact Hgt.
Qed.

(** The size of a positive number is the only [d] with [2^(d-1) <= p < 2^d]. *)
Lemma size_unique (p : positive) (d : Z) :
  2 ^ (d - 1) <= Zpos p < 2 ^ d -> Zpos (Pos.size p) = d.
Proof.
  intros [Hlo Hhi]. destruct (size_bounds p) as [Slo Shi].
  assert (0 < d).
  { destruct (Z.le_gt_cases d 0) as [Hd|Hd]; [|exact Hd].
    assert (2 ^ d <= 2 ^ 0) by (apply Z.pow_le_mono_r; lia). simpl in H. lia. }
  destruct (Z.lt_trichotomy (Zpos (Pos.size p)) d) as [Hlt|[Heq|Hgt]]; [|exact Heq|].
  - assert (2 ^ Zpos (Pos.size p) <= 2 ^ (d - 1)) by (apply Z.pow_le_mono_r; lia). lia.
  - assert (2 ^ d <= 2 ^ (Zpos (Pos.size p) - 1)) by (apply Z.pow_le_mono_r; lia). lia.
Qed.

Lemma fexp_eq (e : Z) : fexp F64.prec F64.emax e = Z.max (e - 53) (-1074).
Proof. reflexivity. Qed.

(** The mantissa and exponent of a number in canonical form. *)
Lemma bounded_range (m : positive) (e : Z) :
  bounded F64.prec F64.emax m e = true ->
  -1074 <= e <= 971 /\ Zpos m < 2 ^ 53 /\ (-1074 < e -> 2 ^ 52 <= Zpos m).
Proof.
  unfold bounded, canonical_mantissa. intros H.
  apply andb_true_iff in H as [Hc He]. apply Z.eqb_eq in Hc. apply Z.leb_le in He.
  rewrite digits2_size, fexp_eq in Hc. change (F64.emax - F64.prec) with 971 in He.
  destruct (size_bounds m) as [Slo Shi].
  assert (Hsz : Zpos (Pos.size m) <= 53) by lia.
  split; [lia|]. split.
  - assert (2 ^ Zpos (Pos.size m) <= 2 ^ 53) by (apply Z.pow_le_mono_r; lia). lia.
  - intros Hn. assert (Zpos (Pos.size m) = 53) by lia.
    rewrite H in Slo. exact Slo.
Qed.

Lemma bounded_intro (m : positive) (e : Z) :
  -1074 <= e <= 971 -> Zpos (Pos.size m) <= 53 ->
  (-1074 < e -> Zpos (Pos.size m) = 53) ->
  bounded F64.prec F64.emax m e = true.
Proof.
  intros He Hsz Hn. unfold bounded, canonical_mantissa.
  apply andb_true_iff. split; [|apply Z.leb_le; change (F64.emax - F64.prec) with 971; lia].
  apply Z.eqb_eq. rewrite digits2_size, fexp_eq.
  destruct (Z.eq_dec e (-1074)) as [->|Hne]; [lia|].
  rewrite Hn by lia. lia.
Qed.

Lemma pow2_pos (k : Z) : 0 <= k -> 0 < 2 ^ k.
Proof. intros. apply Z.pow_pos_nonneg; lia. Qed.

Lemma pow2_step (a b : Z) : 0 <= a -> a < b -> 2 * 2 ^ a <= 2 ^ b.
Proof.
  intros Ha Hab. rewrite <- Z.pow_succ_r by lia. apply Z.pow_le_mono_r; lia.
Qed.

Lemma compare_magnitudes (m1 m2 : positive) (e1 e2 : Z) :
  bounded F64.prec F64.emax m1 e1 = true ->
  bounded F64.prec F64.emax m2 e2 = true ->
  match e1 ?= e2 with
  | Lt => Lt
  | Gt => Gt
  | Eq => Pos.compare_cont Eq m1 m2
  end = (Zpos m1 * 2 ^ (e1 + 1074) ?= Zpos m2 * 2 ^ (e2 + 1074)).
Proof.
  intros H1 H2.
  apply bounded_range in H1 as (He1 & Hm1 & Hn1).
  apply bounded_range in H2 as (He2 & Hm2 & Hn2).
  pose proof (pow2_pos (e1 + 1074) ltac:(lia)) as HA.
  pose proof (pow2_pos (e2 + 1074) ltac:(lia)) as HB.
  destruct (Z.compare_spec e1 e2) as [Heq|Hlt|Hgt].
  - subst e2. change (Pos.compare_cont Eq m1 m2) with (Zpos m1 ?= Zpos m2).
    symmetry. destruct (Z.compare_spec (Zpos m1) (Zpos m2)) as [Hm|Hm|Hm].
    + apply Z.compare_eq_iff. rewrite Hm. reflexivity.
    + apply Z.compare_lt_iff. nia.
    + apply Z.compare_gt_iff. nia.
  - symmetry. apply Z.compare_lt_iff.
    pose proof (pow2_step (e1 + 1074) (e2 + 1074) ltac:(lia) ltac:(lia)) as Hstep.
    specialize (Hn2 ltac:(lia)). nia.
  - symmetry. apply Z.compare_gt_iff.
    pose proof (pow2_step (e2 + 1074) (e1 + 1074) ltac:(lia) ltac:(lia)) as Hstep.
    specialize (Hn1 ltac:(lia)). nia.
Qed.

(** On numbers in canonical form the comparison of binary64 is the
    comparison of their values. *)
Lemma compare_units (x y : float64) :
  canonical x -> canonical y -> SFcompare x y = Some (units x ?= units y).
Proof.
  intros [Hfx Hvx] [Hfy Hvy].
  destruct x as [sx|sx| |sx mx ex]; try discriminate;
    destruct y as [sy|sy| |sy my ey]; try discriminate; cbn [SFcompare units].
  - reflexivity.
  - cbn [valid_binary] in Hvy. apply bounded_range in Hvy as (He & _ & _).
    pose proof (pow2_pos (ey + 1074) ltac:(lia)).
    f_equal. symmetry. destruct sy; cbn [cond_Zopp].
    + apply Z.compare_gt_iff. nia.
    + apply Z.compare_lt_iff. nia.
  - cbn [valid_binary] in Hvx. apply bounded_range in Hvx as (He & _ & _).
    pose proof (pow2_pos (ex + 1074) ltac:(lia)).
    f_equal. symmetry. destruct sx; cbn [cond_Zopp].
    + apply Z.compare_lt_iff. nia.
    + apply Z.compare_gt_iff. nia.
  - cbn [valid_binary] in Hvx, Hvy.
    pose proof (compare_magnitudes mx my ex ey Hvx Hvy) as Hcmp.
    pose proof (bounded_range _ _ Hvx) as (Hex & _ & _).
    pose proof (bounded_range _ _ Hvy) as (Hey & _ & _).
    pose proof (pow2_pos (ex + 1074) ltac:(lia)).
    pose proof (pow2_pos (ey + 1074) ltac:(lia)).
    f_equal. destruct sx, sy; cbn [cond_Zopp].
    + rewrite Z.compare_opp.
      rewrite (Z.compare_antisym (Zpos mx * 2 ^ (ex + 1074)) (Zpos my * 2 ^ (ey + 1074))).
      rewrite <- Hcmp. destruct (ex ?= ey); reflexivity.
    + symmetry. apply Z.compare_lt_iff. nia.
    + symmetry. apply Z.compare_gt_iff. nia.
    + rewrite <- Hcmp. destruct (ex ?= ey); reflexivity.
Qed.

Lemma ltb_units (x y : float64) :
  canonical x -> canonical y -> F64.ltb x y = (units x <? units y).
Proof.
  intros Hx Hy. unfold F64.ltb, SFltb, Z.ltb. rewrite (compare_units x y Hx Hy).
  destruct (units x ?= units y); reflexivity.
Qed.

Lemma eqb_units (x y : float64) :
  canonical x -> canonical y -> F64.eqb x y = (units x =? units y).
Proof.
  intros Hx Hy. unfold F64.eqb, SFeqb. rewrite (compare_units x y Hx Hy).
  destruct (Z.eqb_spec (units x) (units y)) as [->|Hne]; [rewrite Z.compare_refl; reflexivity|].
  destruct (Z.compare_spec (units x) (units y)); [contradiction | reflexivity | reflexivity].
Qed.

(** *** Shifting and rounding *)

Lemma iter_pos_nat {A : Type} (f : A -> A) (p : positive) :
  forall x : A, SpecFloat.iter_pos f p x = Nat.iter (Pos.to_nat p) f x.
Proof.
  induction p as [p IH|p IH|]; intros x; cbn [SpecFloat.iter_pos].
  - rewrite !IH, Pos2Nat.inj_xI, <- Nat.iter_add.
    replace (S (2 * Pos.to_nat p)) with (S (Pos.to_nat p + Pos.to_nat p)) by lia.
    rewrite Nat.iter_succ_r. reflexivity.
  - rewrite !IH, Pos2Nat.inj_xO, <- Nat.iter_add.
    replace (2 * Pos.to_nat p)%nat with (Pos.to_nat p + Pos.to_nat p)%nat by lia.
    reflexivity.
  - reflexivity.
Qed.

Lemma shr_1_spec (m : Z) (r s : bool) :
  0 <= m ->
  shr_1 {| shr_m := m; shr_r := r; shr_s := s |}
  = {| shr_m := m / 2; shr_r := Z.odd m; shr_s := r || s |}.
Proof.
  intros Hm. destruct m as [|p|p]; [reflexivity| |lia].
  destruct p as [p|p|]; cbn [shr_1 Z.odd].
  - f_equal. apply (Z.div_unique_pos _ _ _ 1); lia.
  - f_equal. apply (Z.div_unique_pos _ _ _ 0); lia.
  - reflexivity.
Qed.

(** After [n] shifts the mantissa is the quotient by [2^n], and the
    two guard bits tell whether anything was shifted out. *)
Lemma shr_iter (n : nat) (m : Z) :
  0 <= m ->
  let st := Nat.iter n shr_1 {| shr_m := m; shr_r := false; shr_s := false |} in
  shr_m st = m / 2 ^ Z.of_nat n /\
  (shr_r st || shr_s st) = negb (m mod 2 ^ Z.of_nat n =? 0).
Proof.
  intros Hm. induction n as [|n IH]; cbv zeta in *.
  - cbn. rewrite Z.div_1_r, Z.mod_1_r. split; reflexivity.
  - rewrite Nat.iter_succ.
    destruct (Nat.iter n shr_1 _) as [mq r s]. cbn [shr_m shr_r shr_s] in IH.
    destruct IH as [Hq Hst].
    assert (Hp : 0 < 2 ^ Z.of_nat n) by (apply pow2_pos; lia).
    assert (Hmq : 0 <= mq) by (rewrite Hq; apply Z.div_pos; lia).
    rewrite (shr_1_spec mq r s Hmq). cbn [shr_m shr_r shr_s].
    rewrite Nat2Z.inj_succ, Z.pow_succ_r by lia.
    split.
    + rewrite Hq, Z.div_div by lia. f_equal. lia.
    + rewrite Hst, Hq.
      rewrite (Z.mul_comm 2), Z.rem_mul_r by lia.
      pose proof (Z.mod_pos_bound m (2 ^ Z.of_nat n) Hp) as Hb1.
      pose proof (Z.mod_pos_bound (m / 2 ^ Z.of_nat n) 2 ltac:(lia)) as Hb2.
      rewrite Zodd_mod.
      destruct (Z.eqb_spec (m mod 2 ^ Z.of_nat n) 0) as [E1|E1];
        destruct (Z.eqb_spec ((m / 2 ^ Z.of_nat n) mod 2) 1) as [E2|E2];
        cbn [negb orb];
        match goal with |- _ = negb (?a =? 0) =>
          destruct (Z.eqb_spec a 0) as [E3|E3] end; cbn [negb]; try reflexivity; nia.
Qed.

Lemma round_nearest_even_range (st : shr_record) :
  0 <= shr_m st ->
  let q' := round_nearest_even (shr_m st) (loc_of_shr_record st) in
  q' = shr_m st \/ (q' = shr_m st + 1 /\ (shr_r st || shr_s st) = true).
Proof.
  intros Hm. destruct st as [q [] []]; cbn; auto.
  destruct (Z.even q); auto.
Qed.

Lemma iter_xO (m k : positive) : Zpos (Pos.iter xO m k) = Zpos m * 2 ^ Zpos k.
Proof.
  induction k as [|k IH] using Pos.peano_ind.
  - cbn [Pos.iter]. rewrite Z.pow_1_r. lia.
  - rewrite Pos.iter_succ, Pos2Z.inj_succ, Z.pow_succ_r by lia.
    rewrite Pos2Z.inj_xO, IH. lia.
Qed.

Lemma shl_align_le (m : positive) (e e' : Z) :
  e' <= e ->
  exists p, shl_align m e e' = (p, e') /\ Zpos p = Zpos m * 2 ^ (e - e').
Proof.
  intros He. unfold shl_align.
  destruct (e' - e) as [|d|d] eqn:Hd.
  - exists m. assert (e' = e) by lia. subst e'. rewrite Z.sub_diag, Z.pow_0_r.
    split; [reflexivity | lia].
  - lia.
  - exists (Pos.iter xO m d). split; [reflexivity|].
    rewrite iter_xO. f_equal. f_equal. lia.
Qed.

Lemma shl_align_gt (m : positive) (e e' : Z) : e < e' -> shl_align m e e' = (m, e).
Proof.
  intros He. unfold shl_align. destruct (e' - e) as [|d|d] eqn:Hd; try reflexivity. lia.
Qed.

(** The size of a mantissa shifted left. *)
Lemma size_shifted (m p : positive) (k : Z) :
  0 <= k -> Zpos p = Zpos m * 2 ^ k -> Zpos (Pos.size p) = Zpos (Pos.size m) + k.
Proof.
  intros Hk Hp. apply size_unique. destruct (size_bounds m) as [Slo Shi].
  pose proof (pow2_pos k Hk) as Hpk. rewrite Hp.
  replace (Zpos (Pos.size m) + k - 1) with (Zpos (Pos.size m) - 1 + k) by lia.
  rewrite !Z.pow_add_r by lia. split; nia.
Qed.

(** A mantissa that already has its canonical exponent is kept as it is. *)
Lemma round_aux_canonical (s : bool) (p : positive) (e : Z) :
  fexp F64.prec F64.emax (Zpos (Pos.size p) + e) = e -> e <= 971 ->
  binary_round_aux F64.prec F64.emax s (Zpos p) e loc_Exact = S754_finite s p e.
Proof.
  intros Hc He. unfold binary_round_aux.
  assert (Hshr : shr_fexp F64.prec F64.emax (Zpos p) e loc_Exact
                 = ({| shr_m := Zpos p; shr_r := false; shr_s := false |}, e)).
  { unfold shr_fexp. cbn [Zdigits2 shr_record_of_loc]. rewrite digits2_size, Hc, Z.sub_diag.
    reflexivity. }
  rewrite Hshr. cbn [shr_m loc_of_shr_record round_nearest_even]. rewrite Hshr.
  cbn [shr_m]. change (F64.emax - F64.prec) with 971.
  apply Z.leb_le in He. rewrite He. reflexivity.
Qed.

Lemma canonical_finite (s : bool) (p : positive) (e : Z) :
  fexp F64.prec F64.emax (Zpos (Pos.size p) + e) = e -> e <= 971 ->
  canonical (S754_finite s p e).
Proof.
  intros Hc He. split; [reflexivity|]. cbn [valid_binary]. unfold bounded, canonical_mantissa.
  rewrite digits2_size, Hc, Z.eqb_refl. change (F64.emax - F64.prec) with 971.
  apply Z.leb_le in He. rewrite He. reflexivity.
Qed.

Lemma shr_fexp_canonical (p : positive) (e : Z) :
  fexp F64.prec F64.emax (Zpos (Pos.size p) + e) = e ->
  shr_fexp F64.prec F64.emax (Zpos p) e loc_Exact
  = ({| shr_m := Zpos p; shr_r := false; shr_s := false |}, e).
Proof.
  intros Hc. unfold shr_fexp. cbn [Zdigits2 shr_record_of_loc].
  rewrite digits2_size, Hc, Z.sub_diag. reflexivity.
Qed.

Lemma shr_fexp_shift (p : positive) (e : Z) (n : positive) :
  fexp F64.prec F64.emax (Zpos (Pos.size p) + e) - e = Zpos n ->
  shr_fexp F64.prec F64.emax (Zpos p) e loc_Exact
  = (Nat.iter (Pos.to_nat n) shr_1 {| shr_m := Zpos p; shr_r := false; shr_s := false |},
     e + Zpos n).
Proof.
  intros Hc. unfold shr_fexp. cbn [Zdigits2 shr_record_of_loc].
  rewrite digits2_size, Hc. cbn [shr]. rewrite iter_pos_nat. reflexivity.
Qed.

Lemma abs_cond_opp (s : bool) (a b : Z) :
  Z.abs (cond_Zopp s a - cond_Zopp s b) = Z.abs (a - b).
Proof.
  destruct s; cbn [cond_Zopp]; [|reflexivity].
  replace (- a - - b) with (- (a - b)) by lia. apply Z.abs_opp.
Qed.

(** Rounding a positive mantissa: the result is in canonical form and
    less than one unit in the last place away. *)
Lemma binary_round_near (s : bool) (m : positive) (e : Z) :
  -1074 <= e -> Zpos (Pos.size m) + e <= 1023 ->
  canonical (binary_round F64.prec F64.emax s m e) /\
  Z.abs (units (binary_round F64.prec F64.emax s m e)
         - cond_Zopp s (Zpos m * 2 ^ (e + 1074)))
  < 2 ^ (fexp F64.prec F64.emax (Zpos (Pos.size m) + e) + 1074).
Proof.
  intros He Hsz. unfold binary_round. rewrite digits2_size.
  set (e' := fexp F64.prec F64.emax (Zpos (Pos.size m) + e)).
  assert (He' : e' = Z.max (Zpos (Pos.size m) + e - 53) (-1074)) by apply fexp_eq.
  assert (Hg : 0 < 2 ^ (e' + 1074)) by (apply pow2_pos; lia).
  destruct (Z.le_gt_cases e' e) as [Hle|Hgt].
  - destruct (shl_align_le m e e' Hle) as (p & -> & Hp).
    assert (Hsp : Zpos (Pos.size p) = Zpos (Pos.size m) + (e - e'))
      by (apply size_shifted; [lia | exact Hp]).
    assert (Hc : fexp F64.prec F64.emax (Zpos (Pos.size p) + e') = e').
    { rewrite Hsp. replace (Zpos (Pos.size m) + (e - e') + e') with (Zpos (Pos.size m) + e) by lia.
      reflexivity. }
    rewrite (round_aux_canonical s p e' Hc) by lia.
    split; [apply canonical_finite; [exact Hc | lia]|].
    cbn [units]. rewrite Hp, <- Z.mul_assoc, <- Z.pow_add_r by lia.
    replace (e - e' + (e' + 1074)) with (e + 1074) by lia.
    rewrite Z.sub_diag. cbn [Z.abs]. exact Hg.
  - rewrite (shl_align_gt m e e' Hgt).
    assert (Hn : exists n, e' - e = Zpos n).
    { destruct (e' - e) as [|n|n] eqn:E; [lia | exists n; reflexivity | lia]. }
    destruct Hn as [n Hn].
    assert (Hnorm : e' = Zpos (Pos.size m) + e - 53) by lia.
    unfold binary_round_aux.
    rewrite (shr_fexp_shift m e n Hn).
    pose proof (shr_iter (Pos.to_nat n) (Zpos m) ltac:(lia)) as Hit. cbv zeta in Hit.
    destruct (Nat.iter (Pos.to_nat n) shr_1 _) as [q r t] eqn:Est.
    cbn [shr_m shr_r shr_s] in Hit. rewrite positive_nat_Z in Hit.
    destruct Hit as [Hq Hsticky].
    destruct (size_bounds m) as [Slo Shi].
    assert (Hpn : 0 < 2 ^ Zpos n) by (apply pow2_pos; lia).
    assert (Hsize : Zpos (Pos.size m) = 53 + Zpos n) by lia.
    assert (Hqlo : 2 ^ 52 <= q).
    { rewrite Hq. apply Z.div_le_lower_bound; [lia|].
      rewrite <- Z.pow_add_r by lia. replace (Zpos n + 52) with (Zpos (Pos.size m) - 1) by lia.
      exact Slo. }
    assert (Hqhi : q < 2 ^ 53).
    { rewrite Hq. apply Z.div_lt_upper_bound; [lia|].
      rewrite <- Z.pow_add_r by lia. replace (Zpos n + 53) with (Zpos (Pos.size m)) by lia.
      exact Shi. }
    pose proof (round_nearest_even_range {| shr_m := q; shr_r := r; shr_s := t |}
                  ltac:(cbn; lia)) as Hround.
    cbv zeta in Hround. cbn [shr_m shr_r shr_s] in Hround |- *.
    set (q' := round_nearest_even q (loc_of_shr_record {| shr_m := q; shr_r := r; shr_s := t |}))
      in *.
    assert (Hdiv : Zpos m = 2 ^ Zpos n * q + Zpos m mod 2 ^ Zpos n)
      by (rewrite Hq; apply Z.div_mod; lia).
    pose proof (Z.mod_pos_bound (Zpos m) (2 ^ Zpos n) Hpn) as Hrem.
    assert (Hgrid : 2 ^ (e' + 1074) = 2 ^ Zpos n * 2 ^ (e + 1074)).
    { rewrite <- Z.pow_add_r by lia. f_equal. lia. }
    assert (HG : 0 < 2 ^ (e + 1074)) by (apply pow2_pos; lia).
    assert (Herr : Z.abs (q' * 2 ^ (e' + 1074) - Zpos m * 2 ^ (e + 1074)) < 2 ^ (e' + 1074)).
    { rewrite Hgrid. destruct Hround as [->|[-> Hst]].
      - apply Z.abs_lt. nia.
      - rewrite Hsticky in Hst. apply negb_true_iff, Z.eqb_neq in Hst.
        apply Z.abs_lt. nia. }
    assert (Hq' : 2 ^ 52 <= q' <= 2 ^ 53) by (destruct Hround as [->|[-> _]]; lia).
    destruct q' as [|p'|p'] eqn:Eq'; [lia| |lia].
    replace (e + Zpos n) with e' by lia.
    destruct (Z.eq_dec (Zpos p') (2 ^ 53)) as [Htop|Hntop].
    + assert (Hsp : Zpos (Pos.size p') = 54).
      { apply size_unique. rewrite Htop. split; [lia|]. apply Z.pow_lt_mono_r; lia. }
      assert (Hshift : fexp F64.prec F64.emax (Zpos (Pos.size p') + e') - e' = Zpos 1).
      { rewrite Hsp, fexp_eq. lia. }
      rewrite (shr_fexp_shift p' e' 1 Hshift).
      change (Pos.to_nat 1) with 1%nat. rewrite Nat.iter_succ. change (Nat.iter 0 shr_1 ?x) with x.
      rewrite (shr_1_spec (Zpos p') false false) by lia.
      cbn [shr_m]. rewrite Htop.
      change (2 ^ 53 / 2) with (Zpos (2 ^ 52)).
      change (F64.emax - F64.prec) with 971.
      assert (Hfin : (e' + 1 <=? 971) = true) by (apply Z.leb_le; lia).
      rewrite Hfin.
      split.
      * apply canonical_finite; [|lia]. rewrite fexp_eq.
        change (Zpos (Pos.size (2 ^ 52))) with 53. lia.
      * cbn [units].
        replace (Zpos (2 ^ 52) * 2 ^ (e' + 1 + 1074)) with (Zpos p' * 2 ^ (e' + 1074)).
        -- rewrite abs_cond_opp. exact Herr.
        -- rewrite Htop. replace (e' + 1 + 1074) with (Z.succ (e' + 1074)) by lia.
           rewrite Z.pow_succ_r by lia. change (Zpos (2 ^ 52)) with (2 ^ 52).
           change (2 ^ 53) with (2 * 2 ^ 52). lia.
    + assert (Hsp : Zpos (Pos.size p') = 53) by (apply size_unique; lia).
      assert (Hc : fexp F64.prec F64.emax (Zpos (Pos.size p') + e') = e').
      { rewrite Hsp, fexp_eq. lia. }
      rewrite (shr_fexp_canonical p' e' Hc). cbn [shr_m].
      change (F64.emax - F64.prec) with 971.
      assert (Hfin : (e' <=? 971) = true) by (apply Z.leb_le; lia).
      rewrite Hfin.
      split; [apply canonical_finite; [exact Hc | lia]|].
      cbn [units].
      rewrite abs_cond_opp. exact Herr.
Qed.

Lemma canonical_zero (s : bool) : canonical (S754_zero s).
Proof. split; reflexivity. Qed.

(** Normalising an integer mantissa [M] at exponent [e], whose magnitude
    is below [2^k]: the result is canonical and less than one unit in the
    last place of that range away. *)
Lemma normalize_near (M e k : Z) :
  -1074 <= e -> k <= 1023 -> Z.abs M < 2 ^ (k - e) ->
  canonical (binary_normalize F64.prec F64.emax M e false) /\
  Z.abs (units (binary_normalize F64.prec F64.emax M e false) - M * 2 ^ (e + 1074))
  < 2 ^ (Z.max (k - 53) (-1074) + 1074).
Proof.
  intros He Hk HM.
  assert (Hbound : forall p : positive, Zpos p < 2 ^ (k - e) ->
            Zpos (Pos.size p) + e <= k).
  { intros p Hp. destruct (size_bounds p) as [Slo _].
    destruct (Z.le_gt_cases (Zpos (Pos.size p) + e) k) as [|Hgt]; [assumption|].
    assert (2 ^ (k - e) <= 2 ^ (Zpos (Pos.size p) - 1)) by (apply Z.pow_le_mono_r; lia).
    lia. }
  assert (Hmono : forall p : positive, Zpos p < 2 ^ (k - e) ->
            2 ^ (fexp F64.prec F64.emax (Zpos (Pos.size p) + e) + 1074)
            <= 2 ^ (Z.max (k - 53) (-1074) + 1074)).
  { intros p Hp. specialize (Hbound p Hp). rewrite fexp_eq.
    apply Z.pow_le_mono_r; lia. }
  destruct M as [|p|p]; cbn [binary_normalize].
  - split; [apply canonical_zero|]. cbn [units]. rewrite Z.mul_0_l. cbn [Z.sub Z.abs Z.opp].
    apply pow2_pos. lia.
  - cbn [Z.abs] in HM.
    destruct (binary_round_near false p e He ltac:(specialize (Hbound p HM); lia))
      as [Hc Herr].
    split; [exact Hc|]. cbn [cond_Zopp] in Herr. specialize (Hmono p HM). lia.
  - cbn [Z.abs] in HM.
    destruct (binary_round_near true p e He ltac:(specialize (Hbound p HM); lia))
      as [Hc Herr].
    split; [exact Hc|]. cbn [cond_Zopp] in Herr. specialize (Hmono p HM).
    replace (Zneg p * 2 ^ (e + 1074)) with (- (Zpos p * 2 ^ (e + 1074))) by lia. lia.
Qed.

Lemma padding_value : padding = S754_finite false (2 ^ 52) (-51).
Proof. reflexivity. Qed.

Lemma two_units : 2 ^ 52 * 2 ^ (-51 + 1074) = 2 * unit_1.
Proof. reflexivity. Qed.

Lemma billion_below : (10 ^ 9 + 2) * unit_1 < 2 ^ 30 * unit_1.
Proof. reflexivity. Qed.

Lemma last_place_small : 2 ^ (Z.max (30 - 53) (-1074) + 1074) < unit_1.
Proof. reflexivity. Qed.

Lemma aligned_units (s : bool) (m : positive) (e ez : Z) :
  -1074 <= ez -> ez <= e ->
  cond_Zopp s (Zpos (fst (shl_align m e ez))) * 2 ^ (ez + 1074)
  = units (S754_finite s m e).
Proof.
  intros Hz He. destruct (shl_align_le m e ez He) as (p & -> & Hp). cbn [fst units].
  rewrite Hp. destruct s; cbn [cond_Zopp]; rewrite ?Z.mul_opp_l;
    rewrite <- Z.mul_assoc, <- Z.pow_add_r by lia;
    replace (e - ez + (ez + 1074)) with (e + 1074) by lia; reflexivity.
Qed.

Lemma units_bound_mantissa (M ez : Z) (k : Z) :
  -1074 <= ez -> ez <= k -> 0 <= k -> Z.abs (M * 2 ^ (ez + 1074)) < 2 ^ k * unit_1 ->
  Z.abs M < 2 ^ (k - ez).
Proof.
  intros Hz Hk Hk0 HM. unfold unit_1 in HM.
  pose proof (pow2_pos (ez + 1074) ltac:(lia)) as Hp.
  rewrite Z.abs_mul, (Z.abs_eq (2 ^ (ez + 1074))) in HM by lia.
  assert (Hsplit : 2 ^ k * 2 ^ 1074 = 2 ^ (k - ez) * 2 ^ (ez + 1074)).
  { rewrite <- !Z.pow_add_r by lia. f_equal. lia. }
  rewrite Hsplit in HM. nia.
Qed.

(** Moving a bound outward by the padding, for a number of magnitude at
    most 1e9: the result is canonical and between one and three units
    away. *)
Lemma sub_padding (x : float64) :
  canonical x -> Z.abs (units x) <= 10 ^ 9 * unit_1 ->
  canonical (F64.sub x padding) /\
  (units x - 3 * unit_1 < units (F64.sub x padding) < units x - unit_1).
Proof.
  intros [Hf Hv] Hx.
  assert (HU : 0 < unit_1) by reflexivity.
  pose proof two_units as H2. pose proof billion_below as Hb.
  pose proof last_place_small as Hl.
  destruct x as [s|s| |s m e]; try discriminate.
  - split; [split; reflexivity|]. cbn [units cond_Zopp] in *.
    change (F64.sub (S754_zero s) padding) with (S754_finite true (2 ^ 52) (-51)).
    cbn [units cond_Zopp]. change (Zpos (2 ^ 52)) with (2 ^ 52). lia.
  - cbn [valid_binary] in Hv. pose proof (bounded_range _ _ Hv) as (He & _ & _).
    rewrite padding_value. unfold F64.sub. cbn [SFsub].
    set (ez := Z.min e (-51)).
    set (M := cond_Zopp s (Zpos (fst (shl_align m e ez)))
              - cond_Zopp false (Zpos (fst (shl_align (2 ^ 52) (-51) ez)))).
    assert (HM : M * 2 ^ (ez + 1074) = units (S754_finite s m e) - 2 * unit_1).
    { unfold M. rewrite Z.mul_sub_distr_r.
      rewrite (aligned_units s m e ez) by lia.
      rewrite (aligned_units false (2 ^ 52) (-51) ez) by lia.
      cbn [units cond_Zopp]. change (Zpos (2 ^ 52)) with (2 ^ 52). lia. }
    destruct (normalize_near M ez 30 ltac:(lia) ltac:(lia)) as [Hc Herr].
    { apply units_bound_mantissa; [lia | lia | lia |]. rewrite HM. lia. }
    split; [exact Hc|]. rewrite HM in Herr. lia.
Qed.

Lemma add_padding (x : float64) :
  canonical x -> Z.abs (units x) <= 10 ^ 9 * unit_1 ->
  canonical (F64.add x padding) /\
  (units x + unit_1 < units (F64.add x padding) < units x + 3 * unit_1).
Proof.
  intros [Hf Hv] Hx.
  assert (HU : 0 < unit_1) by reflexivity.
  pose proof two_units as H2. pose proof billion_below as Hb.
  pose proof last_place_small as Hl.
  destruct x as [s|s| |s m e]; try discriminate.
  - split; [split; reflexivity|]. cbn [units cond_Zopp] in *.
    change (F64.add (S754_zero s) padding) with (S754_finite false (2 ^ 52) (-51)).
    cbn [units cond_Zopp]. change (Zpos (2 ^ 52)) with (2 ^ 52). lia.
  - cbn [valid_binary] in Hv. pose proof (bounded_range _ _ Hv) as (He & _ & _).
    rewrite padding_value. unfold F64.add. cbn [SFadd].
    set (ez := Z.min e (-51)).
    set (M := cond_Zopp s (Zpos (fst (shl_align m e ez)))
              + cond_Zopp false (Zpos (fst (shl_align (2 ^ 52) (-51) ez)))).
    assert (HM : M * 2 ^ (ez + 1074) = units (S754_finite s m e) + 2 * unit_1).
    { unfold M. rewrite Z.mul_add_distr_r.
      rewrite (aligned_units s m e ez) by lia.
      rewrite (aligned_units false (2 ^ 52) (-51) ez) by lia.
      cbn [units cond_Zopp]. change (Zpos (2 ^ 52)) with (2 ^ 52). lia. }
    destruct (normalize_near M ez 30 ltac:(lia) ltac:(lia)) as [Hc Herr].
    { apply units_bound_mantissa; [lia | lia | lia |]. rewrite HM. lia. }
    split; [exact Hc|]. rewrite HM in Herr. lia.
Qed.

(** ** Bounds *)

Lemma bounds_step_contributors (cmd : GerberCommand) (pX pY : float64) (b : Bounds) :
  bounds_step (pX, pY, b) cmd
  = (move_pen (pX, pY) cmd,
     cover b (if String.eqb (cmd_Type cmd) "FLASH" then [move_pen (pX, pY) cmd]
              else if String.eqb (cmd_Type cmd) "DRAW"
                   then [(pX, pY); move_pen (pX, pY) cmd]
                   else [])).
Proof.
  unfold bounds_step. destruct (move_pen (pX, pY) cmd) as [cX cY].
  destruct (String.eqb (cmd_Type cmd) "FLASH"); [reflexivity|].
  destruct (String.eqb (cmd_Type cmd) "DRAW"); reflexivity.
Qed.

Lemma scan_contributors (cmds : list GerberCommand) :
  forall pX pY b,
  snd (fold_left bounds_step cmds (pX, pY, b)) = cover b (contributors (pX, pY) cmds).
Proof.
  induction cmds as [|cmd cmds IH]; intros pX pY b; [reflexivity|].
  cbn [fold_left contributors]. rewrite bounds_step_contributors.
  destruct (move_pen (pX, pY) cmd) as [cX cY] eqn:Hpen.
  rewrite IH. unfold cover. rewrite fold_left_app. reflexivity.
Qed.

(** *** The extremes of a scan *)

Lemma within_zero : within_extremes F64.zero.
Proof. split; [apply canonical_zero|]. cbn. unfold unit_1. lia. Qed.

Lemma within_initial :
  within_extremes (MinX initial_extremes) /\ within_extremes (MinY initial_extremes) /\
  within_extremes (MaxX initial_extremes) /\ within_extremes (MaxY initial_extremes).
Proof.
  repeat (match goal with |- _ /\ _ => split end);
    (split; [split; reflexivity | vm_compute; discriminate]).
Qed.

Lemma updateBounds_within (b : Bounds) (x y : float64) :
  within_extremes (MinX b) -> within_extremes (MinY b) ->
  within_extremes (MaxX b) -> within_extremes (MaxY b) ->
  within_extremes x -> within_extremes y ->
  let b' := updateBounds b x y in
  (within_extremes (MinX b') /\ within_extremes (MinY b') /\
   within_extremes (MaxX b') /\ within_extremes (MaxY b')) /\
  units (MinX b') <= units x <= units (MaxX b') /\
  units (MinY b') <= units y <= units (MaxY b') /\
  units (MinX b') <= units (MinX b) /\ units (MaxX b) <= units (MaxX b') /\
  units (MinY b') <= units (MinY b) /\ units (MaxY b) <= units (MaxY b').
Proof.
  intros HminX HminY HmaxX HmaxY Hx Hy. cbv zeta. unfold updateBounds, F64.gtb.
  fold (F64.ltb (MaxX b) x). fold (F64.ltb (MaxY b) y). cbn [MinX MinY MaxX MaxY].
  rewrite (ltb_units x (MinX b)), (ltb_units y (MinY b)),
          (ltb_units (MaxX b) x), (ltb_units (MaxY b) y)
    by (first [apply Hx | apply Hy | apply HminX | apply HminY | apply HmaxX | apply HmaxY]).
  destruct (Z.ltb_spec (units x) (units (MinX b)));
    destruct (Z.ltb_spec (units y) (units (MinY b)));
    destruct (Z.ltb_spec (units (MaxX b)) (units x));
    destruct (Z.ltb_spec (units (MaxY b)) (units y));
    (split; [split; [assumption | split; [assumption | split; assumption]] | lia]).
Qed.

Lemma cover_within (pts : list (float64 * float64)) :
  forall b,
  within_extremes (MinX b) -> within_extremes (MinY b) ->
  within_extremes (MaxX b) -> within_extremes (MaxY b) ->
  Forall (fun p => within_extremes (fst p) /\ within_extremes (snd p)) pts ->
  (within_extremes (MinX (cover b pts)) /\ within_extremes (MinY (cover b pts)) /\
   within_extremes (MaxX (cover b pts)) /\ within_extremes (MaxY (cover b pts))) /\
  (pts <> [] \/ (units (MinX b) <= units (MaxX b) /\ units (MinY b) <= units (MaxY b)) ->
   units (MinX (cover b pts)) <= units (MaxX (cover b pts)) /\
   units (MinY (cover b pts)) <= units (MaxY (cover b pts))).
Proof.
  induction pts as [|p pts IH]; intros b HminX HminY HmaxX HmaxY Hpts.
  - cbn [cover fold_left]. split; [repeat (split; [assumption|]); assumption|].
    intros [Hne|Ho]; [congruence | exact Ho].
  - apply Forall_cons in Hpts as [[Hx Hy] Hpts].
    pose proof (updateBounds_within b (fst p) (snd p) HminX HminY HmaxX HmaxY Hx Hy) as Hup.
    cbv zeta in Hup. destruct Hup as ((K1 & K2 & K3 & K4) & Ox & Oy & _).
    change (cover b (p :: pts)) with (cover (updateBounds b (fst p) (snd p)) pts).
    destruct (IH _ K1 K2 K3 K4 Hpts) as [HK HO].
    split; [exact HK|]. intros _. apply HO. right. lia.
Qed.

Lemma move_pen_within (pen : float64 * float64) (cmd : GerberCommand) :
  within_extremes (fst pen) -> within_extremes (snd pen) ->
  (forall v, cmd_X cmd = Some v -> within_extremes v) ->
  (forall v, cmd_Y cmd = Some v -> within_extremes v) ->
  within_extremes (fst (move_pen pen cmd)) /\ within_extremes (snd (move_pen pen cmd)).
Proof.
  intros Hx Hy HX HY. unfold move_pen. cbn [fst snd].
  destruct (cmd_X cmd) as [vx|]; destruct (cmd_Y cmd) as [vy|]; split; auto.
Qed.

Lemma contributors_within (cmds : list GerberCommand) :
  coordinates_within cmds ->
  forall pen, within_extremes (fst pen) -> within_extremes (snd pen) ->
  Forall (fun p => within_extremes (fst p) /\ within_extremes (snd p))
         (contributors pen cmds).
Proof.
  intros Hcmds. induction Hcmds as [|cmd cmds [HX HY] _ IH]; intros pen Hx Hy;
    cbn [contributors]; [constructor|].
  destruct (move_pen_within pen cmd Hx Hy HX HY) as [Hx' Hy'].
  apply Forall_app. split; [|apply IH; assumption].
  destruct (String.eqb (cmd_Type cmd) "FLASH");
    [|destruct (String.eqb (cmd_Type cmd) "DRAW")];
    repeat (apply Forall_cons; split; [split; assumption|]); exact (proj2 (Forall_nil _) I).
Qed.

Lemma padded_default :
  Bounds_finite (pad default_extent) /\ Bounds_nonempty (pad default_extent).
Proof. split; repeat split; reflexivity. Qed.

(** Padded bounds of a scan that saw a point between the extremes. *)
Lemma padded_within (b : Bounds) :
  within_extremes (MinX b) -> within_extremes (MinY b) ->
  within_extremes (MaxX b) -> within_extremes (MaxY b) ->
  units (MinX b) <= units (MaxX b) -> units (MinY b) <= units (MaxY b) ->
  Bounds_finite (pad b) /\ Bounds_nonempty (pad b).
Proof.
  intros [C1 B1] [C2 B2] [C3 B3] [C4 B4] Ox Oy.
  destruct (sub_padding _ C1 B1) as [P1 V1]. destruct (sub_padding _ C2 B2) as [P2 V2].
  destruct (add_padding _ C3 B3) as [P3 V3]. destruct (add_padding _ C4 B4) as [P4 V4].
  assert (HU : 0 < unit_1) by reflexivity.
  unfold Bounds_finite, Bounds_nonempty, pad. cbn [MinX MinY MaxX MaxY].
  split.
  - repeat split; first [apply P1 | apply P2 | apply P3 | apply P4].
  - rewrite (ltb_units _ _ P1 P3), (ltb_units _ _ P2 P4).
    split; apply Z.ltb_lt; lia.
Qed.

(** Bounds of a drawing whose coordinates lie between the initial extremes. *)
Lemma CalculateBounds_within (gf : GerberFile) :
  coordinates_within (Commands gf) ->
  Bounds_finite (CalculateBounds gf) /\ Bounds_nonempty (CalculateBounds gf).
Proof.
  intros Hcmds. unfold CalculateBounds. cbv zeta.
  destruct (F64.eqb (MinX (scan_bounds (Commands gf))) (F64.of_Z (10 ^ 9))) eqn:E;
    [apply padded_default|].
  unfold scan_bounds in *. rewrite scan_contributors in *.
  pose proof (contributors_within _ Hcmds (F64.zero, F64.zero) within_zero within_zero)
    as Hpts.
  destruct within_initial as (I1 & I2 & I3 & I4).
  destruct (cover_within _ _ I1 I2 I3 I4 Hpts) as ((K1 & K2 & K3 & K4) & HO).
  destruct HO as [Ox Oy].
  { left. intros Hnil. rewrite Hnil in E. vm_compute in E. discriminate. }
  apply padded_within; assumption.
Qed.




(** ** The raster *)

Lemma Empty_not_In (r : Rectangle) (x y : Z) : Empty r = true -> In_rect x y r = false.
Proof.
  unfold Empty, In_rect. intros H. apply orb_true_iff in H.
  apply not_true_iff_false. intros Hin.
  apply andb_true_iff in Hin as [Hin Hy2]. apply andb_true_iff in Hin as [Hin Hy1].
  apply andb_true_iff in Hin as [Hx1 Hx2].
  apply Z.leb_le in Hx1, Hy1. apply Z.ltb_lt in Hx2, Hy2.
  destruct H as [H|H]; apply Z.leb_le in H; lia.
Qed.

(** What [draw.Draw] with a uniform source leaves behind. *)
Lemma Draw_uniform_pixels (img : RGBA) (r : Rectangle) (c : Color) :
  Rect (Draw_uniform img r c) = Rect img /\
  forall px py,
    Pix (Draw_uniform img r c) px py
    = if In_rect px py (clip img r) then c else Pix img px py.
Proof.
  unfold Draw_uniform. destruct (Empty (clip img r)) eqn:E.
  - split; [reflexivity|]. intros px py. rewrite (Empty_not_In _ _ _ E). reflexivity.
  - split; reflexivity.
Qed.

Lemma for_range_invariant {S : Type} (P : S -> Prop) (lo hi : Z) (body : Z -> S -> S) (s : S) :
  P s -> (forall i s, P s -> P (body i s)) -> P (for_range lo hi body s).
Proof.
  intros Hs Hbody. unfold for_range.
  generalize (seqZ lo (hi - lo + 1)). intros l. revert s Hs.
  induction l as [|i l IH]; intros s Hs; cbn [fold_left]; [exact Hs|].
  apply IH, Hbody, Hs.
Qed.

Lemma Rect_Set_pixel (img : RGBA) (x y : Z) (c : Color) :
  Rect (Set_pixel img x y c) = Rect img.
Proof. unfold Set_pixel. destruct (In_rect x y (Rect img)); reflexivity. Qed.

Lemma Rect_drawCircle (img : RGBA) (x0 y0 r : Z) : Rect (drawCircle img x0 y0 r) = Rect img.
Proof.
  unfold drawCircle.
  apply (for_range_invariant (fun i => Rect i = Rect img)); [reflexivity|].
  intros y i Hi.
  apply (for_range_invariant (fun i => Rect i = Rect img)); [exact Hi|].
  intros x j Hj. destruct (_ <=? _); [|exact Hj].
  rewrite Rect_Set_pixel. exact Hj.
Qed.

Lemma Rect_Draw_uniform (img : RGBA) (r : Rectangle) (c : Color) :
  Rect (Draw_uniform img r c) = Rect img.
Proof. apply Draw_uniform_pixels. Qed.

Lemma Rect_drawPrimitive (x y : Z) (scale : float64) (c : Color) (img : RGBA)
    (prim : MacroPrimitive) :
  Rect (drawPrimitive x y scale c img prim) = Rect img.
Proof.
  unfold drawPrimitive.
  destruct (prim_Code prim =? 1).
  { destruct (4 <=? _)%nat; [apply Rect_drawCircle | reflexivity]. }
  destruct (prim_Code prim =? 21); [|reflexivity].
  destruct (6 <=? _)%nat; [apply Rect_Draw_uniform | reflexivity].
Qed.

Lemma Rect_drawAperture (gf : GerberFile) (img : RGBA) (x y : Z) (ap : Aperture)
    (scale : float64) (c : Color) :
  Rect (drawAperture gf img x y ap scale c) = Rect img.
Proof.
  unfold drawAperture.
  destruct (String.eqb (ap_Type ap) ApertureCircle).
  { destruct (0 <? _)%nat; [apply Rect_drawCircle | reflexivity]. }
  destruct (_ || _).
  { destruct (2 <=? _)%nat; [apply Rect_Draw_uniform | reflexivity]. }
  destruct (Macros (State gf) !! ap_Type ap) as [macro|]; [|reflexivity].
  generalize (Primitives macro). intros prims. revert img.
  induction prims as [|p prims IH]; intros img; cbn [fold_left]; [reflexivity|].
  rewrite IH. apply Rect_drawPrimitive.
Qed.

Lemma Rect_drawLine (gf : GerberFile) (img : RGBA) (x1 y1 x2 y2 : Z) (ap : Aperture)
    (scale : float64) (c : Color) :
  Rect (drawLine gf img x1 y1 x2 y2 ap scale c) = Rect img.
Proof.
  unfold drawLine. destruct (_ =? 0); [apply Rect_drawAperture|].
  apply (for_range_invariant (fun i => Rect i = Rect img)); [reflexivity|].
  intros i j Hj. rewrite Rect_drawAperture. exact Hj.
Qed.

(** A replayed command keeps the size of the field; it panics only on
    an aperture selection without a code. *)
Lemma render_step_Rect (gf : GerberFile) (b : Bounds) (heightMM scale : float64)
    (st : Pen) (cmd : GerberCommand) :
  (cmd_Type cmd = "APERTURE" -> cmd_D cmd <> None) ->
  exists st', render_step gf b heightMM scale st cmd = Done st' /\
              Rect (pen_img st') = Rect (pen_img st).
Proof.
  intros Hsel. unfold render_step.
  destruct (String.eqb_spec (cmd_Type cmd) "APERTURE") as [Hty|Hty].
  - specialize (Hsel Hty). destruct (cmd_D cmd) as [d|]; [|contradiction].
    eexists. split; reflexivity.
  - destruct (move_pen (curX st, curY st) cmd) as [cX cY].
    eexists. split; [reflexivity|]. cbn [pen_img].
    destruct (String.eqb (cmd_Type cmd) "FLASH").
    { destruct (Apertures (State gf) !! curDCode st); [|reflexivity].
      destruct (toPix b heightMM scale cX cY). apply Rect_drawAperture. }
    destruct (String.eqb (cmd_Type cmd) "DRAW"); [|reflexivity].
    destruct (Apertures (State gf) !! curDCode st); [|reflexivity].
    destruct (toPix b heightMM scale (curX st) (curY st)).
    destruct (toPix b heightMM scale cX cY). apply Rect_drawLine.
Qed.

Lemma replay_Rect (gf : GerberFile) (b : Bounds) (heightMM scale : float64)
    (cmds : list GerberCommand) :
  selections_carry_code cmds ->
  forall st, exists st',
    foldlM (render_step gf b heightMM scale) cmds st = Done st' /\
    Rect (pen_img st') = Rect (pen_img st).
Proof.
  intros Hsel. induction Hsel as [|cmd cmds Hcmd _ IH]; intros st; cbn [foldlM].
  - exists st. split; reflexivity.
  - destruct (render_step_Rect gf b heightMM scale st cmd Hcmd) as (st1 & -> & H1).
    cbn [mbind outcome_bind]. destruct (IH st1) as (st' & -> & H').
    exists st'. split; [reflexivity | congruence].
Qed.

(** The field [Render] returns has the size of the raster. *)
Lemma Render_field_Rect (gf : GerberFile) (dpi : float64) (bounds : option Bounds) (img : RGBA) :
  selections_carry_code (Commands gf) ->
  Render gf dpi bounds = Done img ->
  Rect img = image_Rect 0 0 (fst (raster_size gf dpi bounds)) (snd (raster_size gf dpi bounds)).
Proof.
  intros Hsel. unfold Render.
  destruct (raster_size gf dpi bounds) as [w h]. cbn [fst snd].
  destruct (NewRGBA (image_Rect 0 0 w h)) as [img0| |] eqn:Hnew;
    cbn [mbind outcome_bind]; [|discriminate|discriminate].
  assert (Hrect0 : Rect img0 = image_Rect 0 0 w h).
  { unfold NewRGBA in Hnew. destruct (_ <? 0); [discriminate|].
    injection Hnew as <-. reflexivity. }
  destruct (replay_Rect gf (render_bounds gf bounds)
              (F64.sub (MaxY (render_bounds gf bounds)) (MinY (render_bounds gf bounds)))
              (render_scale gf dpi) (Commands gf) Hsel
              {| pen_img := Draw_uniform img0 (Rect img0) Black;
                 curX := F64.zero; curY := F64.zero; curDCode := 0 |})
    as (st' & -> & Hrect).
  cbn [mbind outcome_bind mret outcome_ret]. intros [= <-].
  rewrite Hrect. cbn [pen_img]. rewrite Rect_Draw_uniform. exact Hrect0.
Qed.




(** ** Replaying commands *)

(** C4. A flash or draw whose selected aperture code has no entry in the
    aperture table leaves the field as it is, still moves the pen, and
    returns normally; a macro primitive whose code is neither 1 nor 21 is
    passed over, and so is an aperture whose kind is none of the three
    standard ones nor the name of a macro. *)
Theorem unknown_codes_skipped (gf : GerberFile) (b : Bounds) (heightMM scale : float64)
    (st : Pen) (cmd : GerberCommand) (x y : Z) (c : Color) (img : RGBA)
    (prim : MacroPrimitive) (ap : Aperture) :
  (cmd_Type cmd = "FLASH" \/ cmd_Type cmd = "DRAW" ->
   Apertures (State gf) !! curDCode st = None ->
   render_step gf b heightMM scale st cmd
   = Done {| pen_img := pen_img st;
             curX := fst (move_pen (curX st, curY st) cmd);
             curY := snd (move_pen (curX st, curY st) cmd);
             curDCode := curDCode st |}) /\
  (prim_Code prim <> 1 -> prim_Code prim <> 21 ->
   drawPrimitive x y scale c img prim = img) /\
  (ap_Type ap <> ApertureCircle -> ap_Type ap <> ApertureRect ->
   ap_Type ap <> ApertureObround -> Macros (State gf) !! ap_Type ap = None ->
   drawAperture gf img x y ap scale c = img).
Proof.
  split; [|split].
  - intros Hty Hap. unfold render_step.
    destruct (move_pen (curX st, curY st) cmd) as [cX cY] eqn:Hpen.
    rewrite Hap.
    destruct Hty as [Hty|Hty]; rewrite Hty; reflexivity.
  - intros H1 H21. unfold drawPrimitive.
    destruct (Z.eqb_spec (prim_Code prim) 1); [contradiction|].
    destruct (Z.eqb_spec (prim_Code prim) 21); [contradiction|].
    reflexivity.
  - intros HC HR HO Hm. unfold drawAperture.
    apply String.eqb_neq in HC, HR, HO. rewrite HC, HR, HO, Hm. reflexivity.
Qed.

Lemma unknown_codes_skipped_witness :
  render_step NewGerberFile default_extent (F64.of_Z 14) (F64.of_Z 1)
    {| pen_img := sample_field; curX := F64.zero; curY := F64.zero; curDCode := 10 |}
    {| cmd_Type := "FLASH"; cmd_X := Some (F64.of_Z 5); cmd_Y := None; cmd_D := Some 3 |}
  = Done {| pen_img := sample_field; curX := F64.of_Z 5; curY := F64.zero; curDCode := 10 |} /\
  drawPrimitive 1 1 (F64.of_Z 1) White sample_field
    {| prim_Code := 4; prim_Modifiers := [F64.of_Z 1] |} = sample_field /\
  drawAperture NewGerberFile sample_field 1 1
    {| ap_Type := "P"; ap_Modifiers := [F64.of_Z 1] |} (F64.of_Z 1) White = sample_field.
Proof.
  pose proof (unknown_codes_skipped NewGerberFile default_extent (F64.of_Z 14) (F64.of_Z 1)
                {| pen_img := sample_field; curX := F64.zero; curY := F64.zero; curDCode := 10 |}
                {| cmd_Type := "FLASH"; cmd_X := Some (F64.of_Z 5); cmd_Y := None;
                   cmd_D := Some 3 |}
                1 1 White sample_field
                {| prim_Code := 4; prim_Modifiers := [F64.of_Z 1] |}
                {| ap_Type := "P"; ap_Modifiers := [F64.of_Z 1] |}) as (H1 & H2 & H3).
  split; [apply H1; [left; reflexivity | reflexivity]|].
  split; [apply H2; discriminate|].
  apply H3; [discriminate | discriminate | discriminate | reflexivity].
Defined.

(** ** Centre-line primitives *)

(** C9, as the code has it.  For a primitive of code 21 with six
    modifiers the rotation is reduced by [math.Mod] to 360 and raised by
    360 when negative.  When the reduced rotation is less than 1.0 away
    from 90 or from 270 the sides are exchanged, as they are for exactly
    90 and 270 degrees (and so for -90 and 450); otherwise the rectangle
    has the width and height given.  The rectangle is axis-aligned around
    the flash point offset by the scaled centre, and the primitive paints
    the part of it that lies in the field. *)
Theorem center_line_quarter_turns (x y : Z) (scale : float64) (c : Color) (img : RGBA)
    (prim : MacroPrimitive) :
  prim_Code prim = 21 ->
  (6 <= length (prim_Modifiers prim))%nat ->
  let mods := prim_Modifiers prim in
  let rot := normalize_rotation (nth_mod mods 5) in
  let r := if swaps_sides rot then quarter_turn_rect x y mods scale
           else unrotated_rect x y mods scale in
  rot = (let m := F64.Mod (nth_mod mods 5) (F64.of_Z 360) in
         if F64.ltb m F64.zero then F64.add m (F64.of_Z 360) else m) /\
  swaps_sides rot
  = (F64.ltb (F64.abs (F64.sub rot (F64.of_Z 90))) (F64.of_Z 1)
     || F64.ltb (F64.abs (F64.sub rot (F64.of_Z 270))) (F64.of_Z 1)) /\
  center_line_rect x y mods scale = r /\
  Rect (drawPrimitive x y scale c img prim) = Rect img /\
  (forall px py,
     Pix (drawPrimitive x y scale c img prim) px py
     = if In_rect px py (clip img r) then c else Pix img px py) /\
  swaps_sides (normalize_rotation (F64.of_Z 90)) = true /\
  swaps_sides (normalize_rotation (F64.of_Z 270)) = true /\
  swaps_sides (normalize_rotation (F64.of_Z (-90))) = true /\
  swaps_sides (normalize_rotation (F64.of_Z 450)) = true /\
  swaps_sides (normalize_rotation (F64.of_Z 0)) = false /\
  swaps_sides (normalize_rotation (F64.of_Z 45)) = false /\
  swaps_sides (normalize_rotation (F64.of_Z 180)) = false.
Proof.
  intros Hcode Hlen. cbv zeta.
  set (mods := prim_Modifiers prim) in *.
  set (rot := normalize_rotation (nth_mod mods 5)).
  set (r := if swaps_sides rot then quarter_turn_rect x y mods scale
            else unrotated_rect x y mods scale).
  assert (Hr : center_line_rect x y mods scale = r).
  { unfold center_line_rect, r, quarter_turn_rect, unrotated_rect, centered_rect.
    fold rot. destruct (swaps_sides rot); reflexivity. }
  assert (Hdraw : drawPrimitive x y scale c img prim = Draw_uniform img r c).
  { unfold drawPrimitive. rewrite Hcode. cbn [Z.eqb Pos.eqb].
    apply Nat.leb_le in Hlen. fold mods. rewrite Hlen, Hr. reflexivity. }
  split; [reflexivity|]. split; [reflexivity|]. split; [exact Hr|].
  clearbody r rot.
  rewrite Hdraw. split; [apply Draw_uniform_pixels|]. split; [apply Draw_uniform_pixels|].
  repeat split; reflexivity.
Qed.

Lemma center_line_quarter_turns_witness :
  center_line_rect 5 5 (center_line (F64.of_Z 90)) (F64.of_Z 1)
  = quarter_turn_rect 5 5 (center_line (F64.of_Z 90)) (F64.of_Z 1).
Proof.
  apply (center_line_quarter_turns 5 5 (F64.of_Z 1) White sample_field
           {| prim_Code := 21; prim_Modifiers := center_line (F64.of_Z 90) |});
    [reflexivity | cbn; lia].
Defined.

(** A rotation of 90.5 degrees is neither 90 nor 270, yet the sides are
    exchanged; and a rotation just below zero is reduced to 360, outside
    [0, 360). *)
Lemma center_line_tolerance :
  let rot := normalize_rotation (F64.decimal false 905 (-1)) in
  F64.eqb rot (F64.of_Z 90) = false /\
  F64.eqb rot (F64.of_Z 270) = false /\
  center_line_rect 0 0 (center_line (F64.decimal false 905 (-1))) (F64.of_Z 1)
  = image_Rect (-2) (-1) 2 1 /\
  unrotated_rect 0 0 (center_line (F64.decimal false 905 (-1))) (F64.of_Z 1)
  = image_Rect (-1) (-2) 1 2 /\
  center_line_rect 0 0 (center_line (F64.decimal false 905 (-1))) (F64.of_Z 1)
  <> unrotated_rect 0 0 (center_line (F64.decimal false 905 (-1))) (F64.of_Z 1) /\
  normalize_rotation (F64.decimal true 1 (-20)) = F64.of_Z 360 /\
  F64.ltb (normalize_rotation (F64.decimal true 1 (-20))) (F64.of_Z 360) = false.
Proof. vm_compute. repeat split; try reflexivity. discriminate. Qed.

(** ** Strokes *)

(** C8, at a thin stroke.  Rendered at 1000 pixels per inch the stroke is
    stamped one pixel at a time along row 78, from column 78 to column
    339 -- except at column 248, which stays stencil material from top to
    bottom: the interpolated centre there is truncated to 247.  The
    stamped pixels left and right of that column do not touch. *)
Theorem thin_stroke_gap :
  let gf := parsed (ParseGerber (fun _ => Opened thin_stroke_text) "thin.gbr") in
  ParseGerber (fun _ => Opened thin_stroke_text) "thin.gbr" = Done gf /\
  Apertures (State gf) !! 10
  = Some {| ap_Type := "C"; ap_Modifiers := [F64.decimal false 3 (-2)] |} /\
  raster_size gf DPI None = (418, 157) /\
  toPix (CalculateBounds gf) (F64.of_Z 4) (render_scale gf DPI) F64.zero F64.zero = (78, 78) /\
  toPix (CalculateBounds gf) (F64.of_Z 4) (render_scale gf DPI)
    (F64.decimal false 662 (-2)) F64.zero = (339, 78) /\
  solid_columns (Render gf DPI None) 78 78 339 = [248] /\
  rendered_pixel (Render gf DPI None) 247 78 = Some White /\
  rendered_pixel (Render gf DPI None) 248 78 = Some Black /\
  rendered_pixel (Render gf DPI None) 249 78 = Some White /\
  solid_column (Render gf DPI None) 248 = true.
Proof.
  cbv zeta. repeat (match goal with |- _ /\ _ => split end); vm_compute; reflexivity.
Qed.

(** ** Integers in range *)

Lemma wrap_in_range (z : Z) : Int.min_int <= z <= Int.max_int -> Int.wrap z = z.
Proof.
  unfold Int.wrap, Int.min_int, Int.max_int. intros Hz.
  rewrite Z.mod_small; lia.
Qed.

Lemma to_int_in_range (x : float64) : Int.min_int <= F64.to_int x <= Int.max_int.
Proof.
  unfold F64.to_int.
  destruct (F64.is_finite x && Int.in_range (F64.trunc x)) eqn:E.
  - apply andb_true_iff in E as [_ E]. unfold Int.in_range in E.
    apply andb_true_iff in E as [E1 E2]. apply Z.leb_le in E1, E2. lia.
  - unfold Int.min_int, Int.max_int. lia.
Qed.

(** ** The mesh generator *)

Section ScanFacts.
Context {I : Type} `{Image I}.
Variable img : I.

Lemma replay_snoc {Acc : Type} (emit : Acc -> Z -> Z -> Z -> Acc) l sx y n (acc : Acc) :
  replay emit (emit_strip l sx y n) acc = emit (replay emit l acc) sx y n.
Proof. unfold replay, emit_strip. rewrite fold_left_app. reflexivity. Qed.

Lemma scan_pixel_replay {Acc : Type} (emit : Acc -> Z -> Z -> Z -> Acc) (acc0 : Acc) y x sx l :
  scan_pixel emit img y x (sx, replay emit l acc0)
  = (fst (scan_pixel emit_strip img y x (sx, l)),
     replay emit (snd (scan_pixel emit_strip img y x (sx, l))) acc0).
Proof.
  unfold scan_pixel.
  destruct (isSolid (img_At img x y)); destruct (sx =? -1); simpl;
    rewrite ?replay_snoc; reflexivity.
Qed.

Lemma scan_pixels_replay {Acc : Type} (emit : Acc -> Z -> Z -> Z -> Acc) (acc0 : Acc) y xs :
  forall sx l,
  fold_left (fun s i => scan_pixel emit img y i s) xs (sx, replay emit l acc0)
  = (fst (fold_left (fun s i => scan_pixel emit_strip img y i s) xs (sx, l)),
     replay emit (snd (fold_left (fun s i => scan_pixel emit_strip img y i s) xs (sx, l))) acc0).
Proof.
  induction xs as [|x xs IH]; intros sx l; cbn [fold_left]; [reflexivity|].
  rewrite scan_pixel_replay.
  destruct (scan_pixel emit_strip img y x (sx, l)) as [sx' l'] eqn:E. cbn [fst snd].
  apply IH.
Qed.

Lemma scan_row_replay {Acc : Type} (emit : Acc -> Z -> Z -> Z -> Acc) (acc0 : Acc) width y l :
  scan_row emit img width y (replay emit l acc0)
  = replay emit (scan_row emit_strip img width y l) acc0.
Proof.
  unfold scan_row, for_range. rewrite scan_pixels_replay.
  destruct (fold_left _ _ (-1, l)) as [sx l'] eqn:E. cbn [fst snd].
  destruct (negb (sx =? -1)); rewrite ?replay_snoc; reflexivity.
Qed.

Lemma scan_rows_replay {Acc : Type} (emit : Acc -> Z -> Z -> Z -> Acc) (acc0 : Acc) width ys :
  forall l,
  fold_left (fun s y => scan_row emit img width y s) ys (replay emit l acc0)
  = replay emit (fold_left (fun s y => scan_row emit_strip img width y s) ys l) acc0.
Proof.
  induction ys as [|y ys IH]; intros l; cbn [fold_left]; [reflexivity|].
  rewrite scan_row_replay. apply IH.
Qed.

Lemma scan_image_replay {Acc : Type} (emit : Acc -> Z -> Z -> Z -> Acc) (acc0 : Acc) :
  scan_image emit img acc0 = replay emit (scan_image emit_strip img []) acc0.
Proof. unfold scan_image, for_range. apply (scan_rows_replay emit acc0 _ _ []). Qed.
End ScanFacts.

Lemma AddBox_app (triangles : list Triangle) (x y w h zHeight : float64) :
  AddBox triangles x y w h zHeight = triangles ++ AddBox [] x y w h zHeight.
Proof. unfold AddBox, addQuad. simpl. rewrite <- !app_assoc. reflexivity. Qed.

Lemma replay_strip_box (StencilHeight : float64) (l : list Strip) :
  forall acc, replay (strip_box StencilHeight) l acc
              = acc ++ flat_map (strip_triangles StencilHeight) l.
Proof.
  induction l as [|s l IH]; intros acc; simpl.
  - rewrite app_nil_r. reflexivity.
  - unfold replay in *. simpl. rewrite IH. unfold strip_box at 1.
    rewrite AddBox_app, <- app_assoc. reflexivity.
Qed.

Lemma strips_area_snoc (l : list Strip) (sx y n : Z) :
  strips_area (emit_strip l sx y n) = strips_area l + n.
Proof.
  unfold emit_strip. induction l as [|s l IH]; simpl; [lia|].
  rewrite IH. lia.
Qed.

Section CountFacts.
Context {I : Type} `{Image I}.
Variable img : I.

Lemma count_pixels_shift (y : Z) (xs : list Z) :
  forall n,
  fold_left (fun n x => if isSolid (img_At img x y) then n + 1 else n) xs n
  = n + fold_left (fun n x => if isSolid (img_At img x y) then n + 1 else n) xs 0.
Proof.
  induction xs as [|x xs IH]; intros n; cbn [fold_left]; [lia|].
  rewrite IH. rewrite (IH (if isSolid (img_At img x y) then 0 + 1 else 0)).
  destruct (isSolid (img_At img x y)); lia.
Qed.

(** After the first [k] pixels of a row: the finished strips and the
    open one together are as long as the solid pixels seen. *)
Lemma scan_pixels_area (y : Z) (l0 : list Strip) (k : nat) :
  Z.of_nat k <= Int.max_int ->
  let st := fold_left (fun s i => scan_pixel emit_strip img y i s)
              (seqZ 0 (Z.of_nat k)) (-1, l0) in
  (fst st = -1 \/ 0 <= fst st < Z.of_nat k) /\
  strips_area (snd st) + (if fst st =? -1 then 0 else Z.of_nat k - fst st)
  = strips_area l0
    + fold_left (fun n x => if isSolid (img_At img x y) then n + 1 else n)
        (seqZ 0 (Z.of_nat k)) 0.
Proof.
  induction k as [|k IH]; intros Hk.
  - cbv zeta. rewrite seqZ_nil by (simpl; lia). cbn. split; [left; reflexivity | unfold strips_area; lia].
  - rewrite seqZ_S, !fold_left_app. cbn [fold_left].
    specialize (IH ltac:(lia)). cbv zeta in IH |- *.
    destruct (fold_left (fun s i => scan_pixel emit_strip img y i s)
                (seqZ 0 (Z.of_nat k)) (-1, l0)) as [sx l] eqn:E.
    cbn [fst snd] in IH. destruct IH as [Hsx Harea].
    rewrite Z.add_0_l. unfold scan_pixel. revert Harea.
    assert (Hwrap : Int.sub (Z.of_nat k) sx = Z.of_nat k - sx).
    { unfold Int.sub. apply wrap_in_range. unfold Int.min_int. lia. }
    destruct (isSolid (img_At img (Z.of_nat k) y)) eqn:Hs;
      destruct (Z.eqb_spec sx (-1)) as [Hm|Hm]; cbn [negb fst snd]; intros Harea.
    + split; [right; lia|].
      destruct (Z.eqb_spec (Z.of_nat k) (-1)); lia.
    + split; [right; lia|].
      destruct (Z.eqb_spec sx (-1)); lia.
    + split; [left; exact Hm|].
      destruct (Z.eqb_spec sx (-1)); lia.
    + split; [left; reflexivity|].
      rewrite strips_area_snoc, Hwrap, Z.eqb_refl. lia.
Qed.

Lemma scan_row_area (width y : Z) (l0 : list Strip) :
  width <= Int.max_int ->
  strips_area (scan_row emit_strip img width y l0)
  = strips_area l0
    + for_range 0 (width - 1)
        (fun x n => if isSolid (img_At img x y) then n + 1 else n) 0.
Proof.
  intros Hw. unfold scan_row, for_range.
  replace (width - 1 - 0 + 1) with width by lia.
  destruct (Z.le_gt_cases width 0) as [Hneg|Hpos].
  - rewrite seqZ_nil by lia. cbn [fold_left]. rewrite Z.eqb_refl. cbn [negb]. lia.
  - pose proof (scan_pixels_area y l0 (Z.to_nat width)) as Hinv.
    rewrite Z2Nat.id in Hinv by lia. specialize (Hinv Hw). cbv zeta in Hinv.
    destruct (fold_left (fun s i => scan_pixel emit_strip img y i s)
                (seqZ 0 width) (-1, l0)) as [sx l] eqn:E.
    cbn [fst snd] in Hinv. destruct Hinv as [Hsx Harea].
    destruct (sx =? -1) eqn:Hm; cbn [negb].
    + lia.
    + apply Z.eqb_neq in Hm. rewrite strips_area_snoc.
      unfold Int.sub. rewrite wrap_in_range by (unfold Int.min_int; lia).
      lia.
Qed.

Lemma scan_rows_area (width : Z) (ys : list Z) :
  width <= Int.max_int ->
  forall l0 n,
  strips_area (fold_left (fun s y => scan_row emit_strip img width y s) ys l0) - strips_area l0
  = fold_left (fun n y =>
      for_range 0 (width - 1)
        (fun x n => if isSolid (img_At img x y) then n + 1 else n) n) ys n - n.
Proof.
  intros Hw. induction ys as [|y ys IH]; intros l0 n; cbn [fold_left]; [lia|].
  specialize (IH (scan_row emit_strip img width y l0)
                 (for_range 0 (width - 1)
                    (fun x n => if isSolid (img_At img x y) then n + 1 else n) n)).
  pose proof (scan_row_area width y l0 Hw) as Hrow.
  unfold for_range in *. rewrite (count_pixels_shift y _ n) in IH |- *.
  lia.
Qed.
End CountFacts.

(** The mesh is the boxes of the strips, in the order of the scan. *)
Lemma GenerateMesh_strips {I : Type} `{Image I} (StencilHeight : float64) (img : I) :
  GenerateMeshFromImage StencilHeight img
  = flat_map (strip_triangles StencilHeight) (image_strips img).
Proof.
  unfold GenerateMeshFromImage, image_strips.
  rewrite (scan_image_replay img (strip_box StencilHeight) []).
  apply (replay_strip_box StencilHeight _ []).
Qed.



(** ** Boxes *)

Lemma AddBox_corners (triangles : list Triangle) (x y w h zHeight : float64) :
  AddBox triangles x y w h zHeight
  = triangles ++ map (triangle_at (corner_point x y w h zHeight)) box_triangles.
Proof. unfold AddBox, addQuad. cbn. rewrite <- !app_assoc. reflexivity. Qed.

Lemma strip_triangles_corners (StencilHeight : float64) (s : Strip) :
  strip_triangles StencilHeight s
  = map (triangle_at (corner_point
                        (F64.mul (F64.of_Z (strip_start s)) PixelToMM)
                        (F64.mul (F64.of_Z (strip_row s)) PixelToMM)
                        (F64.mul (F64.of_Z (strip_len s)) PixelToMM)
                        PixelToMM StencilHeight))
        box_triangles.
Proof. unfold strip_triangles, strip_box. rewrite AddBox_corners. reflexivity. Qed.

Lemma corner_point_Z (x y w h zHeight : float64) (c : Corner) :
  pt_Z (corner_point x y w h zHeight c)
  = if corner_end AxisZ c then zHeight else F64.zero.
Proof. destruct c as [[ex ey] ez]. reflexivity. Qed.

Lemma box_on_extrusion_ends (x y w h zHeight : float64) :
  Forall (on_extrusion_ends zHeight)
         (map (triangle_at (corner_point x y w h zHeight)) box_triangles).
Proof.
  apply Forall_forall. intros t Ht. apply list_elem_of_In, in_map_iff in Ht.
  destruct Ht as ([[a b] c] & <- & _). unfold triangle_at, on_extrusion_ends.
  rewrite !corner_point_Z.
  repeat split; match goal with |- context [corner_end AxisZ ?k] =>
                  destruct (corner_end AxisZ k); auto end.
Qed.

(** C3. Every box is twelve triangles, two for each of the six quads
    [AddBox] lays on the corners of an axis-aligned box: each quad lies in
    its own face, the six faces are all there, and together they are a
    closed surface; the bottom is at Z = 0 and the top at the extrusion
    height.  The mesh is one such box per strip, whatever touches it, so
    its triangle count is twelve times the number of strips. *)
Theorem AddBox_closed_box (triangles : list Triangle) (x y w h zHeight : float64) :
  AddBox triangles x y w h zHeight
  = triangles ++ map (triangle_at (corner_point x y w h zHeight)) box_triangles /\
  length (AddBox triangles x y w h zHeight) = (length triangles + 12)%nat /\
  box_triangles = flat_map quad_triangles box_quads /\
  map quad_face box_quads
  = [[(AxisZ, false)]; [(AxisZ, true)]; [(AxisY, false)];
     [(AxisX, true)]; [(AxisY, true)]; [(AxisX, false)]] /\
  closed_surface box_triangles = true /\
  (forall c, pt_Z (corner_point x y w h zHeight c)
             = if corner_end AxisZ c then zHeight else F64.zero) /\
  (forall (I : Type) (HI : Image I) (StencilHeight : float64) (img : I),
     GenerateMeshFromImage StencilHeight img
     = flat_map (fun s => AddBox [] (F64.mul (F64.of_Z (strip_start s)) PixelToMM)
                            (F64.mul (F64.of_Z (strip_row s)) PixelToMM)
                            (F64.mul (F64.of_Z (strip_len s)) PixelToMM)
                            PixelToMM StencilHeight)
                (image_strips img) /\
     length (GenerateMeshFromImage StencilHeight img)
     = (12 * length (image_strips img))%nat /\
     Forall (on_extrusion_ends StencilHeight) (GenerateMeshFromImage StencilHeight img)).
Proof.
  split; [apply AddBox_corners|].
  split; [rewrite AddBox_corners, length_app, length_map; reflexivity|].
  split; [reflexivity|].
  split; [reflexivity|].
  split; [reflexivity|].
  split; [apply corner_point_Z|].
  intros I HI StencilHeight img. rewrite GenerateMesh_strips.
  split; [reflexivity|]. split.
  - induction (image_strips img) as [|s l IH]; [reflexivity|].
    cbn [flat_map]. rewrite length_app, IH, strip_triangles_corners, length_map.
    cbn [length box_triangles]. simpl length. lia.
  - induction (image_strips img) as [|s l IH]; [constructor|].
    cbn [flat_map]. apply Forall_app. split; [|exact IH].
    rewrite strip_triangles_corners. apply box_on_extrusion_ends.
Qed.

(** ** Clearing the field *)

Lemma cleared_refl (img : RGBA) : cleared_from img img.
Proof. split; [reflexivity|]. intros x y. left. reflexivity. Qed.

Lemma cleared_trans (a b c : RGBA) : cleared_from a b -> cleared_from b c -> cleared_from a c.
Proof.
  intros [Rab Hab] [Rbc Hbc]. split; [congruence|]. intros x y.
  destruct (Hbc x y) as [H|[H Hin]].
  - rewrite H. apply Hab.
  - right. split; [exact H|]. rewrite <- Rab. exact Hin.
Qed.

Lemma In_Intersect (x y : Z) (r s : Rectangle) :
  In_rect x y (Intersect r s) = true -> In_rect x y r = true /\ In_rect x y s = true.
Proof.
  unfold Intersect. destruct (Empty _) eqn:E.
  - unfold In_rect, ZR. cbn. intros H. exfalso.
    repeat (apply andb_true_iff in H as [H ?]).
    apply Z.leb_le in H. apply Z.ltb_lt in H2. lia.
  - unfold In_rect. cbn. intros H.
    repeat (apply andb_true_iff in H as [H ?]).
    apply Z.leb_le in H, H1. apply Z.ltb_lt in H0, H2.
    split; repeat (apply andb_true_iff; split);
      first [apply Z.leb_le; lia | apply Z.ltb_lt; lia].
Qed.

Lemma cleared_Set_pixel (img : RGBA) (x y : Z) : cleared_from img (Set_pixel img x y White).
Proof.
  unfold Set_pixel. destruct (In_rect x y (Rect img)) eqn:Hin; [|apply cleared_refl].
  split; [reflexivity|]. intros x' y'. cbn [Pix].
  destruct (Z.eqb_spec x' x) as [->|]; [|left; reflexivity].
  destruct (Z.eqb_spec y' y) as [->|]; [|left; reflexivity].
  right. split; [reflexivity | exact Hin].
Qed.

Lemma cleared_Draw_uniform (img : RGBA) (r : Rectangle) :
  cleared_from img (Draw_uniform img r White).
Proof.
  destruct (Draw_uniform_pixels img r White) as [HR HP]. split; [exact HR|].
  intros x y. rewrite HP. destruct (In_rect x y (clip img r)) eqn:Hin; [|left; reflexivity].
  right. split; [reflexivity|]. unfold clip in Hin.
  apply In_Intersect in Hin as [Hin _]. apply In_Intersect in Hin as [_ Hin]. exact Hin.
Qed.

Lemma cleared_drawCircle (img : RGBA) (x0 y0 r : Z) : cleared_from img (drawCircle img x0 y0 r).
Proof.
  unfold drawCircle.
  apply (for_range_invariant (cleared_from img)); [apply cleared_refl|].
  intros y i Hi.
  apply (for_range_invariant (cleared_from img)); [exact Hi|].
  intros x j Hj. destruct (_ <=? _); [|exact Hj].
  eapply cleared_trans; [exact Hj | apply cleared_Set_pixel].
Qed.

Lemma cleared_drawPrimitive (x y : Z) (scale : float64) (img : RGBA) (prim : MacroPrimitive) :
  cleared_from img (drawPrimitive x y scale White img prim).
Proof.
  unfold drawPrimitive.
  destruct (prim_Code prim =? 1).
  { destruct (4 <=? _)%nat; [apply cleared_drawCircle | apply cleared_refl]. }
  destruct (prim_Code prim =? 21); [|apply cleared_refl].
  destruct (6 <=? _)%nat; [apply cleared_Draw_uniform | apply cleared_refl].
Qed.

Lemma cleared_drawAperture (gf : GerberFile) (img : RGBA) (x y : Z) (ap : Aperture)
    (scale : float64) :
  cleared_from img (drawAperture gf img x y ap scale White).
Proof.
  unfold drawAperture.
  destruct (String.eqb (ap_Type ap) ApertureCircle).
  { destruct (0 <? _)%nat; [apply cleared_drawCircle | apply cleared_refl]. }
  destruct (_ || _).
  { destruct (2 <=? _)%nat; [apply cleared_Draw_uniform | apply cleared_refl]. }
  destruct (Macros (State gf) !! ap_Type ap) as [macro|]; [|apply cleared_refl].
  generalize (Primitives macro). intros prims.
  assert (H : forall img', cleared_from img img' ->
                cleared_from img (fold_left (drawPrimitive x y scale White) prims img')).
  { induction prims as [|p prims IH]; intros img' Himg'; cbn [fold_left]; [exact Himg'|].
    apply IH. eapply cleared_trans; [exact Himg' | apply cleared_drawPrimitive]. }
  apply H, cleared_refl.
Qed.

Lemma cleared_drawLine (gf : GerberFile) (img : RGBA) (x1 y1 x2 y2 : Z) (ap : Aperture)
    (scale : float64) :
  cleared_from img (drawLine gf img x1 y1 x2 y2 ap scale White).
Proof.
  unfold drawLine. destruct (_ =? 0); [apply cleared_drawAperture|].
  apply (for_range_invariant (cleared_from img)); [apply cleared_refl|].
  intros i j Hj. eapply cleared_trans; [exact Hj | apply cleared_drawAperture].
Qed.

(** A replayed command only clears. *)
Lemma render_step_cleared (gf : GerberFile) (b : Bounds) (heightMM scale : float64)
    (st st' : Pen) (cmd : GerberCommand) :
  render_step gf b heightMM scale st cmd = Done st' ->
  cleared_from (pen_img st) (pen_img st').
Proof.
  unfold render_step.
  destruct (String.eqb (cmd_Type cmd) "APERTURE").
  { destruct (cmd_D cmd) as [d|]; cbn; [|discriminate].
    intros [= <-]. apply cleared_refl. }
  destruct (move_pen (curX st, curY st) cmd) as [cX cY].
  match goal with
  | |- context [{| pen_img := ?i; curX := _; curY := _; curDCode := _ |}] => set (img' := i)
  end.
  assert (Himg : cleared_from (pen_img st) img').
  { unfold img'.
    destruct (String.eqb (cmd_Type cmd) "FLASH").
    { destruct (Apertures (State gf) !! curDCode st); [|apply cleared_refl].
      destruct (toPix b heightMM scale cX cY). apply cleared_drawAperture. }
    destruct (String.eqb (cmd_Type cmd) "DRAW"); [|apply cleared_refl].
    destruct (Apertures (State gf) !! curDCode st); [|apply cleared_refl].
    destruct (toPix b heightMM scale (curX st) (curY st)).
    destruct (toPix b heightMM scale cX cY). apply cleared_drawLine. }
  clearbody img'. intros [= <-]. exact Himg.
Qed.

Lemma replay_cleared (gf : GerberFile) (b : Bounds) (heightMM scale : float64)
    (cmds : list GerberCommand) :
  forall st st',
  foldlM (render_step gf b heightMM scale) cmds st = Done st' ->
  cleared_from (pen_img st) (pen_img st').
Proof.
  induction cmds as [|cmd cmds IH]; intros st st'; cbn [foldlM].
  - intros [= <-]. apply cleared_refl.
  - destruct (render_step gf b heightMM scale st cmd) as [st1| |] eqn:Hstep;
      cbn [mbind outcome_bind]; [|discriminate|discriminate].
    intros Hrest. eapply cleared_trans; [|apply (IH _ _ Hrest)].
    apply (render_step_cleared _ _ _ _ _ _ _ Hstep).
Qed.

(** What [Render] is made of: the allocation, the fill and the replay. *)
Lemma Render_unfold (gf : GerberFile) (dpi : float64) (bounds : option Bounds) (w h : Z) :
  raster_size gf dpi bounds = (w, h) ->
  Render gf dpi bounds
  = (let b := render_bounds gf bounds in
     img0 ← NewRGBA (image_Rect 0 0 w h);
     st ← foldlM (render_step gf b (F64.sub (MaxY b) (MinY b)) (render_scale gf dpi))
            (Commands gf)
            {| pen_img := Draw_uniform img0 (Rect img0) Black;
               curX := F64.zero; curY := F64.zero; curDCode := 0 |};
     mret (pen_img st)).
Proof. intros Hsize. unfold Render. rewrite Hsize. reflexivity. Qed.

Lemma NewRGBA_Done (r : Rectangle) (img0 : RGBA) :
  NewRGBA r = Done img0 -> img0 = {| Rect := r; Pix := fun _ _ => Transparent |}.
Proof. unfold NewRGBA. destruct (_ <? 0); [discriminate|]. intros [= <-]. reflexivity. Qed.

Lemma Render_replay (gf : GerberFile) (dpi : float64) (bounds : option Bounds) (w h : Z)
    (img : RGBA) :
  raster_size gf dpi bounds = (w, h) ->
  Render gf dpi bounds = Done img ->
  exists st,
    foldlM (render_step gf (render_bounds gf bounds)
              (F64.sub (MaxY (render_bounds gf bounds)) (MinY (render_bounds gf bounds)))
              (render_scale gf dpi))
      (Commands gf)
      {| pen_img := filled_field w h;
         curX := F64.zero; curY := F64.zero; curDCode := 0 |} = Done st /\
    img = pen_img st.
Proof.
  intros Hsize. rewrite (Render_unfold _ _ _ _ _ Hsize). cbv zeta.
  destruct (NewRGBA _) as [img0| |] eqn:Hnew; cbn [mbind outcome_bind];
    [|discriminate|discriminate].
  apply NewRGBA_Done in Hnew. subst img0. unfold filled_field. cbn [Rect].
  destruct (foldlM _ _ _) as [st| |]; cbn [mbind outcome_bind mret outcome_ret];
    [|discriminate|discriminate].
  intros [= <-]. exists st. split; reflexivity.
Qed.

Lemma Render_cleared (gf : GerberFile) (dpi : float64) (bounds : option Bounds) (w h : Z)
    (img : RGBA) :
  raster_size gf dpi bounds = (w, h) ->
  Render gf dpi bounds = Done img ->
  cleared_from (filled_field w h) img.
Proof.
  intros Hsize Hrender. destruct (Render_replay _ _ _ _ _ _ Hsize Hrender) as (st & Hst & ->).
  pose proof (replay_cleared _ _ _ _ _ _ _ Hst) as H. exact H.
Qed.

(** Rendering only clears: the field returned has the bounds of the
    filled raster, and each of its pixels is as the fill left it or, within
    the bounds, white. *)
Theorem Render_only_clears (gf : GerberFile) (dpi : float64) (bounds : option Bounds)
    (img : RGBA) :
  Render gf dpi bounds = Done img ->
  cleared_from (filled_field (fst (raster_size gf dpi bounds))
                             (snd (raster_size gf dpi bounds))) img.
Proof.
  intros Hrender. destruct (raster_size gf dpi bounds) as [w h] eqn:Hsize.
  apply (Render_cleared _ _ _ _ _ _ Hsize Hrender).
Qed.

Lemma Render_only_clears_witness :
  cleared_from (filled_field 4 4) (field_of (Render round_flash dpi_1mm None)).
Proof.
  apply (Render_only_clears round_flash dpi_1mm None
           (field_of (Render round_flash dpi_1mm None))).
  vm_compute. reflexivity.
Defined.

(** The rasterizer reads a drawing's state only. *)
Lemma drawAperture_State (gf gf' : GerberFile) (img : RGBA) (x y : Z) (ap : Aperture)
    (scale : float64) (c : Color) :
  State gf' = State gf ->
  drawAperture gf' img x y ap scale c = drawAperture gf img x y ap scale c.
Proof. intros HS. unfold drawAperture. rewrite HS. reflexivity. Qed.

Lemma drawLine_State (gf gf' : GerberFile) (img : RGBA) (x1 y1 x2 y2 : Z) (ap : Aperture)
    (scale : float64) (c : Color) :
  State gf' = State gf ->
  drawLine gf' img x1 y1 x2 y2 ap scale c = drawLine gf img x1 y1 x2 y2 ap scale c.
Proof.
  intros HS. unfold drawLine. rewrite (drawAperture_State gf gf') by exact HS.
  destruct (_ =? 0); [reflexivity|]. unfold for_range.
  generalize (seqZ 0 (F64.to_int
    (F64.sqrt (F64.add (F64.mul (F64.of_Z (Int.sub x2 x1)) (F64.of_Z (Int.sub x2 x1)))
                       (F64.mul (F64.of_Z (Int.sub y2 y1)) (F64.of_Z (Int.sub y2 y1)))))
    - 0 + 1)).
  intros l. revert img. induction l as [|i l IH]; intros img; cbn [fold_left]; [reflexivity|].
  rewrite (drawAperture_State gf gf') by exact HS. apply IH.
Qed.

Lemma render_step_State (gf gf' : GerberFile) (b : Bounds) (heightMM scale : float64)
    (st : Pen) (cmd : GerberCommand) :
  State gf' = State gf ->
  render_step gf' b heightMM scale st cmd = render_step gf b heightMM scale st cmd.
Proof.
  intros HS. unfold render_step. rewrite HS.
  destruct (String.eqb (cmd_Type cmd) "APERTURE"); [reflexivity|].
  destruct (move_pen (curX st, curY st) cmd) as [cX cY].
  destruct (Apertures (State gf) !! curDCode st) as [ap|]; [|reflexivity].
  destruct (toPix b heightMM scale cX cY).
  destruct (toPix b heightMM scale (curX st) (curY st)).
  rewrite (drawAperture_State gf gf'), (drawLine_State gf gf') by exact HS. reflexivity.
Qed.

Lemma replay_State (gf gf' : GerberFile) (b : Bounds) (heightMM scale : float64)
    (cmds : list GerberCommand) :
  State gf' = State gf ->
  forall st, foldlM (render_step gf' b heightMM scale) cmds st
             = foldlM (render_step gf b heightMM scale) cmds st.
Proof.
  intros HS. induction cmds as [|cmd cmds IH]; intros st; cbn [foldlM]; [reflexivity|].
  rewrite (render_step_State gf gf') by exact HS.
  destruct (render_step gf b heightMM scale st cmd); cbn [mbind outcome_bind];
    [apply IH | reflexivity | reflexivity].
Qed.

(** Commands that draw nothing leave the field alone. *)
Lemma replay_no_drawing (gf : GerberFile) (b : Bounds) (heightMM scale : float64)
    (cmds : list GerberCommand) :
  no_drawing cmds -> selections_carry_code cmds ->
  forall st, exists st',
    foldlM (render_step gf b heightMM scale) cmds st = Done st' /\
    pen_img st' = pen_img st.
Proof.
  intros Hno. induction Hno as [|cmd cmds [HF HD] _ IH]; intros Hsel st; cbn [foldlM].
  - exists st. split; reflexivity.
  - apply List.Forall_cons_iff in Hsel as [Hcmd Hsel].
    assert (Hstep : exists st1, render_step gf b heightMM scale st cmd = Done st1 /\
                                pen_img st1 = pen_img st).
    { unfold render_step.
      destruct (String.eqb_spec (cmd_Type cmd) "APERTURE") as [Hty|Hty].
      - specialize (Hcmd Hty). destruct (cmd_D cmd) as [d|]; [|contradiction].
        eexists. split; reflexivity.
      - destruct (move_pen (curX st, curY st) cmd) as [cX cY].
        apply String.eqb_neq in HF, HD. rewrite HF, HD.
        eexists. split; reflexivity. }
    destruct Hstep as (st1 & -> & H1). cbn [mbind outcome_bind].
    destruct (IH Hsel st1) as (st' & -> & H'). exists st'. split; [reflexivity | congruence].
Qed.

Lemma no_drawing_contributors (cmds : list GerberCommand) :
  no_drawing cmds -> forall pen, contributors pen cmds = [].
Proof.
  intros Hno. induction Hno as [|cmd cmds [HF HD] _ IH]; intros pen; cbn [contributors];
    [reflexivity|].
  apply String.eqb_neq in HF, HD. rewrite HF, HD, IH. reflexivity.
Qed.

(** Without flashes and draws the replay returns the fill. *)
Lemma Render_without_geometry_fill (gf : GerberFile) (dpi : float64) (bounds : option Bounds) :
  no_drawing (Commands gf) ->
  selections_carry_code (Commands gf) ->
  Render gf dpi bounds
  = (img0 ← NewRGBA (image_Rect 0 0 (fst (raster_size gf dpi bounds))
                                     (snd (raster_size gf dpi bounds)));
     mret (Draw_uniform img0 (Rect img0) Black)).
Proof.
  intros Hno Hsel. destruct (raster_size gf dpi bounds) as [w h] eqn:Hsize.
  rewrite (Render_unfold _ _ _ _ _ Hsize). cbv zeta. cbn [fst snd].
  destruct (NewRGBA _) as [img0| |]; cbn [mbind outcome_bind]; [|reflexivity|reflexivity].
  destruct (replay_no_drawing gf (render_bounds gf bounds)
              (F64.sub (MaxY (render_bounds gf bounds)) (MinY (render_bounds gf bounds)))
              (render_scale gf dpi) (Commands gf) Hno Hsel
              {| pen_img := Draw_uniform img0 (Rect img0) Black;
                 curX := F64.zero; curY := F64.zero; curDCode := 0 |})
    as (st' & -> & Himg).
  cbn [mbind outcome_bind mret outcome_ret]. rewrite Himg. reflexivity.
Qed.

(** A drawing without flashes and draws renders as the drawing without
    commands does: the filled raster of the default extent (or of the
    bounds given), whatever it selects and wherever it moves. *)
Theorem Render_without_geometry (gf : GerberFile) (dpi : float64) (bounds : option Bounds) :
  no_drawing (Commands gf) ->
  selections_carry_code (Commands gf) ->
  CalculateBounds gf = pad default_extent /\
  Render gf dpi bounds = Render (with_Commands gf []) dpi bounds /\
  Render gf dpi bounds
  = (img0 ← NewRGBA (image_Rect 0 0 (fst (raster_size gf dpi bounds))
                                     (snd (raster_size gf dpi bounds)));
     mret (Draw_uniform img0 (Rect img0) Black)).
Proof.
  intros Hno Hsel.
  assert (HB : CalculateBounds gf = pad default_extent).
  { unfold CalculateBounds, scan_bounds. rewrite scan_contributors.
    rewrite (no_drawing_contributors _ Hno). reflexivity. }
  assert (HR : render_bounds (with_Commands gf []) bounds = render_bounds gf bounds).
  { destruct bounds as [b|]; [reflexivity|]. cbn [render_bounds]. rewrite HB. reflexivity. }
  assert (HS : raster_size (with_Commands gf []) dpi bounds = raster_size gf dpi bounds).
  { unfold raster_size. rewrite HR. reflexivity. }
  pose proof (Render_without_geometry_fill gf dpi bounds Hno Hsel) as Hfill.
  split; [exact HB|]. split; [|exact Hfill].
  rewrite Hfill. destruct (raster_size gf dpi bounds) as [w h] eqn:Hsize.
  rewrite (Render_unfold _ _ _ _ _ HS). cbv zeta. cbn [fst snd].
  destruct (NewRGBA _) as [img0| |]; reflexivity.
Qed.

Lemma Render_without_geometry_witness :
  CalculateBounds no_geometry = pad default_extent /\
  Render no_geometry dpi_1mm None = Render (with_Commands no_geometry []) dpi_1mm None /\
  Render no_geometry dpi_1mm None
  = (img0 ← NewRGBA (image_Rect 0 0 (fst (raster_size no_geometry dpi_1mm None))
                                     (snd (raster_size no_geometry dpi_1mm None)));
     mret (Draw_uniform img0 (Rect img0) Black)).
Proof.
  apply (Render_without_geometry no_geometry dpi_1mm None).
  - repeat constructor; discriminate.
  - repeat constructor; discriminate.
Defined.

(** With the bounds given, what a drawing's first commands clear stays
    cleared: the field of the whole drawing is got from the field of any
    prefix of its commands by clearing. *)
Theorem Render_prefix_cleared (gf : GerberFile) (dpi : float64) (b : Bounds)
    (cmds1 cmds2 : list GerberCommand) (img : RGBA) :
  Render (with_Commands gf (cmds1 ++ cmds2)) dpi (Some b) = Done img ->
  exists img1, Render (with_Commands gf cmds1) dpi (Some b) = Done img1 /\
               cleared_from img1 img.
Proof.
  intros Hrender.
  destruct (raster_size (with_Commands gf (cmds1 ++ cmds2)) dpi (Some b)) as [w h] eqn:Hsize.
  assert (Hsize1 : raster_size (with_Commands gf cmds1) dpi (Some b) = (w, h))
    by exact Hsize.
  destruct (Render_replay _ _ _ _ _ _ Hsize Hrender) as (st & Hst & ->).
  cbn [Commands with_Commands render_bounds] in Hst.
  rewrite (replay_State gf) in Hst by reflexivity.
  rewrite foldlM_app in Hst.
  destruct (foldlM _ cmds1 _) as [st1| |] eqn:H1; cbn [mbind outcome_bind] in Hst;
    [|discriminate|discriminate].
  exists (pen_img st1). split.
  - rewrite (Render_unfold _ _ _ _ _ Hsize1). cbv zeta.
    cbn [Commands with_Commands render_bounds].
    rewrite (Render_unfold _ _ _ _ _ Hsize) in Hrender. cbv zeta in Hrender.
    unfold NewRGBA in Hrender |- *.
    destruct (_ <? 0); [discriminate Hrender|].
    cbn [mbind outcome_bind Rect]. rewrite (replay_State gf) by reflexivity.
    unfold filled_field in H1.
    change (render_scale (with_Commands gf cmds1) dpi)
      with (render_scale (with_Commands gf (cmds1 ++ cmds2)) dpi).
    rewrite H1. reflexivity.
  - pose proof (replay_cleared _ _ _ _ _ _ _ Hst) as H. exact H.
Qed.

Lemma Render_prefix_cleared_witness :
  exists img1, Render (with_Commands round_flash (firstn 1 (Commands round_flash))) dpi_1mm
                 (Some (pad default_extent)) = Done img1 /\
               cleared_from img1
                 (field_of (Render round_flash dpi_1mm (Some (pad default_extent)))).
Proof.
  apply (Render_prefix_cleared round_flash dpi_1mm (pad default_extent)
           (firstn 1 (Commands round_flash)) (skipn 1 (Commands round_flash))).
  vm_compute. reflexivity.
Defined.

(** Every pixel of a rendered field shows stencil material (black, or
    the zero colour outside the fill) or a hole (white), and the mesh
    generator's test tells them apart. *)
Theorem Render_material_or_hole (gf : GerberFile) (dpi : float64) (bounds : option Bounds)
    (img : RGBA) (x y : Z) :
  Render gf dpi bounds = Done img ->
  (img_At img x y = Black \/ img_At img x y = Transparent \/ img_At img x y = White) /\
  (isSolid (img_At img x y) = false <-> img_At img x y = White).
Proof.
  intros Hrender. destruct (raster_size gf dpi bounds) as [w h] eqn:Hsize.
  destruct (Render_cleared _ _ _ _ _ _ Hsize Hrender) as [HR HP].
  assert (H3 : img_At img x y = Black \/ img_At img x y = Transparent \/
               img_At img x y = White).
  { cbn [img_At RGBA_Image]. destruct (In_rect x y (Rect img)); [|auto].
    destruct (HP x y) as [H|[H _]]; [|auto]. rewrite H.
    unfold filled_field.
    rewrite (proj2 (Draw_uniform_pixels _ _ Black)). destruct (In_rect x y _); auto. }
  split; [exact H3|].
  destruct H3 as [H|[H|H]]; rewrite H; split; intros H'; try discriminate H'; reflexivity.
Qed.

Lemma Render_material_or_hole_witness :
  (img_At (field_of (Render round_flash dpi_1mm None)) 2 2 = Black \/
   img_At (field_of (Render round_flash dpi_1mm None)) 2 2 = Transparent \/
   img_At (field_of (Render round_flash dpi_1mm None)) 2 2 = White) /\
  (isSolid (img_At (field_of (Render round_flash dpi_1mm None)) 2 2) = false <->
   img_At (field_of (Render round_flash dpi_1mm None)) 2 2 = White).
Proof.
  apply (Render_material_or_hole round_flash dpi_1mm None
           (field_of (Render round_flash dpi_1mm None)) 2 2).
  vm_compute. reflexivity.
Defined.

(** ** Stamps *)

(** Clearing operations one after the other clear the pixels any of them
    clears. *)
Lemma fold_clearing {A : Type} (op : A -> RGBA -> RGBA) (hit : A -> Z -> Z -> bool)
    (l : list A) :
  (forall a img,
     Rect (op a img) = Rect img /\
     forall px py, Pix (op a img) px py
                   = if In_rect px py (Rect img) && hit a px py then White else Pix img px py) ->
  forall img,
    Rect (fold_left (fun img a => op a img) l img) = Rect img /\
    forall px py,
      Pix (fold_left (fun img a => op a img) l img) px py
      = if In_rect px py (Rect img) && existsb (fun a => hit a px py) l
        then White else Pix img px py.
Proof.
  intros Hop. induction l as [|a l IH]; intros img; cbn [fold_left existsb].
  - split; [reflexivity|]. intros px py. rewrite andb_false_r. reflexivity.
  - destruct (Hop a img) as [HR1 HP1]. destruct (IH (op a img)) as [HR HP].
    split; [congruence|]. intros px py. rewrite HP, HP1, HR1.
    destruct (In_rect px py (Rect img)); cbn [andb]; [|reflexivity].
    destruct (hit a px py); cbn [orb]; [|reflexivity].
    destruct (existsb _ l); reflexivity.
Qed.

Lemma Set_pixel_pixels (img : RGBA) (x y : Z) (c : Color) :
  Rect (Set_pixel img x y c) = Rect img /\
  forall px py, Pix (Set_pixel img x y c) px py
                = if In_rect px py (Rect img) && ((x =? px) && (y =? py))
                  then c else Pix img px py.
Proof.
  split; [apply Rect_Set_pixel|]. intros px py. unfold Set_pixel.
  destruct (Z.eqb_spec x px) as [->|Hx].
  - destruct (Z.eqb_spec y py) as [->|Hy].
    + destruct (In_rect px py (Rect img)); cbn [Pix andb]; [|reflexivity].
      rewrite !Z.eqb_refl. reflexivity.
    + rewrite andb_false_r. destruct (In_rect px y (Rect img)); cbn [Pix]; [|reflexivity].
      destruct (Z.eqb_spec py y); [congruence|]. rewrite andb_false_r. reflexivity.
  - rewrite andb_false_r. destruct (In_rect x y (Rect img)); cbn [Pix]; [|reflexivity].
    destruct (Z.eqb_spec px x); [congruence|]. reflexivity.
Qed.

Lemma square_le (a r : Z) : 0 <= r -> a * a <= r * r -> - r <= a <= r.
Proof. intros Hr H. nia. Qed.

(** The disc [drawCircle] clears: the pixels of the field at most [r]
    from the centre, for a radius and a centre whose sums and squares fit
    an [int]. *)
Theorem drawCircle_disc (img : RGBA) (x0 y0 r : Z) :
  0 <= r < 2 ^ 31 ->
  Int.min_int <= x0 - r -> x0 + r <= Int.max_int ->
  Int.min_int <= y0 - r -> y0 + r <= Int.max_int ->
  Rect (drawCircle img x0 y0 r) = Rect img /\
  forall px py,
    Pix (drawCircle img x0 y0 r) px py
    = if In_rect px py (Rect img) &&
         ((px - x0) * (px - x0) + (py - y0) * (py - y0) <=? r * r)
      then White else Pix img px py.
Proof.
  intros Hr Hx1 Hx2 Hy1 Hy2. unfold Int.min_int, Int.max_int in *.
  assert (Hneg : Int.neg r = - r) by (apply wrap_in_range; unfold Int.min_int, Int.max_int; lia).
  unfold drawCircle, for_range. rewrite Hneg.
  set (l := seqZ (- r) (r - - r + 1)).
  set (hitx := fun (y x px py : Z) =>
         (Int.add (Int.mul x x) (Int.mul y y) <=? Int.mul r r) &&
         ((Int.add x0 x =? px) && (Int.add y0 y =? py))).
  assert (Hrow : forall y img,
            Rect (fold_left (fun img x =>
                    if Int.add (Int.mul x x) (Int.mul y y) <=? Int.mul r r
                    then Set_pixel img (Int.add x0 x) (Int.add y0 y) White else img) l img)
            = Rect img /\
            forall px py,
              Pix (fold_left (fun img x =>
                     if Int.add (Int.mul x x) (Int.mul y y) <=? Int.mul r r
                     then Set_pixel img (Int.add x0 x) (Int.add y0 y) White else img) l img)
                  px py
              = if In_rect px py (Rect img) && existsb (fun x => hitx y x px py) l
                then White else Pix img px py).
  { intros y img'.
    apply (fold_clearing
             (fun x img => if Int.add (Int.mul x x) (Int.mul y y) <=? Int.mul r r
                           then Set_pixel img (Int.add x0 x) (Int.add y0 y) White else img)
             (hitx y)).
    intros x img''. unfold hitx. destruct (_ <=? _); cbn [andb].
    - apply Set_pixel_pixels.
    - split; [reflexivity|]. intros px py. rewrite andb_false_r. reflexivity. }
  destruct (fold_clearing
              (fun y img => fold_left (fun img x =>
                    if Int.add (Int.mul x x) (Int.mul y y) <=? Int.mul r r
                    then Set_pixel img (Int.add x0 x) (Int.add y0 y) White else img) l img)
              (fun y px py => existsb (fun x => hitx y x px py) l) l Hrow img) as [HR HP].
  split; [exact HR|]. intros px py. rewrite HP.
  enough (E : existsb (fun y => existsb (fun x => hitx y x px py) l) l
              = ((px - x0) * (px - x0) + (py - y0) * (py - y0) <=? r * r))
    by (rewrite E; reflexivity).
  apply eq_iff_eq_true.
  etransitivity; [apply List.existsb_exists|]. etransitivity; [|symmetry; apply Z.leb_le].
  assert (Hin : forall a, In a l <-> - r <= a <= r).
  { intros a. unfold l. rewrite <- list_elem_of_In, elem_of_seqZ. lia. }
  assert (Hw : forall a b, - r <= a <= r -> - r <= b <= r ->
            Int.add (Int.mul a a) (Int.mul b b) = a * a + b * b /\ Int.mul r r = r * r).
  { intros a b Ha Hb. unfold Int.add, Int.mul.
    assert (0 <= a * a <= (2 ^ 31 - 1) * (2 ^ 31 - 1)) by nia.
    assert (0 <= b * b <= (2 ^ 31 - 1) * (2 ^ 31 - 1)) by nia.
    assert (0 <= r * r <= (2 ^ 31 - 1) * (2 ^ 31 - 1)) by nia.
    rewrite !(wrap_in_range (a * a)), !(wrap_in_range (b * b)), !(wrap_in_range (r * r)),
            wrap_in_range; unfold Int.min_int, Int.max_int; lia. }
  split.
  - intros (y & Hy & Hex). apply List.existsb_exists in Hex as (x & Hx & Hhit).
    apply Hin in Hx. apply Hin in Hy. unfold hitx in Hhit.
    apply andb_true_iff in Hhit as [Hc Hp]. apply andb_true_iff in Hp as [Hpx Hpy].
    pose proof (Hw x y Hx Hy) as [E1 E2]. rewrite E1, E2 in Hc. apply Z.leb_le in Hc.
    apply Z.eqb_eq in Hpx, Hpy. unfold Int.add in Hpx, Hpy.
    assert (Rx : Int.min_int <= x0 + x <= Int.max_int)
      by (unfold Int.min_int, Int.max_int; lia).
    assert (Ry : Int.min_int <= y0 + y <= Int.max_int)
      by (unfold Int.min_int, Int.max_int; lia).
    rewrite (wrap_in_range _ Rx) in Hpx. rewrite (wrap_in_range _ Ry) in Hpy.
    subst px py. replace (x0 + x - x0) with x by lia. replace (y0 + y - y0) with y by lia.
    exact Hc.
  - intros Hc.
    pose proof (Z.square_nonneg (px - x0)) as Sx.
    pose proof (Z.square_nonneg (py - y0)) as Sy.
    assert (Hx : - r <= px - x0 <= r) by (apply square_le; lia).
    assert (Hy : - r <= py - y0 <= r) by (apply square_le; lia).
    exists (py - y0). split; [apply Hin; exact Hy|].
    apply List.existsb_exists. exists (px - x0). split; [apply Hin; exact Hx|].
    unfold hitx. destruct (Hw _ _ Hx Hy) as [E1 E2]. rewrite E1, E2.
    apply andb_true_iff. split; [apply Z.leb_le; exact Hc|].
    unfold Int.add. rewrite !wrap_in_range by (unfold Int.min_int, Int.max_int; lia).
    apply andb_true_iff. split; apply Z.eqb_eq; lia.
Qed.

Lemma drawCircle_disc_witness :
  Rect (drawCircle sample_field 1 1 1) = Rect sample_field /\
  forall px py,
    Pix (drawCircle sample_field 1 1 1) px py
    = if In_rect px py (Rect sample_field) &&
         ((px - 1) * (px - 1) + (py - 1) * (py - 1) <=? 1 * 1)
      then White else Pix sample_field px py.
Proof.
  apply (drawCircle_disc sample_field 1 1 1); unfold Int.min_int, Int.max_int; lia.
Defined.

(** A negative radius clears nothing. *)
Theorem drawCircle_negative_radius (img : RGBA) (x0 y0 r : Z) :
  Int.min_int < r < 0 -> drawCircle img x0 y0 r = img.
Proof.
  intros Hr. unfold drawCircle, for_range.
  assert (Hneg : Int.neg r = - r).
  { apply wrap_in_range. unfold Int.min_int, Int.max_int in *. lia. }
  rewrite Hneg. rewrite seqZ_nil by lia. reflexivity.
Qed.

Lemma drawCircle_negative_radius_witness : drawCircle sample_field 1 1 (-3) = sample_field.
Proof.
  apply (drawCircle_negative_radius sample_field 1 1 (-3)). unfold Int.min_int. lia.
Defined.

Lemma In_Intersect_eq (x y : Z) (r s : Rectangle) :
  In_rect x y (Intersect r s) = In_rect x y r && In_rect x y s.
Proof.
  apply eq_iff_eq_true. rewrite andb_true_iff. split; [apply In_Intersect|].
  intros [Hr Hs]. unfold Intersect.
  unfold In_rect in Hr, Hs.
  repeat (apply andb_true_iff in Hr as [Hr ?]). repeat (apply andb_true_iff in Hs as [Hs ?]).
  apply Z.leb_le in Hr, Hs, H0, H3. apply Z.ltb_lt in H, H1, H2, H4.
  destruct (Empty _) eqn:E.
  - exfalso. unfold Empty in E. cbn in E. apply orb_true_iff in E as [E|E];
      apply Z.leb_le in E; lia.
  - unfold In_rect. cbn.
    repeat (apply andb_true_iff; split); first [apply Z.leb_le; lia | apply Z.ltb_lt; lia].
Qed.

(** What [draw.Draw] fills of a rectangle at most 1e9 wide and high
    whose corners are far from the ends of [int]: its part in the field. *)
Lemma clip_within (img : RGBA) (r : Rectangle) (px py : Z) :
  - 2 ^ 62 <= Min_X r -> - 2 ^ 62 <= Min_Y r ->
  Max_X r <= Min_X r + 10 ^ 9 -> Max_Y r <= Min_Y r + 10 ^ 9 ->
  Min_X r <= 2 ^ 62 -> Min_Y r <= 2 ^ 62 ->
  In_rect px py (clip img r) = In_rect px py (Rect img) && In_rect px py r.
Proof.
  intros HX HY HW HH HX' HY'. unfold clip. rewrite !In_Intersect_eq.
  destruct (In_rect px py r) eqn:Hr; [|rewrite andb_false_r; reflexivity].
  rewrite (andb_comm true). cbn [andb].
  enough (E : In_rect px py (Add_rect Uniform_Bounds (Min_X r) (Min_Y r)) = true)
    by (rewrite E; apply andb_true_r).
  unfold In_rect in Hr. repeat (apply andb_true_iff in Hr as [Hr ?]).
  apply Z.leb_le in Hr, H0. apply Z.ltb_lt in H, H1.
  unfold In_rect, Add_rect, Uniform_Bounds, Int.add. cbn [Min_X Min_Y Max_X Max_Y].
  rewrite !wrap_in_range by (unfold Int.min_int, Int.max_int; lia).
  repeat (apply andb_true_iff; split); first [apply Z.leb_le; lia | apply Z.ltb_lt; lia].
Qed.

Lemma quot_half (w : Z) : Z.abs (Z.quot w 2) = Z.abs w / 2.
Proof.
  destruct (Z.le_gt_cases 0 w) as [H|H].
  - rewrite Z.quot_div_nonneg by lia. rewrite !Z.abs_eq; [reflexivity | lia |].
    apply Z.div_pos; lia.
  - replace w with (- - w) at 1 by lia. rewrite Z.quot_opp_l by lia.
    rewrite Z.abs_opp, Z.quot_div_nonneg by lia.
    rewrite Z.abs_eq by (apply Z.div_pos; lia). rewrite Z.abs_neq by lia. reflexivity.
Qed.

(** The pixels of the rectangle stamped around [(x, y)]. *)
Lemma centered_rect_pixels (x y w h px py : Z) :
  - 2 ^ 31 <= x <= 2 ^ 31 -> - 2 ^ 31 <= y <= 2 ^ 31 ->
  Z.abs w <= 10 ^ 9 -> Z.abs h <= 10 ^ 9 ->
  let r := centered_rect x y w h in
  In_rect px py r
  = (x - Z.abs w / 2 <=? px) && (px <? x + Z.abs w / 2) &&
    (y - Z.abs h / 2 <=? py) && (py <? y + Z.abs h / 2) /\
  - 2 ^ 62 <= Min_X r /\ - 2 ^ 62 <= Min_Y r /\
  Max_X r <= Min_X r + 10 ^ 9 /\ Max_Y r <= Min_Y r + 10 ^ 9 /\
  Min_X r <= 2 ^ 62 /\ Min_Y r <= 2 ^ 62.
Proof.
  intros Hx Hy Hw Hh. cbv zeta. rewrite <- !quot_half.
  assert (Qw : 2 * Z.abs (Z.quot w 2) <= Z.abs w).
  { rewrite quot_half. apply Z.mul_div_le. lia. }
  assert (Qh : 2 * Z.abs (Z.quot h 2) <= Z.abs h).
  { rewrite quot_half. apply Z.mul_div_le. lia. }
  unfold centered_rect, Int.quo, Int.sub, Int.add.
  rewrite !(wrap_in_range (Z.quot w 2)), !(wrap_in_range (Z.quot h 2))
    by (unfold Int.min_int, Int.max_int; lia).
  rewrite !wrap_in_range by (unfold Int.min_int, Int.max_int; lia).
  unfold image_Rect, In_rect.
  destruct (Z.ltb_spec (x + Z.quot w 2) (x - Z.quot w 2));
    destruct (Z.ltb_spec (y + Z.quot h 2) (y - Z.quot h 2));
    cbn [Min_X Min_Y Max_X Max_Y];
    (split; [|lia]);
    first [ rewrite (Z.abs_eq (Z.quot w 2)) by lia
          | rewrite (Z.abs_neq (Z.quot w 2)) by lia ];
    first [ rewrite (Z.abs_eq (Z.quot h 2)) by lia
          | rewrite (Z.abs_neq (Z.quot h 2)) by lia ];
    repeat match goal with |- context [?a - - ?b] => replace (a - - b) with (a + b) by lia end;
    repeat match goal with |- context [?a + - ?b] => replace (a + - b) with (a - b) by lia end;
    reflexivity.
Qed.

(** The stamp of a rectangular or obround aperture: with [w] and [h] its
    sides in pixels, the pixels of the field from [|w|/2] before the
    centre to [|w|/2] after it, and so for [h].  The stamp is an even
    number of pixels wide and high; a side below two pixels clears
    nothing. *)
Theorem rectangle_stamp (gf : GerberFile) (img : RGBA) (x y : Z) (ap : Aperture)
    (scale : float64) (c : Color) (m0 m1 : float64) (rest : list float64) :
  ap_Type ap = ApertureRect \/ ap_Type ap = ApertureObround ->
  ap_Modifiers ap = m0 :: m1 :: rest ->
  - 2 ^ 31 <= x <= 2 ^ 31 -> - 2 ^ 31 <= y <= 2 ^ 31 ->
  let w := F64.to_int (F64.mul m0 scale) in
  let h := F64.to_int (F64.mul m1 scale) in
  Z.abs w <= 10 ^ 9 -> Z.abs h <= 10 ^ 9 ->
  Rect (drawAperture gf img x y ap scale c) = Rect img /\
  (forall px py,
     Pix (drawAperture gf img x y ap scale c) px py
     = if In_rect px py (Rect img) &&
          ((x - Z.abs w / 2 <=? px) && (px <? x + Z.abs w / 2) &&
           (y - Z.abs h / 2 <=? py) && (py <? y + Z.abs h / 2))
       then c else Pix img px py) /\
  (Z.abs w < 2 \/ Z.abs h < 2 ->
   forall px py, Pix (drawAperture gf img x y ap scale c) px py = Pix img px py).
Proof.
  intros Hty Hmods Hx Hy w h Hw Hh.
  assert (Hdraw : drawAperture gf img x y ap scale c
                  = Draw_uniform img (centered_rect x y w h) c).
  { unfold drawAperture. rewrite Hmods.
    destruct Hty as [-> | ->]; reflexivity. }
  rewrite Hdraw. destruct (Draw_uniform_pixels img (centered_rect x y w h) c) as [HR HP].
  assert (Hpix : forall px py,
     Pix (Draw_uniform img (centered_rect x y w h) c) px py
     = if In_rect px py (Rect img) &&
          ((x - Z.abs w / 2 <=? px) && (px <? x + Z.abs w / 2) &&
           (y - Z.abs h / 2 <=? py) && (py <? y + Z.abs h / 2))
       then c else Pix img px py).
  { intros px py. rewrite HP.
    destruct (centered_rect_pixels x y w h px py Hx Hy Hw Hh)
      as (E & B1 & B2 & B3 & B4 & B5 & B6).
    rewrite clip_within by assumption. rewrite E. reflexivity. }
  split; [exact HR|]. split; [exact Hpix|].
  intros Hsmall px py. rewrite Hpix.
  assert (Z.abs w / 2 = 0 \/ Z.abs h / 2 = 0) as [E|E].
  { destruct Hsmall; [left | right]; apply Z.div_small; lia. }
  - rewrite E. destruct (Z.leb_spec (x - 0) px); destruct (Z.ltb_spec px (x + 0));
      try lia; cbn [andb]; rewrite ?andb_false_r; reflexivity.
  - rewrite E. destruct (Z.leb_spec (y - 0) py); destruct (Z.ltb_spec py (y + 0));
      try lia; cbn [andb]; rewrite ?andb_false_r; reflexivity.
Qed.

Lemma rectangle_stamp_witness :
  Rect (drawAperture NewGerberFile sample_field 2 1 thin_rect (F64.of_Z 1) White)
  = Rect sample_field /\
  (forall px py,
     Pix (drawAperture NewGerberFile sample_field 2 1 thin_rect (F64.of_Z 1) White) px py
     = if In_rect px py (Rect sample_field) &&
          ((2 - Z.abs 3 / 2 <=? px) && (px <? 2 + Z.abs 3 / 2) &&
           (1 - Z.abs 1 / 2 <=? py) && (py <? 1 + Z.abs 1 / 2))
       then White else Pix sample_field px py) /\
  (Z.abs 3 < 2 \/ Z.abs 1 < 2 ->
   forall px py,
     Pix (drawAperture NewGerberFile sample_field 2 1 thin_rect (F64.of_Z 1) White) px py
     = Pix sample_field px py).
Proof.
  apply (rectangle_stamp NewGerberFile sample_field 2 1 thin_rect (F64.of_Z 1) White
           (F64.of_Z 3) (F64.of_Z 1) []).
  - left. reflexivity.
  - reflexivity.
  - lia.
  - lia.
  - vm_compute. discriminate.
  - vm_compute. discriminate.
Defined.

(** A stroke whose ends fall on the same pixel is one stamp there; a
    draw that stays within a pixel is replayed as a flash is. *)
Theorem draw_within_pixel (gf : GerberFile) (b : Bounds) (heightMM scale : float64)
    (st : Pen) (cmd : GerberCommand) :
  (forall img x y ap c,
     drawLine gf img x y x y ap scale c = drawAperture gf img x y ap scale c) /\
  (cmd_Type cmd = "DRAW" ->
   toPix b heightMM scale (curX st) (curY st)
   = toPix b heightMM scale (fst (move_pen (curX st, curY st) cmd))
                            (snd (move_pen (curX st, curY st) cmd)) ->
   render_step gf b heightMM scale st cmd
   = render_step gf b heightMM scale st (with_Type cmd "FLASH")).
Proof.
  assert (Hline : forall img x y ap c,
            drawLine gf img x y x y ap scale c = drawAperture gf img x y ap scale c).
  { intros img x y ap c. unfold drawLine, Int.sub. rewrite !Z.sub_diag.
    change (F64.to_int _ =? 0) with true. reflexivity. }
  split; [exact Hline|].
  intros Hty Hpix. unfold render_step. rewrite Hty. cbn [cmd_Type with_Type String.eqb].
  change (move_pen (curX st, curY st) (with_Type cmd "FLASH"))
    with (move_pen (curX st, curY st) cmd).
  destruct (move_pen (curX st, curY st) cmd) as [cX cY]. cbn [fst snd] in Hpix.
  change (("DRAW" =? "APERTURE")%string) with false.
  change (("DRAW" =? "FLASH")%string) with false.
  change (("DRAW" =? "DRAW")%string) with true.
  change (("FLASH" =? "APERTURE")%string) with false.
  change (("FLASH" =? "FLASH")%string) with true.
  cbv iota. destruct (Apertures (State gf) !! curDCode st) as [ap|]; [|reflexivity].
  rewrite Hpix. destruct (toPix b heightMM scale cX cY) as [px py].
  rewrite Hline. reflexivity.
Qed.

Lemma draw_within_pixel_witness :
  render_step round_flash (pad default_extent) (F64.of_Z 14) (F64.of_Z 1)
    {| pen_img := filled_field 14 14; curX := F64.of_Z 3; curY := F64.of_Z 5; curDCode := 10 |}
    {| cmd_Type := "DRAW"; cmd_X := Some (F64.of_Z 3); cmd_Y := None; cmd_D := Some 1 |}
  = render_step round_flash (pad default_extent) (F64.of_Z 14) (F64.of_Z 1)
    {| pen_img := filled_field 14 14; curX := F64.of_Z 3; curY := F64.of_Z 5; curDCode := 10 |}
    {| cmd_Type := "FLASH"; cmd_X := Some (F64.of_Z 3); cmd_Y := None; cmd_D := Some 1 |}.
Proof.
  apply (draw_within_pixel round_flash (pad default_extent) (F64.of_Z 14) (F64.of_Z 1)
           {| pen_img := filled_field 14 14; curX := F64.of_Z 3; curY := F64.of_Z 5;
              curDCode := 10 |}
           {| cmd_Type := "DRAW"; cmd_X := Some (F64.of_Z 3); cmd_Y := None;
              cmd_D := Some 1 |}).
  - reflexivity.
  - reflexivity.
Defined.

(** ** Stamps as sets of pixels *)

(** A clearing operation given by the set of pixels it clears. *)
Lemma clears_nothing (img : RGBA) :
  Rect img = Rect img /\
  forall px py, Pix img px py
                = if In_rect px py (Rect img) && false then White else Pix img px py.
Proof. split; [reflexivity|]. intros px py. rewrite andb_false_r. reflexivity. Qed.

Lemma Color_white_dec (c : Color) : c = White \/ c <> White.
Proof.
  destruct c as [r g b a].
  destruct (Z.eq_dec r 255) as [->|]; [|right; intros [=]; contradiction].
  destruct (Z.eq_dec g 255) as [->|]; [|right; intros [=]; contradiction].
  destruct (Z.eq_dec b 255) as [->|]; [|right; intros [=]; contradiction].
  destruct (Z.eq_dec a 255) as [->|]; [left; reflexivity | right; intros [=]; contradiction].
Qed.

Lemma drawCircle_hit (x0 y0 r : Z) :
  exists hit : Z -> Z -> bool, forall img,
    Rect (drawCircle img x0 y0 r) = Rect img /\
    forall px py, Pix (drawCircle img x0 y0 r) px py
                  = if In_rect px py (Rect img) && hit px py then White else Pix img px py.
Proof.
  unfold drawCircle, for_range.
  set (l := seqZ (Int.neg r) (r - Int.neg r + 1)).
  set (hitx := fun (y x px py : Z) =>
         (Int.add (Int.mul x x) (Int.mul y y) <=? Int.mul r r) &&
         ((Int.add x0 x =? px) && (Int.add y0 y =? py))).
  exists (fun px py => existsb (fun y => existsb (fun x => hitx y x px py) l) l).
  apply (fold_clearing
           (fun y img => fold_left (fun img x =>
                 if Int.add (Int.mul x x) (Int.mul y y) <=? Int.mul r r
                 then Set_pixel img (Int.add x0 x) (Int.add y0 y) White else img) l img)
           (fun y px py => existsb (fun x => hitx y x px py) l) l).
  intros y img.
  apply (fold_clearing
           (fun x img => if Int.add (Int.mul x x) (Int.mul y y) <=? Int.mul r r
                         then Set_pixel img (Int.add x0 x) (Int.add y0 y) White else img)
           (hitx y)).
  intros x img'. unfold hitx. destruct (_ <=? _); cbn [andb].
  - apply Set_pixel_pixels.
  - apply clears_nothing.
Qed.

Lemma Draw_uniform_hit (r : Rectangle) :
  exists hit : Z -> Z -> bool, forall img,
    Rect (Draw_uniform img r White) = Rect img /\
    forall px py, Pix (Draw_uniform img r White) px py
                  = if In_rect px py (Rect img) && hit px py then White else Pix img px py.
Proof.
  exists (fun px py => In_rect px py r &&
                       In_rect px py (Add_rect Uniform_Bounds (Min_X r) (Min_Y r))).
  intros img. destruct (Draw_uniform_pixels img r White) as [HR HP].
  split; [exact HR|]. intros px py. rewrite HP. unfold clip. rewrite !In_Intersect_eq.
  destruct (In_rect px py r); destruct (In_rect px py (Rect img));
    destruct (In_rect px py _); reflexivity.
Qed.

Lemma fold_hit {A : Type} (op : A -> RGBA -> RGBA) (l : list A) :
  (forall a, exists hit : Z -> Z -> bool, forall img,
     Rect (op a img) = Rect img /\
     forall px py, Pix (op a img) px py
                   = if In_rect px py (Rect img) && hit px py then White else Pix img px py) ->
  exists hit : Z -> Z -> bool, forall img,
    Rect (fold_left (fun img a => op a img) l img) = Rect img /\
    forall px py, Pix (fold_left (fun img a => op a img) l img) px py
                  = if In_rect px py (Rect img) && hit px py then White else Pix img px py.
Proof.
  intros Hop. induction l as [|a l [hl IH]]; cbn [fold_left].
  - exists (fun _ _ => false). intros img. apply clears_nothing.
  - destruct (Hop a) as [ha Ha]. exists (fun px py => ha px py || hl px py).
    intros img. destruct (Ha img) as [HR1 HP1]. destruct (IH (op a img)) as [HR HP].
    split; [congruence|]. intros px py. rewrite HP, HP1, HR1.
    destruct (In_rect px py (Rect img)); cbn [andb]; [|reflexivity].
    destruct (ha px py); destruct (hl px py); reflexivity.
Qed.

Lemma drawPrimitive_hit (x y : Z) (scale : float64) (prim : MacroPrimitive) :
  exists hit : Z -> Z -> bool, forall img,
    Rect (drawPrimitive x y scale White img prim) = Rect img /\
    forall px py, Pix (drawPrimitive x y scale White img prim) px py
                  = if In_rect px py (Rect img) && hit px py then White else Pix img px py.
Proof.
  unfold drawPrimitive.
  destruct (prim_Code prim =? 1).
  { destruct (4 <=? _)%nat; [apply drawCircle_hit|].
    exists (fun _ _ => false). intros img. apply clears_nothing. }
  destruct (prim_Code prim =? 21).
  { destruct (6 <=? _)%nat; [apply Draw_uniform_hit|].
    exists (fun _ _ => false). intros img. apply clears_nothing. }
  exists (fun _ _ => false). intros img. apply clears_nothing.
Qed.

(** What a stamp clears does not depend on the field it is made on. *)
Lemma drawAperture_hit (gf : GerberFile) (x y : Z) (ap : Aperture) (scale : float64) :
  exists hit : Z -> Z -> bool, forall img,
    Rect (drawAperture gf img x y ap scale White) = Rect img /\
    forall px py, Pix (drawAperture gf img x y ap scale White) px py
                  = if In_rect px py (Rect img) && hit px py then White else Pix img px py.
Proof.
  unfold drawAperture.
  destruct (String.eqb (ap_Type ap) ApertureCircle).
  { destruct (0 <? _)%nat; [apply drawCircle_hit|].
    exists (fun _ _ => false). intros img. apply clears_nothing. }
  destruct (_ || _).
  { destruct (2 <=? _)%nat; [apply Draw_uniform_hit|].
    exists (fun _ _ => false). intros img. apply clears_nothing. }
  destruct (Macros (State gf) !! ap_Type ap) as [macro|].
  - apply (fold_hit (fun prim img => drawPrimitive x y scale White img prim)).
    intros prim. apply drawPrimitive_hit.
  - exists (fun _ _ => false). intros img. apply clears_nothing.
Qed.

(** A stroke is its stamps, one after the other. *)
Lemma drawLine_centres (gf : GerberFile) (img : RGBA) (x1 y1 x2 y2 : Z) (ap : Aperture)
    (scale : float64) (c : Color) :
  drawLine gf img x1 y1 x2 y2 ap scale c
  = fold_left (fun img p => drawAperture gf img (fst p) (snd p) ap scale c)
      (stroke_centres x1 y1 x2 y2) img.
Proof.
  unfold drawLine, stroke_centres. cbv zeta. destruct (_ =? 0); [reflexivity|].
  unfold for_range. generalize (seqZ 0 (F64.to_int
    (F64.sqrt (F64.add (F64.mul (F64.of_Z (Int.sub x2 x1)) (F64.of_Z (Int.sub x2 x1)))
                       (F64.mul (F64.of_Z (Int.sub y2 y1)) (F64.of_Z (Int.sub y2 y1)))))
    - 0 + 1)).
  intros l. revert img. induction l as [|i l IH]; intros img; cbn [fold_left map];
    [reflexivity|]. apply IH.
Qed.

Lemma fold_hit_union {A : Type} (op : A -> RGBA -> RGBA) (l : list A) (px py : Z) :
  (forall a, exists hit : Z -> Z -> bool, forall img,
     Rect (op a img) = Rect img /\
     forall px py, Pix (op a img) px py
                   = if In_rect px py (Rect img) && hit px py then White else Pix img px py) ->
  forall img,
    Rect (fold_left (fun img a => op a img) l img) = Rect img /\
    (Pix (fold_left (fun img a => op a img) l img) px py = White <->
     Pix img px py = White \/ exists a, In a l /\ Pix (op a img) px py = White) /\
    (Pix (fold_left (fun img a => op a img) l img) px py <> White ->
     Pix (fold_left (fun img a => op a img) l img) px py = Pix img px py).
Proof.
  intros Hop. induction l as [|a l IH]; intros img; cbn [fold_left].
  - split; [reflexivity|]. split; [|reflexivity]. split; [left; assumption|].
    intros [H|(a & [] & _)]. exact H.
  - destruct (Hop a) as [ha Ha]. destruct (Ha img) as [HR1 HP1].
    destruct (IH (op a img)) as (HR & HW & HK).
    split; [congruence|]. split; [split|].
    + intros H. apply HW in H as [H|(b & Hb & H)].
      * destruct (Color_white_dec (Pix img px py)) as [Hi|Hi]; [left; exact Hi|].
        right. exists a. split; [left; reflexivity | exact H].
      * destruct (Hop b) as [hb Hb']. destruct (Hb' (op a img)) as [_ P2].
        destruct (Hb' img) as [_ P3]. rewrite P2, HR1 in H.
        destruct (In_rect px py (Rect img) && hb px py) eqn:E.
        { right. exists b. split; [right; exact Hb|]. rewrite P3, E. reflexivity. }
        { rewrite HP1 in H. destruct (In_rect px py (Rect img) && ha px py) eqn:E'.
          - right. exists a. split; [left; reflexivity|]. rewrite HP1, E'. reflexivity.
          - left. exact H. }
    + intros [H|(b & [<-|Hb] & H)].
      * apply HW. left. rewrite HP1, H. destruct (_ && _); reflexivity.
      * apply HW. left. exact H.
      * apply HW. right. exists b. split; [exact Hb|].
        destruct (Hop b) as [hb Hb']. destruct (Hb' (op a img)) as [_ P2].
        destruct (Hb' img) as [_ P3]. rewrite P2, HR1. rewrite P3 in H.
        destruct (In_rect px py (Rect img) && hb px py); [reflexivity|].
        rewrite HP1, H. destruct (_ && _); reflexivity.
    + intros Hn. rewrite (HK Hn). rewrite HP1.
      destruct (In_rect px py (Rect img) && ha px py) eqn:E; [|reflexivity].
      exfalso. apply Hn. apply HW. left. rewrite HP1, E. reflexivity.
Qed.

(** Stamps are sets of pixels: stamping twice is stamping once, two
    stamps clear the same pixels in either order, and a stroke clears
    exactly what its stamps clear, each made on the field as it was. *)
Theorem stamps_are_sets (gf : GerberFile) (img : RGBA) (scale : float64)
    (x y x' y' : Z) (ap ap' : Aperture) (px py : Z) :
  Pix (drawAperture gf (drawAperture gf img x y ap scale White) x y ap scale White) px py
  = Pix (drawAperture gf img x y ap scale White) px py /\
  Pix (drawAperture gf (drawAperture gf img x y ap scale White) x' y' ap' scale White) px py
  = Pix (drawAperture gf (drawAperture gf img x' y' ap' scale White) x y ap scale White) px py /\
  (Pix (drawLine gf img x y x' y' ap scale White) px py = White <->
   Pix img px py = White \/
   exists c, In c (stroke_centres x y x' y') /\
             Pix (drawAperture gf img (fst c) (snd c) ap scale White) px py = White) /\
  (Pix (drawLine gf img x y x' y' ap scale White) px py <> White ->
   Pix (drawLine gf img x y x' y' ap scale White) px py = Pix img px py).
Proof.
  destruct (drawAperture_hit gf x y ap scale) as [h H].
  destruct (drawAperture_hit gf x' y' ap' scale) as [h' H'].
  split; [|split].
  - destruct (H img) as [R1 P1]. destruct (H (drawAperture gf img x y ap scale White))
      as [R2 P2].
    rewrite P2, P1, R1. destruct (In_rect px py (Rect img) && h px py); reflexivity.
  - destruct (H img) as [R1 P1]. destruct (H' img) as [R1' P1'].
    destruct (H' (drawAperture gf img x y ap scale White)) as [R2 P2].
    destruct (H (drawAperture gf img x' y' ap' scale White)) as [R2' P2'].
    rewrite P2, P2', P1, P1', R1, R1'.
    destruct (In_rect px py (Rect img)); cbn [andb]; [|reflexivity].
    destruct (h px py); destruct (h' px py); reflexivity.
  - rewrite drawLine_centres.
    apply (fold_hit_union (fun c img => drawAperture gf img (fst c) (snd c) ap scale White)
             (stroke_centres x y x' y') px py).
    intros c. apply drawAperture_hit.
Qed.

(** ** Strips and runs *)

Section RunFacts.
Context {I : Type} `{Image I}.
Variable img : I.

Lemma replay_emit_strip (l acc : list Strip) : replay emit_strip l acc = acc ++ l.
Proof.
  revert acc. induction l as [|s l IH]; intros acc; cbn [replay fold_left].
  - rewrite app_nil_r. reflexivity.
  - unfold replay in IH. rewrite IH. unfold emit_strip. destruct s as [sx y n].
    cbn [strip_start strip_row strip_len]. rewrite <- app_assoc. reflexivity.
Qed.

Lemma scan_row_app (width y : Z) (l0 : list Strip) :
  scan_row emit_strip img width y l0 = l0 ++ scan_row emit_strip img width y [].
Proof.
  rewrite <- (replay_emit_strip (scan_row emit_strip img width y []) l0).
  rewrite <- (scan_row_replay img emit_strip l0 width y []). reflexivity.
Qed.

Lemma maximal_run_wider (width width' : Z) (s : Strip) :
  maximal_run img width s -> strip_start s + strip_len s < width -> width <= width' ->
  maximal_run img width' s.
Proof.
  intros (H1 & H2 & H3 & H4 & H5 & H6) Hlt Hle.
  repeat (split; [first [assumption | lia]|]). intros _. apply H6. exact Hlt.
Qed.

Lemma scan_pixel_scanned (y k : Z) (st : Z * list Strip) :
  0 <= k <= Int.max_int ->
  row_scanned img y k st -> row_scanned img y (k + 1) (scan_pixel emit_strip img y k st).
Proof.
  intros Hk. destruct st as [sx l]. unfold row_scanned, scan_pixel.
  intros (Hl & Hsort & Hopen & Hcov).
  destruct (isSolid (img_At img k y)) eqn:Hs.
  - destruct (Z.eqb_spec sx (-1)) as [Hm|Hm].
    + (* a strip opens *)
      destruct Hopen as [[_ Hprev]|[Hr _]]; [|lia].
      split; [|split; [exact Hsort|split]].
      * eapply Forall_impl; [exact Hl|]. cbn beta. intros s (Hy & Hrun & Hend & _).
        split; [exact Hy|]. split; [exact Hrun|]. split; [lia|]. intros _. lia.
      * right. split; [lia|]. split.
        { intros x Hx. assert (x = k) by lia. subst x. exact Hs. }
        { intros Hpos. replace (k - 1) with (k - 1) by lia. apply Hprev. exact Hpos. }
      * intros x Hx Hsolid. destruct (Z.eq_dec x k) as [->|Hne]; [left; lia|].
        destruct (Hcov x ltac:(lia) Hsolid) as [[Hc _]|Hex]; [contradiction|].
        right. exact Hex.
    + (* the open strip goes on *)
      destruct Hopen as [[Hc _]|(Hr & Hrun & Hleft)]; [contradiction|].
      split; [|split; [exact Hsort|split]].
      * eapply Forall_impl; [exact Hl|]. cbn beta. intros s (Hy & Hrun' & Hend & Hsx).
        split; [exact Hy|]. split; [exact Hrun'|]. split; [lia|]. exact Hsx.
      * right. split; [lia|]. split; [|exact Hleft].
        intros x Hx. destruct (Z.eq_dec x k) as [->|Hne]; [exact Hs | apply Hrun; lia].
      * intros x Hx Hsolid. destruct (Z.eq_dec x k) as [->|Hne]; [left; split; [exact Hm | lia]|].
        apply Hcov; [lia | exact Hsolid].
  - destruct (Z.eqb_spec sx (-1)) as [Hm|Hm]; cbn [negb].
    + (* between strips *)
      split; [|split; [exact Hsort|split]].
      * eapply Forall_impl; [exact Hl|]. cbn beta. intros s (Hy & Hrun & Hend & _).
        split; [exact Hy|]. split; [exact Hrun|]. split; [lia|]. intros Hc. contradiction.
      * left. split; [exact Hm|]. intros _. replace (k + 1 - 1) with k by lia. exact Hs.
      * intros x Hx Hsolid. destruct (Z.eq_dec x k) as [->|Hne]; [congruence|].
        destruct (Hcov x ltac:(lia) Hsolid) as [[Hc _]|Hex]; [contradiction|].
        right. exact Hex.
    + (* the open strip ends *)
      destruct Hopen as [[Hc _]|(Hr & Hrun & Hleft)]; [contradiction|].
      assert (Hwrap : Int.sub k sx = k - sx).
      { unfold Int.sub. apply wrap_in_range. unfold Int.min_int, Int.max_int in *. lia. }
      rewrite Hwrap. unfold emit_strip.
      set (new := {| strip_start := sx; strip_row := y; strip_len := k - sx |}).
      split; [|split; [|split]].
      * apply Forall_app. split.
        { eapply Forall_impl; [exact Hl|]. cbn beta. intros s (Hy & Hrun' & Hend & Hsx).
          split; [exact Hy|]. split; [exact Hrun'|]. split; [lia|]. intros Hc. contradiction. }
        apply List.Forall_cons; [|apply List.Forall_nil].
        unfold maximal_run, new. cbn [strip_start strip_row strip_len].
        replace (sx + (k - sx)) with k by lia.
        split; [reflexivity|]. split.
        { split; [lia|]. split; [lia|]. split; [lia|]. split; [exact Hrun|].
          split; [exact Hleft|]. intros _. exact Hs. }
        split; [lia|]. intros Hc. contradiction.
      * apply StronglySorted_app_2; [|exact Hsort|].
        { intros s t Hin Ht. apply list_elem_of_singleton in Ht. subst t.
          rewrite List.Forall_forall in Hl. apply list_elem_of_In in Hin.
          destruct (Hl s Hin) as (Hy & _ & _ & Hsx).
          right. unfold new. cbn [strip_start strip_row strip_len]. split; [exact Hy|].
          apply Hsx. exact Hm. }
        { apply SSorted_cons; [apply SSorted_nil | apply List.Forall_nil]. }
      * left. split; [reflexivity|]. intros _. replace (k + 1 - 1) with k by lia. exact Hs.
      * intros x Hx Hsolid. destruct (Z.eq_dec x k) as [->|Hne]; [congruence|].
        right. destruct (Hcov x ltac:(lia) Hsolid) as [[_ Hge]|(s & Hin & His)].
        { exists new. split; [apply elem_of_app; right; apply list_elem_of_singleton; reflexivity|].
          unfold in_strip, new. cbn [strip_start strip_row strip_len]. lia. }
        { exists s. split; [apply elem_of_app; left; exact Hin | exact His]. }
Qed.

Lemma scan_pixels_scanned (y : Z) (k : nat) :
  Z.of_nat k <= Int.max_int ->
  row_scanned img y (Z.of_nat k)
    (fold_left (fun s i => scan_pixel emit_strip img y i s) (seqZ 0 (Z.of_nat k)) (-1, [])).
Proof.
  induction k as [|k IH]; intros Hk.
  - rewrite seqZ_nil by (simpl; lia). cbn [fold_left]. unfold row_scanned.
    split; [apply List.Forall_nil|]. split; [apply SSorted_nil|].
    split; [left; split; [reflexivity | simpl; lia]|].
    intros x Hx. simpl in Hx. lia.
  - rewrite seqZ_S, fold_left_app. cbn [fold_left]. rewrite Z.add_0_l.
    replace (Z.of_nat (S k)) with (Z.of_nat k + 1) by lia.
    apply scan_pixel_scanned; [lia|]. apply IH. lia.
Qed.

(** The strips of one row. *)
Lemma scan_row_scanned (width y : Z) :
  width <= Int.max_int ->
  let l := scan_row emit_strip img width y [] in
  Forall (fun s => strip_row s = y /\ maximal_run img width s) l /\
  StronglySorted strip_before l /\
  (forall x, 0 <= x < width -> isSolid (img_At img x y) = true ->
             exists s, s ∈ l /\ in_strip x y s).
Proof.
  intros Hw. cbv zeta. unfold scan_row, for_range.
  replace (width - 1 - 0 + 1) with width by lia.
  destruct (Z.le_gt_cases width 0) as [Hneg|Hpos].
  { rewrite seqZ_nil by lia. cbn [fold_left]. rewrite Z.eqb_refl. cbn [negb].
    split; [apply List.Forall_nil|]. split; [apply SSorted_nil|]. intros x Hx. lia. }
  pose proof (scan_pixels_scanned y (Z.to_nat width)) as Hinv.
  rewrite Z2Nat.id in Hinv by lia. specialize (Hinv Hw).
  destruct (fold_left (fun s i => scan_pixel emit_strip img y i s) (seqZ 0 width) (-1, []))
    as [sx l] eqn:E.
  unfold row_scanned in Hinv. destruct Hinv as (Hl & Hsort & Hopen & Hcov).
  assert (Hclosed : Forall (fun s => strip_row s = y /\ maximal_run img width s) l).
  { eapply Forall_impl; [exact Hl|]. cbn beta. intros s (Hy & Hrun & Hend & _).
    split; [exact Hy|]. apply (maximal_run_wider _ _ _ Hrun); lia. }
  destruct (Z.eqb_spec sx (-1)) as [Hm|Hm]; cbn [negb].
  - split; [exact Hclosed|]. split; [exact Hsort|].
    intros x Hx Hsolid. destruct (Hcov x Hx Hsolid) as [[Hc _]|Hex]; [contradiction | exact Hex].
  - destruct Hopen as [[Hc _]|(Hr & Hrun & Hleft)]; [contradiction|].
    assert (Hwrap : Int.sub width sx = width - sx).
    { unfold Int.sub. apply wrap_in_range. unfold Int.min_int, Int.max_int in *. lia. }
    rewrite Hwrap. unfold emit_strip.
    set (new := {| strip_start := sx; strip_row := y; strip_len := width - sx |}).
    split; [|split].
    + apply Forall_app. split; [exact Hclosed|].
      apply List.Forall_cons; [|apply List.Forall_nil].
      unfold maximal_run, new. cbn [strip_start strip_row strip_len].
      replace (sx + (width - sx)) with width by lia.
      split; [reflexivity|]. split; [lia|]. split; [lia|]. split; [lia|].
      split; [exact Hrun|]. split; [exact Hleft|]. intros Hc. lia.
    + apply StronglySorted_app_2; [|exact Hsort|].
      { intros s t Hin Ht. apply list_elem_of_singleton in Ht. subst t.
        rewrite List.Forall_forall in Hl. apply list_elem_of_In in Hin.
        destruct (Hl s Hin) as (Hy & _ & _ & Hsx).
        right. unfold new. cbn [strip_start strip_row strip_len]. split; [exact Hy|].
        apply Hsx. exact Hm. }
      { apply SSorted_cons; [apply SSorted_nil | apply List.Forall_nil]. }
    + intros x Hx Hsolid. destruct (Hcov x Hx Hsolid) as [[_ Hge]|(s & Hin & His)].
      { exists new. split; [apply elem_of_app; right; apply list_elem_of_singleton; reflexivity|].
        unfold in_strip, new. cbn [strip_start strip_row strip_len]. lia. }
      { exists s. split; [apply elem_of_app; left; exact Hin | exact His]. }
Qed.

Lemma scan_rows_scanned (width : Z) (k : nat) :
  width <= Int.max_int ->
  rows_scanned img width (Z.of_nat k)
    (fold_left (fun s y => scan_row emit_strip img width y s) (seqZ 0 (Z.of_nat k)) []).
Proof.
  intros Hw. induction k as [|k IH].
  - rewrite seqZ_nil by (simpl; lia). cbn [fold_left]. unfold rows_scanned.
    split; [apply List.Forall_nil|]. split; [apply SSorted_nil|].
    intros x y _ Hy. simpl in Hy. lia.
  - rewrite seqZ_S, fold_left_app. cbn [fold_left]. rewrite Z.add_0_l, scan_row_app.
    destruct IH as (Hl & Hsort & Hcov).
    destruct (scan_row_scanned width (Z.of_nat k) Hw) as (Hl' & Hsort' & Hcov').
    split; [|split].
    + apply Forall_app. split.
      * eapply Forall_impl; [exact Hl|]. cbn beta. intros s [Hy Hrun]. split; [lia | exact Hrun].
      * eapply Forall_impl; [exact Hl'|]. cbn beta. intros s [Hy Hrun]. split; [lia | exact Hrun].
    + apply StronglySorted_app_2; [|exact Hsort|exact Hsort'].
      intros s t Hs Ht. left.
      rewrite List.Forall_forall in Hl, Hl'. apply list_elem_of_In in Hs, Ht.
      destruct (Hl s Hs) as [Hy _]. destruct (Hl' t Ht) as [Hy' _]. lia.
    + intros x y Hx Hy Hsolid.
      destruct (Z.eq_dec y (Z.of_nat k)) as [->|Hne].
      * destruct (Hcov' x Hx Hsolid) as (s & Hin & His).
        exists s. split; [apply elem_of_app; right; exact Hin | exact His].
      * destruct (Hcov x y Hx ltac:(lia) Hsolid) as (s & Hin & His).
        exists s. split; [apply elem_of_app; left; exact Hin | exact His].
Qed.

Lemma image_strips_scanned :
  Max_X (img_Bounds img) <= Int.max_int ->
  rows_scanned img (Max_X (img_Bounds img)) (Z.max 0 (Max_Y (img_Bounds img)))
    (image_strips img).
Proof.
  intros Hw. unfold image_strips, scan_image, for_range.
  replace (Max_Y (img_Bounds img) - 1 - 0 + 1) with (Max_Y (img_Bounds img)) by lia.
  destruct (Z.le_gt_cases (Max_Y (img_Bounds img)) 0) as [Hneg|Hpos].
  - rewrite seqZ_nil by lia. cbn [fold_left]. rewrite Z.max_l by lia.
    apply (scan_rows_scanned _ 0 Hw).
  - rewrite Z.max_r by lia.
    pose proof (scan_rows_scanned (Max_X (img_Bounds img))
                  (Z.to_nat (Max_Y (img_Bounds img))) Hw) as Hinv.
    rewrite Z2Nat.id in Hinv by lia. exact Hinv.
Qed.

(** Strips in scan order do not share a pixel. *)
Lemma sorted_strips_disjoint (l : list Strip) (x y : Z) (s t : Strip) :
  StronglySorted strip_before l -> s ∈ l -> t ∈ l ->
  in_strip x y s -> in_strip x y t -> s = t.
Proof.
  intros Hsort. induction Hsort as [|a l Hsort IH Ha]; intros Hs Ht Hxs Hxt.
  - apply elem_of_nil in Hs. contradiction.
  - assert (Hno : forall u, u ∈ l -> in_strip x y a -> in_strip x y u -> False).
    { intros u Hu [Ry Rx] [Ry' Rx']. rewrite List.Forall_forall in Ha.
      apply list_elem_of_In in Hu. destruct (Ha u Hu) as [Hlt|[_ Hlt]]; lia. }
    apply elem_of_cons in Hs as [->|Hs]; apply elem_of_cons in Ht as [->|Ht].
    + reflexivity.
    + exfalso. apply (Hno t Ht Hxs Hxt).
    + exfalso. apply (Hno s Hs Hxt Hxs).
    + apply IH; assumption.
Qed.
End RunFacts.

(** Every box of the mesh stands on a maximal run of solid pixels of a
    row of the field: the strips lie in rows of the scanned area, each is
    solid throughout and has no solid pixel right before or after it, and
    they follow each other in scan order without touching. *)
Theorem strips_are_maximal_runs {I : Type} `{Image I} (img : I) :
  Max_X (img_Bounds img) <= Int.max_int ->
  Forall (fun s => 0 <= strip_row s < Max_Y (img_Bounds img) /\
                   maximal_run img (Max_X (img_Bounds img)) s) (image_strips img) /\
  StronglySorted strip_before (image_strips img).
Proof.
  intros Hw. destruct (image_strips_scanned img Hw) as (Hl & Hsort & _).
  split; [|exact Hsort].
  eapply Forall_impl; [exact Hl|]. cbn beta. intros s [Hy Hrun]. split; [lia | exact Hrun].
Qed.

Lemma strips_are_maximal_runs_witness :
  Forall (fun s => 0 <= strip_row s < Max_Y (img_Bounds sample_field) /\
                   maximal_run sample_field (Max_X (img_Bounds sample_field)) s)
         (image_strips sample_field) /\
  StronglySorted strip_before (image_strips sample_field).
Proof. apply (strips_are_maximal_runs sample_field). vm_compute. discriminate. Defined.

(** Every solid pixel of the scanned area lies under exactly one box. *)
Theorem solid_pixel_under_one_strip {I : Type} `{Image I} (img : I) (x y : Z) :
  Max_X (img_Bounds img) <= Int.max_int ->
  0 <= x < Max_X (img_Bounds img) -> 0 <= y < Max_Y (img_Bounds img) ->
  isSolid (img_At img x y) = true ->
  exists s, s ∈ image_strips img /\ in_strip x y s /\
            forall t, t ∈ image_strips img -> in_strip x y t -> t = s.
Proof.
  intros Hw Hx Hy Hsolid. destruct (image_strips_scanned img Hw) as (_ & Hsort & Hcov).
  destruct (Hcov x y Hx ltac:(lia) Hsolid) as (s & Hin & His).
  exists s. split; [exact Hin|]. split; [exact His|].
  intros t Ht Hxt. apply (sorted_strips_disjoint _ x y t s Hsort Ht Hin Hxt His).
Qed.

Lemma solid_pixel_under_one_strip_witness :
  exists s, s ∈ image_strips sample_field /\ in_strip 3 0 s /\
            forall t, t ∈ image_strips sample_field -> in_strip 3 0 t -> t = s.
Proof.
  apply (solid_pixel_under_one_strip sample_field 3 0).
  - vm_compute. discriminate.
  - vm_compute. split; [discriminate | reflexivity].
  - vm_compute. split; [discriminate | reflexivity].
  - reflexivity.
Defined.

Section SolidFacts.
Context {I : Type} `{Image I}.
Variable img : I.

Lemma scan_pixels_solid (y : Z) (l : list Strip) (k : nat) :
  (forall x, 0 <= x < Z.of_nat (S k) -> isSolid (img_At img x y) = true) ->
  fold_left (fun s i => scan_pixel emit_strip img y i s) (seqZ 0 (Z.of_nat (S k))) (-1, l)
  = (0, l).
Proof.
  induction k as [|k IH]; intros Hsolid.
  - change (seqZ 0 (Z.of_nat 1)) with [0]. cbn [fold_left]. unfold scan_pixel.
    rewrite (Hsolid 0) by lia. reflexivity.
  - rewrite seqZ_S, fold_left_app, IH by (intros x Hx; apply Hsolid; lia).
    cbn [fold_left]. unfold scan_pixel. rewrite Hsolid by lia. reflexivity.
Qed.

Lemma scan_row_solid (width y : Z) (l : list Strip) :
  0 < width <= Int.max_int ->
  (forall x, 0 <= x < width -> isSolid (img_At img x y) = true) ->
  scan_row emit_strip img width y l = l ++ [full_row width y].
Proof.
  intros Hw Hsolid. unfold scan_row, for_range.
  replace (width - 1 - 0 + 1) with (Z.of_nat (S (Z.to_nat (width - 1)))) by lia.
  rewrite scan_pixels_solid by (intros x Hx; apply Hsolid; lia).
  cbn [negb Z.eqb]. unfold emit_strip, full_row, Int.sub.
  rewrite Z.sub_0_r, wrap_in_range by (unfold Int.min_int, Int.max_int in *; lia).
  reflexivity.
Qed.

Lemma scan_rows_solid (width : Z) (k : nat) :
  0 < width <= Int.max_int ->
  (forall x y, 0 <= x < width -> 0 <= y < Z.of_nat k -> isSolid (img_At img x y) = true) ->
  fold_left (fun s y => scan_row emit_strip img width y s) (seqZ 0 (Z.of_nat k)) []
  = map (full_row width) (seqZ 0 (Z.of_nat k)).
Proof.
  intros Hw. induction k as [|k IH]; intros Hsolid.
  - rewrite seqZ_nil by (simpl; lia). reflexivity.
  - rewrite seqZ_S, fold_left_app, map_app, IH by (intros x y Hx Hy; apply Hsolid; lia).
    cbn [fold_left map]. rewrite Z.add_0_l. apply scan_row_solid; [exact Hw|].
    intros x Hx. apply Hsolid; lia.
Qed.

(** A field that is solid throughout: one strip per row. *)
Lemma image_strips_solid :
  0 < Max_X (img_Bounds img) <= Int.max_int ->
  (forall x y, 0 <= x < Max_X (img_Bounds img) -> 0 <= y < Max_Y (img_Bounds img) ->
               isSolid (img_At img x y) = true) ->
  image_strips img
  = map (full_row (Max_X (img_Bounds img))) (seqZ 0 (Max_Y (img_Bounds img))).
Proof.
  intros Hw Hsolid. unfold image_strips, scan_image, for_range.
  replace (Max_Y (img_Bounds img) - 1 - 0 + 1) with (Max_Y (img_Bounds img)) by lia.
  destruct (Z.le_gt_cases (Max_Y (img_Bounds img)) 0) as [Hneg|Hpos].
  - rewrite seqZ_nil by lia. reflexivity.
  - pose proof (scan_rows_solid (Max_X (img_Bounds img))
                  (Z.to_nat (Max_Y (img_Bounds img))) Hw) as Hrows.
    rewrite Z2Nat.id in Hrows by lia. apply Hrows. exact Hsolid.
Qed.

(** No strip without a solid pixel. *)
Lemma image_strips_nil :
  Max_X (img_Bounds img) <= Int.max_int ->
  (image_strips img = [] <->
   forall x y, 0 <= x < Max_X (img_Bounds img) -> 0 <= y < Max_Y (img_Bounds img) ->
               isSolid (img_At img x y) = false).
Proof.
  intros Hw. destruct (image_strips_scanned img Hw) as (Hl & _ & Hcov). split.
  - intros Hnil x y Hx Hy. destruct (isSolid (img_At img x y)) eqn:Hs; [|reflexivity].
    destruct (Hcov x y Hx ltac:(lia) Hs) as (s & Hin & _).
    rewrite Hnil in Hin. apply elem_of_nil in Hin. contradiction.
  - intros Hclear. destruct (image_strips img) as [|s l]; [reflexivity|]. exfalso.
    apply List.Forall_cons_iff in Hl as [[Hy (H0 & H1 & H2 & Hrun & _)] _].
    specialize (Hrun (strip_start s) ltac:(lia)).
    rewrite Hclear in Hrun by lia. discriminate.
Qed.
End SolidFacts.

Lemma filled_field_solid (w h x y : Z) : isSolid (img_At (filled_field w h) x y) = true.
Proof.
  cbn [img_At RGBA_Image]. destruct (In_rect x y _); [|reflexivity].
  unfold filled_field. rewrite (proj2 (Draw_uniform_pixels _ _ Black)).
  destruct (In_rect x y _); reflexivity.
Qed.

Lemma flat_map_nil_iff {A B : Type} (f : A -> list B) (l : list A) :
  (forall a, f a <> []) -> (flat_map f l = [] <-> l = []).
Proof.
  intros Hf. split; [|intros ->; reflexivity].
  destruct l as [|a l]; [reflexivity|]. cbn [flat_map]. intros Happ.
  apply app_eq_nil in Happ as [Ha _]. apply Hf in Ha. contradiction.
Qed.

(** The mesh is empty exactly when the scanned area, the columns and rows
    from 0 to the far corner of the bounds, has no solid pixel; an area
    without columns or rows gives the empty mesh. *)
Theorem empty_mesh {I : Type} `{Image I} (StencilHeight : float64) (img : I) :
  Max_X (img_Bounds img) <= Int.max_int ->
  (GenerateMeshFromImage StencilHeight img = [] <->
   forall x y, 0 <= x < Max_X (img_Bounds img) -> 0 <= y < Max_Y (img_Bounds img) ->
               isSolid (img_At img x y) = false) /\
  (Max_X (img_Bounds img) <= 0 \/ Max_Y (img_Bounds img) <= 0 ->
   GenerateMeshFromImage StencilHeight img = []).
Proof.
  intros Hw.
  assert (Hiff : GenerateMeshFromImage StencilHeight img = [] <->
            forall x y, 0 <= x < Max_X (img_Bounds img) -> 0 <= y < Max_Y (img_Bounds img) ->
                        isSolid (img_At img x y) = false).
  { rewrite GenerateMesh_strips, <- (image_strips_nil img Hw).
    apply flat_map_nil_iff. intros s. rewrite strip_triangles_corners. discriminate. }
  split; [exact Hiff|]. intros Hempty. apply Hiff. intros x y Hx Hy. lia.
Qed.

Lemma empty_mesh_witness :
  (GenerateMeshFromImage (F64.of_Z 1) white_field = [] <->
   forall x y, 0 <= x < Max_X (img_Bounds white_field) ->
               0 <= y < Max_Y (img_Bounds white_field) ->
               isSolid (img_At white_field x y) = false) /\
  (Max_X (img_Bounds white_field) <= 0 \/ Max_Y (img_Bounds white_field) <= 0 ->
   GenerateMeshFromImage (F64.of_Z 1) white_field = []).
Proof. apply (empty_mesh (F64.of_Z 1) white_field). vm_compute. discriminate. Defined.

(** The mesh of a drawing without flashes and draws: one box per pixel
    row of the raster, each as long as the raster is wide. *)
Theorem mesh_without_geometry (gf : GerberFile) (dpi : float64) (bounds : option Bounds)
    (StencilHeight : float64) (img : RGBA) :
  no_drawing (Commands gf) ->
  selections_carry_code (Commands gf) ->
  Render gf dpi bounds = Done img ->
  0 < fst (raster_size gf dpi bounds) ->
  0 <= snd (raster_size gf dpi bounds) ->
  image_strips img
  = map (full_row (fst (raster_size gf dpi bounds)))
        (seqZ 0 (snd (raster_size gf dpi bounds))) /\
  GenerateMeshFromImage StencilHeight img
  = flat_map (fun y => strip_triangles StencilHeight
                         (full_row (fst (raster_size gf dpi bounds)) y))
             (seqZ 0 (snd (raster_size gf dpi bounds))) /\
  Z.of_nat (length (GenerateMeshFromImage StencilHeight img))
  = 12 * snd (raster_size gf dpi bounds).
Proof.
  intros Hno Hsel Hrender Hw Hh.
  pose proof (Render_field_Rect gf dpi bounds img Hsel Hrender) as Hrect.
  pose proof (Render_without_geometry_fill gf dpi bounds Hno Hsel) as Hfill.
  assert (Hint : fst (raster_size gf dpi bounds) <= Int.max_int).
  { unfold raster_size. cbn [fst]. apply to_int_in_range. }
  destruct (raster_size gf dpi bounds) as [w h] eqn:Hsize. cbn [fst snd] in *.
  assert (Himg : img = filled_field w h).
  { rewrite Hfill in Hrender.
    destruct (NewRGBA _) as [img0| |] eqn:Hnew; cbn [mbind outcome_bind] in Hrender;
      [|discriminate|discriminate].
    apply NewRGBA_Done in Hnew. subst img0.
    injection Hrender as <-. reflexivity. }
  subst img.
  assert (HX : Max_X (img_Bounds (filled_field w h)) = w).
  { change (img_Bounds (filled_field w h)) with (Rect (filled_field w h)).
    rewrite Hrect. unfold image_Rect.
    destruct (Z.ltb_spec w 0); [lia|]. destruct (Z.ltb_spec h 0); reflexivity. }
  assert (HY : Max_Y (img_Bounds (filled_field w h)) = h).
  { change (img_Bounds (filled_field w h)) with (Rect (filled_field w h)).
    rewrite Hrect. unfold image_Rect.
    destruct (Z.ltb_spec w 0); [lia|]. destruct (Z.ltb_spec h 0); [lia | reflexivity]. }
  assert (Hstrips : image_strips (filled_field w h) = map (full_row w) (seqZ 0 h)).
  { rewrite image_strips_solid; rewrite ?HX, ?HY; [reflexivity | |].
    - split; [exact Hw | exact Hint].
    - intros x y _ _. apply filled_field_solid. }
  split; [exact Hstrips|].
  assert (Hmesh : GenerateMeshFromImage StencilHeight (filled_field w h)
            = flat_map (fun y => strip_triangles StencilHeight (full_row w y)) (seqZ 0 h)).
  { rewrite GenerateMesh_strips, Hstrips. generalize (seqZ 0 h). intros ys.
    induction ys as [|y ys IH]; [reflexivity|]. cbn [map flat_map]. rewrite IH. reflexivity. }
  split; [exact Hmesh|]. rewrite Hmesh.
  assert (Hlen : forall ys, length (flat_map (fun y => strip_triangles StencilHeight
                                                         (full_row w y)) ys)
                            = (12 * length ys)%nat).
  { induction ys as [|y ys IH]; [reflexivity|].
    cbn [flat_map]. rewrite length_app, IH, strip_triangles_corners, length_map.
    cbn [length box_triangles]. simpl length. lia. }
  rewrite Hlen, length_seqZ. lia.
Qed.

Lemma mesh_without_geometry_witness :
  image_strips (field_of (Render no_geometry dpi_1mm None))
  = map (full_row (fst (raster_size no_geometry dpi_1mm None)))
        (seqZ 0 (snd (raster_size no_geometry dpi_1mm None))) /\
  GenerateMeshFromImage (F64.decimal false 2 (-1)) (field_of (Render no_geometry dpi_1mm None))
  = flat_map (fun y => strip_triangles (F64.decimal false 2 (-1))
                         (full_row (fst (raster_size no_geometry dpi_1mm None)) y))
             (seqZ 0 (snd (raster_size no_geometry dpi_1mm None))) /\
  Z.of_nat (length (GenerateMeshFromImage (F64.decimal false 2 (-1))
                      (field_of (Render no_geometry dpi_1mm None))))
  = 12 * snd (raster_size no_geometry dpi_1mm None).
Proof.
  apply (mesh_without_geometry no_geometry dpi_1mm None (F64.decimal false 2 (-1))
           (field_of (Render no_geometry dpi_1mm None))).
  - repeat constructor; discriminate.
  - repeat constructor; discriminate.
  - vm_compute. reflexivity.
  - vm_compute. reflexivity.
  - vm_compute. discriminate.
Defined.

(** ** What the interpreter builds *)

Lemma runs_spec (cl : ascii -> bool) (s : string) :
  forall p r, In (p, r) (runs cl s) ->
              all_in cl p = true /\ (1 <= String.length p)%nat /\ s = (p ++ r)%string.
Proof.
  induction s as [|c s IH]; intros p r; cbn [runs]; [intros []|].
  destruct (cl c) eqn:Hc; [|intros []].
  intros Hin. apply in_app_or in Hin as [Hin|Hin].
  - apply in_map_iff in Hin as ([p' r'] & Heq & Hin). injection Heq as <- <-.
    destruct (IH _ _ Hin) as (Hall & Hlen & ->).
    split; [cbn [all_in]; rewrite Hc, Hall; reflexivity|].
    split; [cbn [String.length]; lia | reflexivity].
  - destruct Hin as [Heq|[]]. injection Heq as <- <-.
    split; [cbn [all_in]; rewrite Hc; reflexivity|].
    split; [cbn [String.length]; lia | reflexivity].
Qed.

Lemma spans_spec (it : item) (s : string) :
  forall p r, In (p, r) (spans it s) -> captures it p /\ s = (p ++ r)%string.
Proof.
  intros p r. unfold spans, captures.
  assert (Hone : forall p r,
            In (p, r) (match s with
                       | String c s' => if it_class it c then [(String c EmptyString, s')] else []
                       | EmptyString => []
                       end) ->
            all_in (it_class it) p = true /\ String.length p = 1%nat /\ s = (p ++ r)%string).
  { intros p' r'. destruct s as [|c s']; [intros []|].
    destruct (it_class it c) eqn:Hc; [|intros []].
    intros [Heq|[]]. injection Heq as <- <-.
    cbn [all_in String.length]. rewrite Hc. repeat split. }
  destruct (it_rep it).
  - intros Hin. destruct (Hone _ _ Hin) as (H1 & H2 & H3). repeat split; assumption.
  - intros Hin. apply in_app_or in Hin as [Hin|[Heq|[]]].
    + destruct (Hone _ _ Hin) as (H1 & H2 & H3). repeat split; [assumption | lia | assumption].
    + injection Heq as <- <-. repeat split. cbn. lia.
  - intros Hin. destruct (runs_spec _ _ _ _ Hin) as (H1 & H2 & H3). repeat split; assumption.
  - intros Hin. apply in_app_or in Hin as [Hin|[Heq|[]]].
    + destruct (runs_spec _ _ _ _ Hin) as (H1 & H2 & H3). repeat split; assumption.
    + injection Heq as <- <-. repeat split.
Qed.

(** A match captures, group by group, what the group's item allows. *)
Lemma match_here_captures (pat : list item) :
  forall s caps rest,
    match_here pat s = Some (caps, rest) ->
    Forall2 captures (List.filter it_capture pat) caps.
Proof.
  induction pat as [|it pat IH]; intros s caps rest; cbn [match_here List.filter].
  - intros [= <- _]. constructor.
  - intros H. apply first_some_Some in H as ([p r] & Hin & Hm).
    destruct (match_here pat r) as [[caps' rest']|] eqn:E; [|discriminate].
    apply IH in E. apply spans_spec in Hin as [Hcap _].
    destruct (it_capture it); injection Hm as <- _; [constructor; assumption | exact E].
Qed.

Lemma find_from_captures (pat : list item) (s : string) :
  forall m rest, find_from pat s = Some (m, rest) ->
    exists whole caps, m = whole :: caps /\ Forall2 captures (List.filter it_capture pat) caps.
Proof.
  induction s as [|c s IH]; intros m rest; cbn [find_from];
    destruct (match_here pat _) as [[caps r]|] eqn:E.
  - intros [= <- _]. eexists _, caps. split; [reflexivity | eapply match_here_captures, E].
  - discriminate.
  - intros [= <- _]. eexists _, caps. split; [reflexivity | eapply match_here_captures, E].
  - apply IH.
Qed.

Lemma find_all_captures (pat : list item) (fuel : nat) :
  forall s, Forall (fun m => exists whole caps,
                      m = whole :: caps /\
                      Forall2 captures (List.filter it_capture pat) caps)
                   (find_all fuel pat s).
Proof.
  induction fuel as [|fuel IH]; intros s; cbn [find_all]; [constructor|].
  destruct (find_from pat s) as [[m rest]|] eqn:E; [|constructor].
  constructor; [eapply find_from_captures, E | apply IH].
Qed.

(** The submatches of the coordinate pattern: a key, which is [X], [Y]
    or [D], and a value. *)
Lemma reCoord_fields (part : string) :
  Forall (fun m => exists whole key val,
            m = [whole; key; val] /\ (key = "X" \/ key = "Y" \/ key = "D"))
         (FindAllStringSubmatch reCoord part).
Proof.
  eapply Forall_impl; [apply (find_all_captures reCoord)|]. cbn beta.
  intros m (whole & caps & -> & Hcaps). cbn in Hcaps.
  inversion Hcaps as [|it1 key its caps' Hkey Hrest]; subst.
  inversion Hrest as [|it2 val its' caps'' Hval Hnil]; subst.
  inversion Hnil; subst. exists whole, key, val. split; [reflexivity|].
  destruct Hkey as [Hall Hlen]. cbn in Hlen, Hall.
  destruct key as [|c [|c' key']]; [discriminate | | discriminate].
  cbn [all_in] in Hall. rewrite andb_true_r in Hall. unfold cls in Hall. cbn in Hall.
  rewrite orb_false_r in Hall.
  destruct (Ascii.eqb_spec c "X") as [->|]; [left; reflexivity|].
  destruct (Ascii.eqb_spec c "Y") as [->|]; [right; left; reflexivity|].
  destruct (Ascii.eqb_spec c "D") as [->|]; [right; right; reflexivity | discriminate].
Qed.

(** A field sets its axis or its operation code; the type stays one of
    move, draw and flash. *)
Lemma parse_field_wellformed (gf : GerberFile) (cmd cmd' : GerberCommand) (whole key val : string) :
  key = "X" \/ key = "Y" \/ key = "D" ->
  parse_field gf cmd [whole; key; val] = Done cmd' ->
  (cmd_Type cmd = "MOVE" \/ cmd_Type cmd = "DRAW" \/ cmd_Type cmd = "FLASH") ->
  (cmd_Type cmd = "DRAW" \/ cmd_Type cmd = "FLASH" -> cmd_D cmd <> None) ->
  (cmd_Type cmd' = "MOVE" \/ cmd_Type cmd' = "DRAW" \/ cmd_Type cmd' = "FLASH") /\
  (cmd_X cmd' <> None \/ cmd_Y cmd' <> None \/ cmd_D cmd' <> None) /\
  (cmd_Type cmd' = "DRAW" \/ cmd_Type cmd' = "FLASH" -> cmd_D cmd' <> None).
Proof.
  intros Hkey Hparse Hty HD. unfold parse_field in Hparse.
  cbn [index lookup list_lookup mbind outcome_bind] in Hparse.
  destruct Hkey as [-> | [-> | ->]]; cbn [String.eqb Ascii.eqb Bool.eqb] in Hparse;
    cbn [mret outcome_ret] in Hparse; injection Hparse as <-; cbn [with_X with_Y with_D
      cmd_Type cmd_X cmd_Y cmd_D].
  - split; [exact Hty|]. split; [left; discriminate | exact HD].
  - split; [exact Hty|]. split; [right; left; discriminate | exact HD].
  - split; [|split; [right; right; discriminate | intros _; discriminate]].
    destruct (opcode val =? 1); [right; left; reflexivity|].
    destruct (opcode val =? 2); [left; reflexivity|].
    destruct (opcode val =? 3); [right; right; reflexivity | exact Hty].
Qed.

Lemma parse_fields_wellformed (gf : GerberFile) (ms : list (list string)) :
  Forall (fun m => exists whole key val,
            m = [whole; key; val] /\ (key = "X" \/ key = "Y" \/ key = "D")) ms ->
  forall cmd cmd',
  foldlM (parse_field gf) ms cmd = Done cmd' ->
  (cmd_Type cmd = "MOVE" \/ cmd_Type cmd = "DRAW" \/ cmd_Type cmd = "FLASH") ->
  (cmd_Type cmd = "DRAW" \/ cmd_Type cmd = "FLASH" -> cmd_D cmd <> None) ->
  (cmd_Type cmd' = "MOVE" \/ cmd_Type cmd' = "DRAW" \/ cmd_Type cmd' = "FLASH") /\
  (ms <> [] \/ cmd_X cmd <> None \/ cmd_Y cmd <> None \/ cmd_D cmd <> None ->
   cmd_X cmd' <> None \/ cmd_Y cmd' <> None \/ cmd_D cmd' <> None) /\
  (cmd_Type cmd' = "DRAW" \/ cmd_Type cmd' = "FLASH" -> cmd_D cmd' <> None).
Proof.
  intros Hms. induction Hms as [|m ms (whole & key & val & -> & Hkey) _ IH];
    intros cmd cmd'; cbn [foldlM].
  - intros [= <-] Hty HD. split; [exact Hty|]. split; [|exact HD].
    intros [Hc|H]; [congruence | exact H].
  - destruct (parse_field gf cmd [whole; key; val]) as [cmd1| |] eqn:E;
      cbn [mbind outcome_bind]; [|discriminate|discriminate].
    intros Hrest Hty HD.
    destruct (parse_field_wellformed _ _ _ _ _ _ Hkey E Hty HD) as (Hty1 & Hset1 & HD1).
    destruct (IH _ _ Hrest Hty1 HD1) as (Hty' & Hset' & HD').
    split; [exact Hty'|]. split; [|exact HD'].
    intros _. apply Hset'. right. exact Hset1.
Qed.

Lemma Atoi_ok_range (s : string) (n : Z) : Atoi s = (n, true) -> Int.min_int <= n <= Int.max_int.
Proof.
  unfold Atoi.
  destruct (match s with
            | String "-" s' => (true, s')
            | String "+" s' => (false, s')
            | _ => (false, s)
            end) as [neg body].
  destruct body as [|c body]; [discriminate|].
  destruct (all_digits (String c body)); [|discriminate].
  destruct (Int.in_range _) eqn:E; [|discriminate].
  intros [= <-]. unfold Int.in_range in E. apply andb_true_iff in E as [E1 E2].
  apply Z.leb_le in E1, E2. split; [exact E1 | exact E2].
Qed.

Lemma aperture_select_range (part : string) (d : Z) :
  aperture_select part = Some d -> 10 <= d <= Int.max_int.
Proof.
  unfold aperture_select. destruct (_ && _); [|discriminate].
  destruct (Atoi (drop_str 1 part)) as [n ok] eqn:E.
  destruct ok; cbn [andb]; [|discriminate].
  destruct (Z.leb_spec 10 n); [|discriminate].
  intros [= <-]. apply Atoi_ok_range in E. lia.
Qed.

(** A statement appends at most one command, a well-formed one, and
    leaves the state alone. *)
Lemma parse_statement_appends (gf gf' : GerberFile) (part : string) :
  parse_statement gf part = Done gf' ->
  State gf' = State gf /\
  exists cs, Commands gf' = Commands gf ++ cs /\ (length cs <= 1)%nat /\
             Forall command_wellformed cs.
Proof.
  unfold parse_statement.
  destruct (String.eqb (TrimSpace part) EmptyString).
  { intros [= <-]. split; [reflexivity|]. exists []. rewrite app_nil_r.
    split; [reflexivity|]. split; [cbn; lia | constructor]. }
  destruct (aperture_select (TrimSpace part)) as [d|] eqn:Hsel.
  { intros [= <-]. split; [reflexivity|]. eexists [_]. split; [reflexivity|].
    split; [cbn; lia|]. constructor; [|constructor]. left.
    cbn [cmd_Type cmd_X cmd_Y cmd_D]. repeat split. exists d. split; [reflexivity|].
    apply (aperture_select_range _ _ Hsel). }
  destruct (Nat.ltb_spec 0 (length (FindAllStringSubmatch reCoord (TrimSpace part))))
    as [Hlen|Hlen].
  2:{ intros [= <-]. split; [reflexivity|]. exists []. rewrite app_nil_r.
      split; [reflexivity|]. split; [cbn; lia | constructor]. }
  destruct (foldlM _ _ _) as [cmd| |] eqn:E; cbn [mbind outcome_bind];
    [|discriminate|discriminate].
  intros [= <-]. split; [reflexivity|]. exists [cmd]. split; [reflexivity|].
  split; [cbn; lia|]. constructor; [|constructor]. right.
  destruct (parse_fields_wellformed gf _ (reCoord_fields (TrimSpace part)) _ _ E)
    as (Hty & Hset & HD).
  - left. reflexivity.
  - cbn [cmd_Type]. intros [H|H]; discriminate H.
  - split; [exact Hty|]. split; [|exact HD]. apply Hset. left.
    intros Hnil. rewrite Hnil in Hlen. cbn in Hlen. lia.
Qed.

Lemma parse_statements_append (parts : list string) :
  forall gf gf',
  foldlM parse_statement parts gf = Done gf' ->
  State gf' = State gf /\
  exists cs, Commands gf' = Commands gf ++ cs /\ (length cs <= length parts)%nat /\
             Forall command_wellformed cs.
Proof.
  induction parts as [|part parts IH]; intros gf gf'; cbn [foldlM].
  - intros [= <-]. split; [reflexivity|]. exists []. rewrite app_nil_r.
    split; [reflexivity|]. split; [cbn; lia | constructor].
  - destruct (parse_statement gf part) as [gf1| |] eqn:E; cbn [mbind outcome_bind];
      [|discriminate|discriminate].
    intros Hrest. destruct (parse_statement_appends _ _ _ E) as (HS1 & cs1 & HC1 & HL1 & HW1).
    destruct (IH _ _ Hrest) as (HS & cs & HC & HL & HW).
    split; [congruence|]. exists (cs1 ++ cs). rewrite HC, HC1, app_assoc.
    split; [reflexivity|]. split; [rewrite length_app; cbn [length]; lia|].
    apply Forall_app. split; assumption.
Qed.

Lemma Atoi_digit (p : string) :
  all_in is_digit p = true -> String.length p = 1%nat -> 0 <= fst (Atoi p) <= 9.
Proof.
  destruct p as [|c [|c' p]]; [discriminate | | discriminate].
  cbn [all_in]. rewrite andb_true_r. intros Hc _.
  destruct c as [[] [] [] [] [] [] [] []]; try discriminate Hc; vm_compute;
    split; discriminate.
Qed.

(** The four digits a format specification captures. *)
Lemma reFS_digits (line : string) :
  length (FindStringSubmatch reFS line) = 5%nat ->
  exists whole a b c d,
    FindStringSubmatch reFS line = [whole; a; b; c; d] /\
    0 <= fst (Atoi a) <= 9 /\ 0 <= fst (Atoi b) <= 9 /\
    0 <= fst (Atoi c) <= 9 /\ 0 <= fst (Atoi d) <= 9.
Proof.
  unfold FindStringSubmatch. destruct (find_from reFS line) as [[m rest]|] eqn:E;
    [|discriminate].
  intros _. apply find_from_captures in E as (whole & caps & -> & Hcaps).
  cbn in Hcaps.
  inversion Hcaps as [|i1 a ? ? [Ha La] H1]; subst.
  inversion H1 as [|i2 b ? ? [Hb Lb] H2]; subst.
  inversion H2 as [|i3 c ? ? [Hc Lc] H3]; subst.
  inversion H3 as [|i4 d ? ? [Hd Ld] H4]; subst.
  inversion H4; subst. cbn in Ha, La, Hb, Lb, Hc, Lc, Hd, Ld.
  exists whole, a, b, c, d. split; [reflexivity|].
  repeat split; apply Atoi_digit; assumption.
Qed.

(** A parameter line leaves the commands alone and keeps the state
    well-formed. *)
Lemma parse_parameter_state (gf gf' : GerberFile) (line : string) (mode : scan_mode) :
  parse_parameter gf line = Done (gf', mode) ->
  Commands gf' = Commands gf /\
  (state_wellformed (State gf) -> state_wellformed (State gf')).
Proof.
  unfold parse_parameter.
  destruct (HasPrefix line "%FS").
  { destruct (Nat.eqb_spec (length (FindStringSubmatch reFS line)) 5) as [Hl|];
      [|intros [= <- _]; split; [reflexivity | trivial]].
    destruct (reFS_digits line Hl) as (whole & a & b & c & d & -> & Ha & Hb & Hc & Hd).
    cbn [index lookup list_lookup mbind outcome_bind mret outcome_ret].
    intros [= <- _]. split; [reflexivity|].
    intros (HU & _ & _ & HM & HC & HX & HY).
    unfold state_wellformed, digit_counts.
    cbn [State set_State set_Formats Units FormatX FormatY Macros CurrentAperture st_X st_Y
         Integer Decimal].
    split; [exact HU|]. split; [split; assumption|]. split; [split; assumption|].
    split; [exact HM|]. split; [exact HC|]. split; assumption. }
  destruct (HasPrefix line "%AD").
  { destruct (3 <=? length (FindStringSubmatch reAD line))%nat;
      [|intros [= <- _]; split; [reflexivity | trivial]].
    destruct (index _ 1) as [m1| |]; cbn [mbind outcome_bind]; [|discriminate|discriminate].
    destruct (index _ 2) as [m2| |]; cbn [mbind outcome_bind]; [|discriminate|discriminate].
    destruct (if (3 <? _)%nat then _ else _) as [m3| |]; cbn [mbind outcome_bind];
      [|discriminate|discriminate].
    intros [= <- _]. split; [reflexivity|]. trivial. }
  destruct (HasPrefix line "%AM"); [intros [= <- _]; split; [reflexivity | trivial]|].
  destruct (HasPrefix line "%MO"); [|intros [= <- _]; split; [reflexivity | trivial]].
  intros [= <- _]. split; [reflexivity|].
  intros (HU & HFX & HFY & HM & HC & HX & HY).
  cbn [State set_State set_Units Units FormatX FormatY Macros CurrentAperture st_X st_Y].
  split; [destruct (Contains line "IN"); [right | left]; reflexivity|].
  split; [exact HFX|]. split; [exact HFY|]. split; [exact HM|].
  split; [exact HC|]. split; assumption.
Qed.

Lemma set_Macro_wellformed (st : GerberState) (name : string) (prims : list MacroPrimitive) :
  state_wellformed st ->
  state_wellformed (set_Macro st name {| Name := name; Primitives := prims |}).
Proof.
  intros (HU & HFX & HFY & HM & HC & HX & HY).
  unfold state_wellformed.
  cbn [set_Macro Units FormatX FormatY Macros CurrentAperture st_X st_Y].
  split; [exact HU|]. split; [exact HFX|]. split; [exact HFY|].
  split; [|split; [exact HC|split; assumption]].
  apply map_Forall_insert_2; [reflexivity | exact HM].
Qed.

(** One line of input: commands are only appended, well-formed ones, and
    the state stays well-formed. *)
Lemma scan_line_invariant (st st' : GerberFile * scan_mode) (text : string) :
  scan_line st text = Done st' ->
  (exists cs, Commands (fst st') = Commands (fst st) ++ cs /\ Forall command_wellformed cs) /\
  (state_wellformed (State (fst st)) -> state_wellformed (State (fst st'))).
Proof.
  destruct st as [gf [|name prims]]; destruct st' as [gf' mode']; cbn [scan_line fst].
  - unfold outer_line.
    destruct (String.eqb (TrimSpace text) EmptyString).
    { intros [= <- _]. split; [|trivial]. exists []. rewrite app_nil_r.
      split; [reflexivity | constructor]. }
    destruct (HasPrefix (TrimSpace text) "%").
    { intros H. apply parse_parameter_state in H as [HC HS]. split; [|exact HS].
      exists []. rewrite app_nil_r. split; [exact HC | constructor]. }
    destruct (foldlM parse_statement _ gf) as [gf1| |] eqn:E; cbn [mbind outcome_bind];
      [|discriminate|discriminate].
    intros [= <- _]. apply parse_statements_append in E as (HS & cs & HC & _ & HW).
    split; [exists cs; split; assumption|]. rewrite HS. trivial.
  - unfold macro_line.
    destruct (String.eqb (TrimSpace text) "%").
    { intros [= <- _]. cbn [Commands set_State State]. split.
      - exists []. rewrite app_nil_r. split; [reflexivity | constructor].
      - apply set_Macro_wellformed. }
    destruct (0 <? _)%nat.
    + destruct (index _ 0) as [p0| |]; cbn [mbind outcome_bind]; [|discriminate|discriminate].
      intros [= <- _]. split; [|trivial]. exists []. rewrite app_nil_r.
      split; [reflexivity | constructor].
    + intros [= <- _]. split; [|trivial]. exists []. rewrite app_nil_r.
      split; [reflexivity | constructor].
Qed.

Lemma scan_lines_invariant (lines : list string) :
  forall st st',
  foldlM scan_line lines st = Done st' ->
  (exists cs, Commands (fst st') = Commands (fst st) ++ cs /\ Forall command_wellformed cs) /\
  (state_wellformed (State (fst st)) -> state_wellformed (State (fst st'))).
Proof.
  induction lines as [|text lines IH]; intros st st'; cbn [foldlM].
  - intros [= <-]. split; [|trivial]. exists []. rewrite app_nil_r.
    split; [reflexivity | constructor].
  - destruct (scan_line st text) as [st1| |] eqn:E; cbn [mbind outcome_bind];
      [|discriminate|discriminate].
    intros Hrest. apply scan_line_invariant in E as [(cs1 & HC1 & HW1) HS1].
    apply IH in Hrest as [(cs & HC & HW) HS].
    split; [|intros H; apply HS, HS1, H].
    exists (cs1 ++ cs). rewrite HC, HC1, app_assoc. split; [reflexivity|].
    apply Forall_app. split; assumption.
Qed.

Lemma end_of_input_invariant (st : GerberFile * scan_mode) :
  Commands (end_of_input st) = Commands (fst st) /\
  (state_wellformed (State (fst st)) -> state_wellformed (State (end_of_input st))).
Proof.
  destruct st as [gf [|name prims]]; cbn [end_of_input fst]; [split; trivial|].
  split; [reflexivity|]. cbn [State set_State]. apply set_Macro_wellformed.
Qed.

Lemma NewGerberFile_wellformed : state_wellformed (State NewGerberFile).
Proof.
  unfold state_wellformed, digit_counts. cbn.
  split; [left; reflexivity|]. split; [lia|]. split; [lia|].
  split; [apply map_Forall_empty|]. repeat split.
Qed.

(** What [ParseGerber] returns on the lines of a file. *)
Lemma ParseGerber_lines (os_Open : string -> open_result) (filename : string) (gf : GerberFile) :
  ParseGerber os_Open filename = Done gf ->
  exists lines st, os_Open filename = Opened lines /\
                   foldlM scan_line lines (NewGerberFile, Outer) = Done st /\
                   gf = end_of_input st.
Proof.
  unfold ParseGerber. destruct (os_Open filename) as [err|lines]; [discriminate|].
  destruct (foldlM scan_line lines _) as [st| |] eqn:E; cbn [mbind outcome_bind];
    [|discriminate|discriminate].
  intros [= <-]. exists lines, st. repeat split. exact E.
Qed.

Lemma wellformed_carry_code (cmds : list GerberCommand) :
  Forall command_wellformed cmds -> selections_carry_code cmds.
Proof.
  intros H. eapply Forall_impl; [exact H|]. cbn beta.
  intros cmd [(_ & _ & _ & d & -> & _)|([Hty|[Hty|Hty]] & _ & _)] Hap;
    [discriminate | rewrite Hty in Hap; discriminate Hap..].
Qed.

Lemma ParseGerber_wellformed (os_Open : string -> open_result) (filename : string)
    (gf : GerberFile) :
  ParseGerber os_Open filename = Done gf ->
  Forall command_wellformed (Commands gf) /\ state_wellformed (State gf).
Proof.
  intros H. apply ParseGerber_lines in H as (lines & st & _ & Hscan & ->).
  apply scan_lines_invariant in Hscan as [(cs & HC & HW) HS]. cbn [fst] in HC, HS.
  destruct (end_of_input_invariant st) as [HC' HS'].
  split; [rewrite HC', HC; exact HW|]. apply HS', HS, NewGerberFile_wellformed.
Qed.

(** The commands of a parsed file are well-formed: an aperture selection
    carries a code from 10 up and no coordinates, every other command is a
    move, a draw or a flash with at least one field, and a draw or flash
    carries its operation code. *)
Theorem parsed_commands_wellformed (os_Open : string -> open_result) (filename : string)
    (gf : GerberFile) :
  ParseGerber os_Open filename = Done gf ->
  Forall command_wellformed (Commands gf).
Proof. intros H. apply (ParseGerber_wellformed _ _ _ H). Qed.

Lemma parsed_commands_wellformed_witness :
  Forall command_wellformed
    (Commands (parsed (ParseGerber (fun _ => Opened sample_text) "board.gbr"))).
Proof.
  apply (parsed_commands_wellformed (fun _ => Opened sample_text) "board.gbr").
  vm_compute. reflexivity.
Defined.

(** The state of a parsed file: the unit is MM or IN, the four digit
    counts of the formats are single digits, every macro is stored under
    its own name, and the current aperture and position of the state are
    never written. *)
Theorem parsed_state_wellformed (os_Open : string -> open_result) (filename : string)
    (gf : GerberFile) :
  ParseGerber os_Open filename = Done gf ->
  state_wellformed (State gf).
Proof. intros H. apply (ParseGerber_wellformed _ _ _ H). Qed.

Lemma parsed_state_wellformed_witness :
  state_wellformed (State (parsed (ParseGerber (fun _ => Opened sample_text) "board.gbr"))).
Proof.
  apply (parsed_state_wellformed (fun _ => Opened sample_text) "board.gbr").
  vm_compute. reflexivity.
Defined.



(** Parsing is incremental in the commands: the commands read from the
    first lines of a file are the first commands read from the file. *)
Theorem ParseGerber_prefix_commands (lines1 lines2 : list string) (filename : string) :
  exists cs,
    Commands (parsed (ParseGerber (fun _ => Opened (lines1 ++ lines2)) filename))
    = Commands (parsed (ParseGerber (fun _ => Opened lines1) filename)) ++ cs /\
    Forall command_wellformed cs.
Proof.
  unfold ParseGerber. rewrite foldlM_app.
  destruct (returns_foldlM scan_line (fun _ => True) lines1
              ltac:(apply Forall_forall; trivial)
              ltac:(intros; apply scan_line_returns) (NewGerberFile, Outer)) as [st1 H1].
  rewrite H1. cbn [mbind outcome_bind mret outcome_ret parsed].
  destruct (returns_foldlM scan_line (fun _ => True) lines2
              ltac:(apply Forall_forall; trivial)
              ltac:(intros; apply scan_line_returns) st1) as [st2 H2].
  rewrite H2. cbn [mbind outcome_bind mret outcome_ret parsed].
  apply scan_lines_invariant in H2 as [(cs & HC & HW) _].
  exists cs. rewrite (proj1 (end_of_input_invariant st2)), (proj1 (end_of_input_invariant st1)).
  split; assumption.
Qed.



(** ** Statements and parameter lines, one by one *)

Lemma all_in_impl (cl cl' : ascii -> bool) (s : string) :
  (forall c, cl c = true -> cl' c = true) -> all_in cl s = true -> all_in cl' s = true.
Proof.
  intros Himp. induction s as [|c s IH]; cbn [all_in]; [reflexivity|].
  intros H. apply andb_true_iff in H as [Hc Hs]. rewrite (Himp c Hc), (IH Hs). reflexivity.
Qed.

Lemma all_in_app (cl : ascii -> bool) (s t : string) :
  all_in cl (s ++ t) = all_in cl s && all_in cl t.
Proof.
  induction s as [|c s IH]; [reflexivity|].
  change (String c s ++ t)%string with (String c (s ++ t)%string).
  cbn [all_in]. rewrite IH, andb_assoc. reflexivity.
Qed.

Lemma all_digits_all_in (s : string) : all_digits s = all_in is_digit s.
Proof. induction s as [|c s IH]; cbn; [reflexivity | rewrite IH; reflexivity]. Qed.

Lemma trim_left_id (s : string) :
  all_in (fun c => negb (is_space c)) s = true -> trim_left s = s.
Proof.
  destruct s as [|c s]; [reflexivity|]. cbn [all_in trim_left]. intros H.
  apply andb_true_iff in H as [Hc _]. apply negb_true_iff in Hc. rewrite Hc. reflexivity.
Qed.

Lemma trim_right_id (s : string) :
  all_in (fun c => negb (is_space c)) s = true -> trim_right s = s.
Proof.
  induction s as [|c s IH]; [reflexivity|]. cbn [all_in trim_right]. intros H.
  apply andb_true_iff in H as [Hc Hs]. apply negb_true_iff in Hc. rewrite (IH Hs), Hc.
  destruct s; reflexivity.
Qed.

(** Text without white space is trimmed to itself. *)
Lemma TrimSpace_id (s : string) :
  all_in (fun c => negb (is_space c)) s = true -> TrimSpace s = s.
Proof. intros H. unfold TrimSpace. rewrite (trim_left_id s H). apply trim_right_id, H. Qed.

Lemma digit_no_space (c : ascii) : is_digit c = true -> negb (is_space c) = true.
Proof.
  unfold is_digit, is_space. intros H. apply andb_true_iff in H as [H1 H2].
  apply Z.leb_le in H1, H2. apply negb_true_iff, orb_false_iff. split.
  - apply andb_false_iff. right. apply Z.leb_gt. lia.
  - apply Z.eqb_neq. lia.
Qed.

Lemma letter_no_space (c : ascii) : is_letter c = true -> negb (is_space c) = true.
Proof.
  unfold is_letter, is_space. intros H. apply negb_true_iff, orb_false_iff.
  apply orb_true_iff in H as [H|H]; apply andb_true_iff in H as [H1 H2];
    apply Z.leb_le in H1, H2; (split; [apply andb_false_iff; right; apply Z.leb_gt; lia
                                      | apply Z.eqb_neq; lia]).
Qed.

Lemma take_str_all (s : string) : take_str (String.length s) s = s.
Proof. induction s as [|c s IH]; cbn; [reflexivity | rewrite IH; reflexivity]. Qed.

Lemma take_str_app (s t : string) : take_str (String.length s) (s ++ t) = s.
Proof.
  induction s as [|c s IH]; [destruct t; reflexivity|].
  change (String c s ++ t)%string with (String c (s ++ t)%string).
  cbn [String.length take_str]. rewrite IH. reflexivity.
Qed.

Lemma drop_str_app (s t : string) : drop_str (String.length s) (s ++ t) = t.
Proof.
  induction s as [|c s IH]; [destruct t; reflexivity|].
  change (String c s ++ t)%string with (String c (s ++ t)%string).
  cbn [String.length drop_str]. exact IH.
Qed.

Lemma append_empty_r (s : string) : (s ++ EmptyString)%string = s.
Proof.
  induction s as [|c s IH]; [reflexivity|].
  change (String c s ++ EmptyString)%string with (String c (s ++ EmptyString)%string).
  rewrite IH. reflexivity.
Qed.

Lemma length_append (s t : string) :
  String.length (s ++ t) = (String.length s + String.length t)%nat.
Proof.
  induction s as [|c s IH]; [reflexivity|].
  change (String c s ++ t)%string with (String c (s ++ t)%string).
  cbn [String.length]. rewrite IH. reflexivity.
Qed.

Lemma runs_stop (cl : ascii -> bool) (r : string) : stops cl r -> runs cl r = [].
Proof. destruct r as [|c r]; cbn [stops runs]; [reflexivity|]. intros ->. reflexivity. Qed.

(** The longest run comes first. *)
Lemma runs_head (cl : ascii -> bool) (p r : string) :
  all_in cl p = true -> p <> EmptyString -> stops cl r ->
  exists tl, runs cl (p ++ r) = (p, r) :: tl.
Proof.
  intros Hp Hne Hr. induction p as [|c p IH]; [congruence|].
  cbn [all_in] in Hp. apply andb_true_iff in Hp as [Hc Hp].
  change (String c p ++ r)%string with (String c (p ++ r)%string).
  cbn [runs]. rewrite Hc.
  destruct p as [|c' p].
  - change (EmptyString ++ r)%string with r. rewrite (runs_stop cl r Hr). cbn. eexists.
    reflexivity.
  - destruct (IH Hp ltac:(discriminate)) as [tl ->]. cbn [map app]. eexists. reflexivity.
Qed.

Lemma match_here_lit (c : ascii) (pat : list item) (s : string) :
  match_here (lit c :: pat) (String c s) = match_here pat s.
Proof.
  cbn [match_here spans lit it_rep it_class it_capture]. rewrite Ascii.eqb_refl.
  cbn [first_some]. destruct (match_here pat s) as [[caps rest]|]; reflexivity.
Qed.

Lemma match_here_one (cl : ascii -> bool) (pat : list item) (c : ascii) (s : string)
    (caps : list string) (rest : string) :
  cl c = true -> match_here pat s = Some (caps, rest) ->
  match_here (Item true One cl :: pat) (String c s) = Some (String c EmptyString :: caps, rest).
Proof.
  intros Hc Hm. cbn [match_here spans it_rep it_class it_capture]. rewrite Hc.
  cbn [first_some]. rewrite Hm. reflexivity.
Qed.

Lemma match_here_plus (cl : ascii -> bool) (pat : list item) (p r : string)
    (caps : list string) (rest : string) :
  all_in cl p = true -> p <> EmptyString -> stops cl r ->
  match_here pat r = Some (caps, rest) ->
  match_here (Item true Plus cl :: pat) (p ++ r) = Some (p :: caps, rest).
Proof.
  intros Hp Hne Hr Hm. cbn [match_here spans it_rep it_class it_capture].
  destruct (runs_head cl p r Hp Hne Hr) as [tl ->].
  cbn [first_some]. rewrite Hm. reflexivity.
Qed.

Lemma match_here_optplus (cl : ascii -> bool) (pat : list item) (p r : string)
    (caps : list string) (rest : string) :
  all_in cl p = true -> stops cl r ->
  match_here pat r = Some (caps, rest) ->
  match_here (Item true OptPlus cl :: pat) (p ++ r) = Some (p :: caps, rest).
Proof.
  intros Hp Hr Hm. cbn [match_here spans it_rep it_class it_capture].
  destruct p as [|c p].
  - change (EmptyString ++ r)%string with r. rewrite (runs_stop cl r Hr).
    cbn [app first_some]. rewrite Hm. reflexivity.
  - destruct (runs_head cl (String c p) r Hp ltac:(discriminate) Hr) as [tl ->].
    cbn [app first_some]. rewrite Hm. reflexivity.
Qed.

Lemma match_here_comma (pat : list item) (s : string) (caps : list string) (rest : string) :
  match_here pat s = Some (caps, rest) ->
  match_here (Item false Opt (cls ",") :: pat) (String "," s) = Some (caps, rest).
Proof.
  intros Hm. cbn [match_here spans it_rep it_class it_capture].
  change (cls "," ",") with true. cbn [app first_some]. rewrite Hm. reflexivity.
Qed.

(** A match at the start of the text is the leftmost match. *)
Lemma find_from_start (pat : list item) (s : string) (caps : list string) :
  match_here pat s = Some (caps, EmptyString) ->
  find_from pat s = Some (s :: caps, EmptyString).
Proof.
  intros Hm. destruct s as [|c s]; cbn [find_from]; rewrite Hm; [reflexivity|].
  cbn [String.length]. rewrite Nat.sub_0_r.
  change (take_str (S (String.length s)) (String c s))
    with (String c (take_str (String.length s) s)).
  rewrite take_str_all. reflexivity.
Qed.

Lemma Atoi_digits (s : string) :
  all_digits s = true -> s <> EmptyString -> digits_val 0 s <= Int.max_int ->
  Atoi s = (digits_val 0 s, true).
Proof.
  intros Hd Hne Hmax. unfold Atoi.
  destruct s as [|c s]; [congruence|].
  destruct (all_digits_head c s Hd) as [Hm Hp].
  assert (Hsplit : match String c s with
                   | String "-" s' => (true, s')
                   | String "+" s' => (false, s')
                   | _ => (false, String c s)
                   end = (false, String c s)).
  { destruct c as [[] [] [] [] [] [] [] []]; try reflexivity; congruence. }
  rewrite Hsplit, Hd. cbn [cond_Zopp].
  assert (Hpos : forall t acc, 0 <= acc -> all_digits t = true -> 0 <= digits_val acc t).
  { induction t as [|a t IH]; intros acc Hacc Ht; cbn [digits_val]; [exact Hacc|].
    cbn [all_digits] in Ht. apply andb_true_iff in Ht as [Ha Ht].
    apply IH; [|exact Ht]. unfold is_digit in Ha. apply andb_true_iff in Ha as [Ha _].
    apply Z.leb_le in Ha. unfold digit_val. lia. }
  specialize (Hpos (String c s) 0 ltac:(lia) Hd).
  unfold Int.in_range.
  destruct (Z.leb_spec Int.min_int (digits_val 0 (String c s))) as [_|Hlt];
    [|unfold Int.min_int in Hlt; lia].
  destruct (Z.leb_spec (digits_val 0 (String c s)) Int.max_int) as [_|Hgt]; [reflexivity|lia].
Qed.

Lemma digits_val_nonneg (s : string) :
  all_digits s = true -> 0 <= digits_val 0 s.
Proof.
  assert (Hpos : forall t acc, 0 <= acc -> all_digits t = true -> 0 <= digits_val acc t).
  { induction t as [|a t IH]; intros acc Hacc Ht; cbn [digits_val]; [exact Hacc|].
    cbn [all_digits] in Ht. apply andb_true_iff in Ht as [Ha Ht].
    apply IH; [|exact Ht]. unfold is_digit in Ha. apply andb_true_iff in Ha as [Ha _].
    apply Z.leb_le in Ha. unfold digit_val. lia. }
  apply Hpos. lia.
Qed.

Lemma to_int_small (n : Z) : 0 <= n < 10 -> F64.to_int (F64.of_Z n) = n.
Proof.
  intros Hn.
  assert (H : forallb (fun k => F64.to_int (F64.of_Z k) =? k) (seqZ 0 10) = true)
    by (vm_compute; reflexivity).
  rewrite forallb_forall in H. apply Z.eqb_eq, H, list_elem_of_In, elem_of_seqZ. lia.
Qed.

(** The statement [D] followed by digits: with a number from 10 up it
    selects the aperture of that code; with a number below 10 it is an
    operation without coordinates, a draw for 1, a flash for 3 and a move
    otherwise. *)
Theorem select_or_operate (gf : GerberFile) (ds : string) :
  all_digits ds = true -> ds <> EmptyString ->
  (10 <= digits_val 0 ds <= Int.max_int ->
   parse_statement gf (String "D" ds)
   = Done (append_Command gf {| cmd_Type := "APERTURE"; cmd_X := None; cmd_Y := None;
                                cmd_D := Some (digits_val 0 ds) |})) /\
  (digits_val 0 ds < 10 ->
   parse_statement gf (String "D" ds)
   = Done (append_Command gf {| cmd_Type := operation_type (digits_val 0 ds);
                                cmd_X := None; cmd_Y := None;
                                cmd_D := Some (digits_val 0 ds) |})).
Proof.
  intros Hd Hne.
  assert (Hns : all_in (fun c => negb (is_space c)) (String "D" ds) = true).
  { cbn [all_in]. change (negb (is_space "D")) with true. cbn [andb].
    rewrite all_digits_all_in in Hd. apply (all_in_impl is_digit); [|exact Hd].
    apply digit_no_space. }
  assert (Hlen : (2 <=? String.length (String "D" ds))%nat = true).
  { destruct ds; [congruence|]. reflexivity. }
  assert (Hpre : HasPrefix (String "D" ds) "D" = true).
  { unfold HasPrefix. cbn. destruct ds; reflexivity. }
  unfold parse_statement. rewrite (TrimSpace_id _ Hns).
  change (String.eqb (String "D" ds) EmptyString) with false. cbv iota.
  unfold aperture_select. rewrite Hpre, Hlen. cbn [andb drop_str].
  split.
  - intros [H10 Hmax]. rewrite (Atoi_digits ds Hd Hne Hmax). cbn [andb].
    destruct (Z.leb_spec 10 (digits_val 0 ds)); [reflexivity | lia].
  - intros Hlt.
    rewrite (Atoi_digits ds Hd Hne ltac:(unfold Int.max_int; lia)). cbn [andb].
    destruct (Z.leb_spec 10 (digits_val 0 ds)); [lia|].
    assert (Hmatch : FindAllStringSubmatch reCoord (String "D" ds)
                     = [[String "D" ds; "D"; ds]]).
    { unfold FindAllStringSubmatch. cbn [String.length find_all].
      assert (Hm : match_here reCoord (String "D" ds) = Some (["D"; ds], EmptyString)).
      { unfold reCoord. apply match_here_one; [reflexivity|].
        rewrite <- (append_empty_r ds) at 1. apply match_here_plus.
        - rewrite all_digits_all_in in Hd.
          apply (all_in_impl is_digit); [|exact Hd]. intros c Hc. rewrite Hc. reflexivity.
        - exact Hne.
        - exact I.
        - reflexivity. }
      rewrite (find_from_start _ _ _ Hm).
      destruct (String.length ds); reflexivity. }
    rewrite Hmatch. cbn [length Nat.ltb Nat.leb foldlM].
    unfold parse_field. cbn [index lookup list_lookup mbind outcome_bind].
    cbn [String.eqb Ascii.eqb Bool.eqb]. cbn [mret outcome_ret mbind outcome_bind].
    unfold opcode.
    pose proof (ParseFloat_digits ds Hd Hne) as Hpf.
    destruct (ParseFloat ds) as [val ok]. cbn [fst] in Hpf. subst val.
    rewrite to_int_small by (pose proof (digits_val_nonneg ds Hd); lia).
    unfold with_D, operation_type. cbn [cmd_Type cmd_X cmd_Y].
    destruct (Z.eqb_spec (digits_val 0 ds) 1); [reflexivity|].
    destruct (Z.eqb_spec (digits_val 0 ds) 2) as [E2|];
      destruct (Z.eqb_spec (digits_val 0 ds) 3); try reflexivity. lia.
Qed.

Lemma select_or_operate_witness :
  (10 <= digits_val 0 "12" <= Int.max_int ->
   parse_statement NewGerberFile "D12"
   = Done (append_Command NewGerberFile
             {| cmd_Type := "APERTURE"; cmd_X := None; cmd_Y := None;
                cmd_D := Some (digits_val 0 "12") |})) /\
  (digits_val 0 "12" < 10 ->
   parse_statement NewGerberFile "D12"
   = Done (append_Command NewGerberFile
             {| cmd_Type := operation_type (digits_val 0 "12");
                cmd_X := None; cmd_Y := None; cmd_D := Some (digits_val 0 "12") |})).
Proof. apply (select_or_operate NewGerberFile "12"); [reflexivity | discriminate]. Defined.

Lemma Atoi_one_digit (c : ascii) :
  is_digit c = true -> Atoi (String c EmptyString) = (digit_val c, true).
Proof.
  intros Hc.
  assert (Hd : all_digits (String c EmptyString) = true) by (cbn; rewrite Hc; reflexivity).
  assert (Hv : digits_val 0 (String c EmptyString) = digit_val c) by (cbn; lia).
  rewrite <- Hv. apply Atoi_digits; [exact Hd | discriminate|].
  rewrite Hv. unfold is_digit in Hc. apply andb_true_iff in Hc as [_ Hc].
  apply Z.leb_le in Hc. unfold digit_val, Int.max_int. lia.
Qed.

(** A format specification sets the four digit counts, and nothing
    else. *)
Theorem format_specification (gf : GerberFile) (a b c d : ascii) :
  is_digit a = true -> is_digit b = true -> is_digit c = true -> is_digit d = true ->
  outer_line gf (format_line a b c d)
  = Done (set_State gf
            (set_Formats (State gf)
               {| Integer := digit_val a; Decimal := digit_val b |}
               {| Integer := digit_val c; Decimal := digit_val d |}), Outer).
Proof.
  intros Ha Hb Hc Hd.
  assert (Hns : all_in (fun c => negb (is_space c)) (format_line a b c d) = true).
  { unfold format_line. cbn [all_in].
    rewrite (digit_no_space a Ha), (digit_no_space b Hb), (digit_no_space c Hc),
            (digit_no_space d Hd). reflexivity. }
  unfold outer_line. rewrite (TrimSpace_id _ Hns).
  change (String.eqb (format_line a b c d) EmptyString) with false.
  change (HasPrefix (format_line a b c d) "%") with true. cbv iota.
  unfold parse_parameter.
  change (HasPrefix (format_line a b c d) "%FS") with true. cbv iota.
  assert (Hm : match_here reFS (format_line a b c d)
               = Some ([String a EmptyString; String b EmptyString;
                        String c EmptyString; String d EmptyString], EmptyString)).
  { unfold reFS, format_line. cbn [lits map list_ascii_of_string app].
    rewrite !match_here_lit.
    apply match_here_one; [exact Ha|]. apply match_here_one; [exact Hb|].
    rewrite match_here_lit.
    apply match_here_one; [exact Hc|]. apply match_here_one; [exact Hd|].
    rewrite !match_here_lit. reflexivity. }
  unfold FindStringSubmatch. rewrite (find_from_start _ _ _ Hm).
  cbn [length Nat.eqb index lookup list_lookup mbind outcome_bind mret outcome_ret].
  rewrite !Atoi_one_digit by assumption. reflexivity.
Qed.

Lemma format_specification_witness :
  outer_line NewGerberFile (format_line "2" "4" "3" "5")
  = Done (set_State NewGerberFile
            (set_Formats (State NewGerberFile)
               {| Integer := digit_val "2"; Decimal := digit_val "4" |}
               {| Integer := digit_val "3"; Decimal := digit_val "5" |}), Outer).
Proof. apply (format_specification NewGerberFile "2" "4" "3" "5"); reflexivity. Defined.

Lemma type_class_no_space (c : ascii) :
  is_letter c || is_digit c || cls "_" c = true -> negb (is_space c) = true.
Proof.
  intros H. apply orb_true_iff in H as [H|H]; [apply orb_true_iff in H as [H|H]|].
  - apply letter_no_space, H.
  - apply digit_no_space, H.
  - unfold cls in H. cbn in H. rewrite orb_false_r in H.
    apply Ascii.eqb_eq in H. subst c. reflexivity.
Qed.

Lemma modifier_class_no_space (c : ascii) :
  is_digit c || cls ".X" c = true -> negb (is_space c) = true.
Proof.
  intros H. apply orb_true_iff in H as [H|H]; [apply digit_no_space, H|].
  unfold cls in H. cbn in H. rewrite orb_false_r in H.
  apply orb_true_iff in H as [H|H]; apply Ascii.eqb_eq in H; subst c; reflexivity.
Qed.

(** An aperture definition stores, under its code, the aperture with its
    type and with the modifiers read from the parts between the [X]s; the
    apertures of the other codes stay as they are. *)
Theorem aperture_definition (gf : GerberFile) (d ty mods : string) :
  all_digits d = true -> d <> EmptyString -> digits_val 0 d <= Int.max_int ->
  all_in (fun c => is_letter c || is_digit c || cls "_" c) ty = true ->
  ty <> EmptyString -> stops is_digit ty ->
  all_in (fun c => is_digit c || cls ".X" c) mods = true ->
  let ap := {| ap_Type := ty; ap_Modifiers := definition_modifiers mods |} in
  let gf' := set_State gf (set_Aperture (State gf) (digits_val 0 d) ap) in
  outer_line gf (definition_line d ty mods) = Done (gf', Outer) /\
  Apertures (State gf') !! digits_val 0 d = Some ap /\
  (forall k, k <> digits_val 0 d -> Apertures (State gf') !! k = Apertures (State gf) !! k).
Proof.
  intros Hd Hdne Hmax Hty Htyne Hstop Hmods ap gf'.
  split; [|split].
  2:{ unfold gf'. cbn [State set_State set_Aperture Apertures]. apply lookup_insert_eq. }
  2:{ intros k Hk. unfold gf'. cbn [State set_State set_Aperture Apertures].
      apply lookup_insert_ne. congruence. }
  assert (Hns : all_in (fun c => negb (is_space c)) (definition_line d ty mods) = true).
  { unfold definition_line. cbn [all_in]. change (negb (is_space "%")) with true.
    change (negb (is_space "A")) with true. change (negb (is_space "D")) with true.
    cbn [andb]. rewrite !all_in_app. cbn [all_in]. rewrite all_in_app.
    rewrite all_digits_all_in in Hd.
    rewrite (all_in_impl _ _ d digit_no_space Hd),
            (all_in_impl _ _ ty type_class_no_space Hty),
            (all_in_impl _ _ mods modifier_class_no_space Hmods). reflexivity. }
  unfold outer_line. rewrite (TrimSpace_id _ Hns).
  change (String.eqb (definition_line d ty mods) EmptyString) with false.
  change (HasPrefix (definition_line d ty mods) "%") with true. cbv iota.
  unfold parse_parameter.
  change (HasPrefix (definition_line d ty mods) "%FS") with false.
  change (HasPrefix (definition_line d ty mods) "%AD") with true. cbv iota.
  assert (Hm : match_here reAD (definition_line d ty mods)
               = Some ([d; ty; mods], EmptyString)).
  { unfold reAD, definition_line. cbn [lits map list_ascii_of_string app].
    rewrite !match_here_lit.
    apply match_here_plus; [rewrite <- all_digits_all_in; exact Hd | exact Hdne | |].
    { destruct ty as [|t0 ty']; [congruence|]. exact Hstop. }
    apply match_here_plus; [exact Hty | exact Htyne | reflexivity |].
    apply match_here_comma.
    apply match_here_optplus; [exact Hmods | reflexivity |].
    rewrite !match_here_lit. reflexivity. }
  unfold FindStringSubmatch. rewrite (find_from_start _ _ _ Hm).
  cbn [length Nat.leb Nat.ltb index lookup list_lookup mbind outcome_bind mret outcome_ret].
  rewrite (Atoi_digits d Hd Hdne Hmax). cbn [fst andb].
  unfold gf', ap, definition_modifiers.
  destruct (String.eqb mods EmptyString); reflexivity.
Qed.

Lemma aperture_definition_witness :
  outer_line NewGerberFile (definition_line "10" "R" "1.5X0.5")
  = Done (set_State NewGerberFile
            (set_Aperture (State NewGerberFile) (digits_val 0 "10")
               {| ap_Type := "R"; ap_Modifiers := definition_modifiers "1.5X0.5" |}), Outer) /\
  Apertures (State (set_State NewGerberFile
                      (set_Aperture (State NewGerberFile) (digits_val 0 "10")
                         {| ap_Type := "R";
                            ap_Modifiers := definition_modifiers "1.5X0.5" |})))
    !! digits_val 0 "10"
  = Some {| ap_Type := "R"; ap_Modifiers := definition_modifiers "1.5X0.5" |} /\
  (forall k, k <> digits_val 0 "10" ->
     Apertures (State (set_State NewGerberFile
                         (set_Aperture (State NewGerberFile) (digits_val 0 "10")
                            {| ap_Type := "R";
                               ap_Modifiers := definition_modifiers "1.5X0.5" |}))) !! k
     = Apertures (State NewGerberFile) !! k).
Proof.
  apply (aperture_definition NewGerberFile "10" "R" "1.5X0.5");
    first [reflexivity | discriminate | vm_compute; discriminate].
Defined.

Lemma Split_nonempty (s : string) (sep : ascii) : Split s sep <> [].
Proof.
  induction s as [|c s IH]; cbn [Split]; [discriminate|].
  destruct (Ascii.eqb c sep); [discriminate|].
  destruct (Split s sep); [congruence | discriminate].
Qed.

(** A line of a macro body becomes a primitive, whatever it holds. *)
Lemma macro_line_collects (gf : GerberFile) (name : string) (prims : list MacroPrimitive)
    (text : string) :
  TrimSpace text <> "%" ->
  macro_line gf name prims text = Done (gf, InMacro name (prims ++ [primitive_of_line text])).
Proof.
  intros Hne. unfold macro_line, primitive_of_line.
  apply String.eqb_neq in Hne. rewrite Hne.
  pose proof (Split_nonempty (TrimSuffix (TrimSpace text) "*") ",") as Hs.
  destruct (Split (TrimSuffix (TrimSpace text) "*") ",") as [|p0 parts]; [congruence|].
  reflexivity.
Qed.

Lemma macro_body_collects (gf : GerberFile) (name : string) (body : list string) :
  Forall (fun text => TrimSpace text <> "%") body ->
  forall prims,
    foldlM scan_line body (gf, InMacro name prims)
    = Done (gf, InMacro name (prims ++ map primitive_of_line body)).
Proof.
  intros Hbody. induction Hbody as [|text body Htext _ IH]; intros prims; cbn [foldlM map].
  - rewrite app_nil_r. reflexivity.
  - cbn [scan_line]. rewrite (macro_line_collects _ _ _ _ Htext).
    cbn [mbind outcome_bind]. rewrite IH, <- app_assoc. reflexivity.
Qed.

Lemma macro_header_opens (gf : GerberFile) (name : string) :
  all_in (fun c => negb (is_space c)) name = true ->
  outer_line gf (macro_header name) = Done (gf, InMacro name []).
Proof.
  intros Hname.
  assert (Hns : all_in (fun c => negb (is_space c)) (macro_header name) = true).
  { unfold macro_header. cbn [all_in]. change (negb (is_space "%")) with true.
    change (negb (is_space "A")) with true. change (negb (is_space "M")) with true.
    cbn [andb]. rewrite all_in_app, Hname. reflexivity. }
  assert (Hpre : HasPrefix (macro_header name) "%AM" = true).
  { unfold HasPrefix, macro_header. cbn. destruct (name ++ "*")%string; reflexivity. }
  unfold outer_line. rewrite (TrimSpace_id _ Hns).
  change (String.eqb (macro_header name) EmptyString) with false.
  change (HasPrefix (macro_header name) "%") with true. cbv iota.
  unfold parse_parameter.
  change (HasPrefix (macro_header name) "%FS") with false.
  change (HasPrefix (macro_header name) "%AD") with false.
  unfold TrimPrefix. rewrite Hpre. cbv iota.
  change (drop_str (String.length "%AM") (macro_header name)) with (name ++ "*")%string.
  unfold TrimSuffix, HasSuffix. rewrite length_append. cbn [String.length].
  replace (String.length name + 1 - 1)%nat with (String.length name) by lia.
  rewrite drop_str_app, take_str_app.
  destruct (Nat.leb_spec 1 (String.length name + 1)); [|lia]. reflexivity.
Qed.



(** What [ParseFloat] returns with an error: zero, or an infinity. *)
Lemma ParseFloat_error (s : string) :
  snd (ParseFloat s) = false ->
  fst (ParseFloat s) = F64.zero \/ F64.is_finite (fst (ParseFloat s)) = false.
Proof.
  unfold ParseFloat.
  destruct (match s with
            | String "-" s' => (true, true, s')
            | String "+" s' => (true, false, s')
            | _ => (false, false, s)
            end) as [[signed neg] body].
  destruct (_ || _); [discriminate|].
  destruct (_ && _); [discriminate|].
  destruct (read_digits 0 0 body) as [[m1 n1] r1].
  destruct (match r1 with
            | String "." r => read_digits m1 0 r
            | _ => (m1, 0, r1)
            end) as [[m2 n2] r2].
  destruct (n1 + n2 =? 0); [left; reflexivity|].
  assert (Hfin : forall e,
            snd (match F64.decimal neg m2 (e - n2) with
                 | S754_infinity _ => (F64.decimal neg m2 (e - n2), false)
                 | _ => (F64.decimal neg m2 (e - n2), true)
                 end) = false ->
            fst (match F64.decimal neg m2 (e - n2) with
                 | S754_infinity _ => (F64.decimal neg m2 (e - n2), false)
                 | _ => (F64.decimal neg m2 (e - n2), true)
                 end) = F64.zero \/
            F64.is_finite (fst (match F64.decimal neg m2 (e - n2) with
                                | S754_infinity _ => (F64.decimal neg m2 (e - n2), false)
                                | _ => (F64.decimal neg m2 (e - n2), true)
                                end)) = false).
  { intros e. destruct (F64.decimal neg m2 (e - n2)); cbn; try discriminate.
    intros _. right. reflexivity. }
  destruct r2 as [|c r3]; [apply Hfin|].
  destruct (Ascii.eqb (lower c) "e"); [|left; reflexivity].
  destruct (match r3 with
            | String "-" r => (true, r)
            | String "+" r => (false, r)
            | _ => (false, r3)
            end) as [eneg r4].
  destruct (read_digits 0 0 r4) as [[ev en] r5].
  destruct (en =? 0); [left; reflexivity|].
  destruct r5; [apply Hfin | left; reflexivity].
Qed.

(** A coordinate that [ParseFloat] rejects as syntax is read as zero,
    under every format a specification can set. *)
Theorem malformed_coordinate_is_zero (valStr : string) (fmtSpec : Format) :
  snd (ParseFloat valStr) = false ->
  F64.is_finite (fst (ParseFloat valStr)) = true ->
  0 <= Decimal fmtSpec <= 9 ->
  parseCoordinate valStr fmtSpec = F64.zero.
Proof.
  intros Herr Hfin Hd. destruct (ParseFloat_error valStr Herr) as [Hz|Hinf]; [|congruence].
  unfold parseCoordinate. destruct (ParseFloat valStr) as [val ok]. cbn [fst] in Hz.
  subst val. destruct (Contains valStr "."); [reflexivity|].
  assert (H : forallb (fun k => match F64.div F64.zero (F64.Pow10 k) with
                                | S754_zero false => true
                                | _ => false
                                end) (seqZ 0 10) = true)
    by (vm_compute; reflexivity).
  rewrite forallb_forall in H.
  specialize (H (Decimal fmtSpec) ltac:(apply list_elem_of_In, elem_of_seqZ; lia)).
  cbv zeta. destruct (F64.div F64.zero (F64.Pow10 (Decimal fmtSpec))) as [[]|[]| |[] ? ?];
    try discriminate H; reflexivity.
Qed.

Lemma malformed_coordinate_is_zero_witness :
  parseCoordinate "1-2" {| Integer := 2; Decimal := 4 |} = F64.zero.
Proof.
  apply (malformed_coordinate_is_zero "1-2" {| Integer := 2; Decimal := 4 |}).
  - reflexivity.
  - reflexivity.
  - cbn. lia.
Defined.

(** ** Solid pixels *)

Lemma channel_16 (r : Z) : 0 <= r < 256 -> Z.lor r (Z.shiftl r 8) = 257 * r.
Proof.
  intros Hr.
  assert (H : forallb (fun r => Z.lor r (Z.shiftl r 8) =? 257 * r) (seqZ 0 256) = true)
    by (vm_compute; reflexivity).
  rewrite forallb_forall in H. apply Z.eqb_eq, H, list_elem_of_In, elem_of_seqZ. lia.
Qed.

(** Which colours count as stencil material: those whose red, green and
    blue are all at most 38 of 255; the alpha channel is not looked at. *)
Theorem isSolid_threshold (c : Color) :
  0 <= R c < 256 -> 0 <= G c < 256 -> 0 <= B c < 256 ->
  isSolid c = (R c <=? 38) && (G c <=? 38) && (B c <=? 38).
Proof.
  intros HR HG HB. unfold isSolid, RGBA16.
  rewrite (channel_16 _ HR), (channel_16 _ HG), (channel_16 _ HB).
  destruct (Z.ltb_spec (257 * R c) 10000); destruct (Z.leb_spec (R c) 38); try lia;
    destruct (Z.ltb_spec (257 * G c) 10000); destruct (Z.leb_spec (G c) 38); try lia;
    destruct (Z.ltb_spec (257 * B c) 10000); destruct (Z.leb_spec (B c) 38); try lia;
    reflexivity.
Qed.

Lemma isSolid_threshold_witness :
  isSolid {| R := 38; G := 0; B := 12; A := 0 |}
  = (R {| R := 38; G := 0; B := 12; A := 0 |} <=? 38) &&
    (G {| R := 38; G := 0; B := 12; A := 0 |} <=? 38) &&
    (B {| R := 38; G := 0; B := 12; A := 0 |} <=? 38).
Proof. apply (isSolid_threshold {| R := 38; G := 0; B := 12; A := 0 |}); cbn; lia. Defined.

(** ** The output path *)

Lemma ext_from_suffix (s : string) :
  forall cur, ext_from s cur = cur \/ exists stem, s = (stem ++ ext_from s cur)%string.
Proof.
  induction s as [|c s IH]; intros cur; cbn [ext_from]; [left; reflexivity|].
  assert (Hstep : forall cur', ext_from s cur' = cur' \/
            exists stem, String c s = (stem ++ ext_from s cur')%string).
  { intros cur'. destruct (IH cur') as [H|[stem H]]; [left; exact H|].
    right. exists (String c stem). rewrite H at 1. reflexivity. }
  destruct (Ascii.eqb c "/").
  - destruct (Hstep EmptyString) as [H|H]; [|right; exact H].
    right. exists (String c s). rewrite H, append_empty_r. reflexivity.
  - destruct (Ascii.eqb c ".").
    + destruct (Hstep (String c s)) as [H|H]; [|right; exact H].
      right. exists EmptyString. rewrite H. reflexivity.
    + apply Hstep.
Qed.

Lemma Ext_suffix (path : string) : exists stem, path = (stem ++ Ext path)%string.
Proof.
  unfold Ext. destruct (ext_from_suffix path EmptyString) as [H|H]; [|exact H].
  exists path. rewrite H, append_empty_r. reflexivity.
Qed.

Lemma TrimSuffix_app (stem e : string) : TrimSuffix (stem ++ e) e = stem.
Proof.
  unfold TrimSuffix, HasSuffix. rewrite length_append.
  replace (String.length stem + String.length e - String.length e)%nat
    with (String.length stem) by lia.
  rewrite drop_str_app, take_str_app, String.eqb_refl.
  destruct (Nat.leb_spec (String.length e) (String.length stem + String.length e)); [|lia].
  reflexivity.
Qed.

(** The path of the mesh: the path of the drawing with its extension
    replaced by [.stl].  A drawing without extension gets [.stl] added,
    and a drawing whose own extension is [.stl] is written over. *)
Theorem output_path (gerberPath : string) :
  (gerberPath = (TrimSuffix gerberPath (Ext gerberPath) ++ Ext gerberPath)%string) /\
  HasSuffix (outputPath gerberPath) ".stl" = true /\
  (Ext gerberPath = EmptyString -> outputPath gerberPath = (gerberPath ++ ".stl")%string) /\
  (Ext gerberPath = ".stl"%string -> outputPath gerberPath = gerberPath) /\
  (Ext gerberPath = ".png"%string -> pngPath gerberPath = gerberPath).
Proof.
  destruct (Ext_suffix gerberPath) as [stem Hstem].
  assert (Htrim : TrimSuffix gerberPath (Ext gerberPath) = stem).
  { rewrite Hstem at 1. apply TrimSuffix_app. }
  unfold outputPath, pngPath. rewrite Htrim.
  split; [exact Hstem|]. split; [|split; [|split]].
  - unfold HasSuffix. rewrite length_append.
    replace (String.length stem + String.length ".stl" - String.length ".stl")%nat
      with (String.length stem) by lia.
    rewrite drop_str_app.
    destruct (Nat.leb_spec (String.length ".stl") (String.length stem + String.length ".stl"));
      [reflexivity | lia].
  - intros He. rewrite He, append_empty_r in Hstem. congruence.
  - intros He. rewrite He in Hstem. congruence.
  - intros He. rewrite He in Hstem. congruence.
Qed.

(** ** Geometry inside the bounds *)

(** The extremes only widen, and cover every point. *)
Lemma cover_encloses (pts : list (float64 * float64)) :
  forall b,
  within_extremes (MinX b) -> within_extremes (MinY b) ->
  within_extremes (MaxX b) -> within_extremes (MaxY b) ->
  Forall (fun p => within_extremes (fst p) /\ within_extremes (snd p)) pts ->
  (units (MinX (cover b pts)) <= units (MinX b) /\
   units (MaxX b) <= units (MaxX (cover b pts)) /\
   units (MinY (cover b pts)) <= units (MinY b) /\
   units (MaxY b) <= units (MaxY (cover b pts))) /\
  Forall (fun p => units (MinX (cover b pts)) <= units (fst p) <= units (MaxX (cover b pts)) /\
                   units (MinY (cover b pts)) <= units (snd p) <= units (MaxY (cover b pts)))
         pts.
Proof.
  induction pts as [|p pts IH]; intros b HminX HminY HmaxX HmaxY Hpts.
  - cbn [cover fold_left]. split; [lia | constructor].
  - apply List.Forall_cons_iff in Hpts as [[Hx Hy] Hpts].
    pose proof (updateBounds_within b (fst p) (snd p) HminX HminY HmaxX HmaxY Hx Hy) as Hup.
    cbv zeta in Hup. destruct Hup as ((K1 & K2 & K3 & K4) & Ox & Oy & M1 & M2 & M3 & M4).
    change (cover b (p :: pts)) with (cover (updateBounds b (fst p) (snd p)) pts).
    destruct (IH _ K1 K2 K3 K4 Hpts) as [(W1 & W2 & W3 & W4) Hall].
    split; [lia|]. constructor; [lia | exact Hall].
Qed.

(** When a drawing's coordinates are binary64 numbers of magnitude at
    most 1e9 and one of the points it contributes has an X below 1e9,
    every point it contributes lies strictly inside the bounds, more than
    one unit away from each side. *)
Theorem bounds_enclose_geometry (gf : GerberFile) (p q : float64 * float64) :
  coordinates_within (Commands gf) ->
  In q (contributors (F64.zero, F64.zero) (Commands gf)) ->
  units (fst q) < 10 ^ 9 * unit_1 ->
  In p (contributors (F64.zero, F64.zero) (Commands gf)) ->
  (F64.ltb (MinX (CalculateBounds gf)) (fst p) = true /\
   F64.ltb (fst p) (MaxX (CalculateBounds gf)) = true /\
   F64.ltb (MinY (CalculateBounds gf)) (snd p) = true /\
   F64.ltb (snd p) (MaxY (CalculateBounds gf)) = true) /\
  (units (MinX (CalculateBounds gf)) < units (fst p) - unit_1 /\
   units (fst p) + unit_1 < units (MaxX (CalculateBounds gf)) /\
   units (MinY (CalculateBounds gf)) < units (snd p) - unit_1 /\
   units (snd p) + unit_1 < units (MaxY (CalculateBounds gf))).
Proof.
  intros Hcmds Hq Hqx Hp.
  pose proof (contributors_within _ Hcmds (F64.zero, F64.zero) within_zero within_zero)
    as Hpts.
  destruct within_initial as (I1 & I2 & I3 & I4).
  destruct (cover_within _ _ I1 I2 I3 I4 Hpts) as ((K1 & K2 & K3 & K4) & _).
  destruct (cover_encloses _ _ I1 I2 I3 I4 Hpts) as [_ Hall].
  rewrite List.Forall_forall in Hall, Hpts.
  destruct (Hall q Hq) as [[Hqmin _] _]. destruct (Hall p Hp) as [[Px1 Px2] [Py1 Py2]].
  destruct (Hpts p Hp) as [[Cx _] [Cy _]].
  unfold CalculateBounds. cbv zeta. unfold scan_bounds. rewrite scan_contributors.
  set (b := cover initial_extremes (contributors (F64.zero, F64.zero) (Commands gf))) in *.
  assert (E : F64.eqb (MinX b) (F64.of_Z (10 ^ 9)) = false).
  { rewrite (eqb_units _ _ (proj1 K1)) by (split; reflexivity).
    apply Z.eqb_neq.
    change (units (F64.of_Z (10 ^ 9))) with (10 ^ 9 * unit_1). lia. }
  rewrite E. unfold pad. cbn [MinX MinY MaxX MaxY].
  destruct K1 as [C1 B1]. destruct K2 as [C2 B2].
  destruct K3 as [C3 B3]. destruct K4 as [C4 B4].
  destruct (sub_padding _ C1 B1) as [P1 V1]. destruct (sub_padding _ C2 B2) as [P2 V2].
  destruct (add_padding _ C3 B3) as [P3 V3]. destruct (add_padding _ C4 B4) as [P4 V4].
  split.
  - rewrite (ltb_units _ _ P1 Cx), (ltb_units _ _ Cx P3),
            (ltb_units _ _ P2 Cy), (ltb_units _ _ Cy P4).
    repeat split; apply Z.ltb_lt; lia.
  - lia.
Qed.

Lemma bounds_enclose_geometry_witness :
  (F64.ltb (MinX (CalculateBounds one_flash)) (F64.of_Z 3) = true /\
   F64.ltb (F64.of_Z 3) (MaxX (CalculateBounds one_flash)) = true /\
   F64.ltb (MinY (CalculateBounds one_flash)) (F64.of_Z (-5)) = true /\
   F64.ltb (F64.of_Z (-5)) (MaxY (CalculateBounds one_flash)) = true) /\
  (units (MinX (CalculateBounds one_flash)) < units (F64.of_Z 3) - unit_1 /\
   units (F64.of_Z 3) + unit_1 < units (MaxX (CalculateBounds one_flash)) /\
   units (MinY (CalculateBounds one_flash)) < units (F64.of_Z (-5)) - unit_1 /\
   units (F64.of_Z (-5)) + unit_1 < units (MaxY (CalculateBounds one_flash))).
Proof.
  apply (bounds_enclose_geometry one_flash (F64.of_Z 3, F64.of_Z (-5))
           (F64.of_Z 3, F64.of_Z (-5))).
  - unfold coordinates_within, one_flash. cbn [Commands].
    apply List.Forall_cons; [|apply List.Forall_nil]. cbn [cmd_X cmd_Y].
    split; intros v Hv; injection Hv as <-;
      (split; [split; reflexivity | vm_compute; discriminate]).
  - left. reflexivity.
  - vm_compute. reflexivity.
  - left. reflexivity.
Defined.

(** ** The mesh file *)

Lemma WriteString_facts (f : File) (s : string) :
  writes (WriteString f s) = S (writes f) /\
  file_short (WriteString f s) = file_short f /\
  ((forall i, file_short f i = None) -> written (WriteString f s) = written f ++ [s]).
Proof.
  unfold WriteString. cbn [writes file_short written].
  split; [reflexivity|]. split; [reflexivity|]. intros H. rewrite H. reflexivity.
Qed.

Lemma WriteStrings_facts (ss : list string) :
  forall f,
  writes (fold_left WriteString ss f) = (writes f + length ss)%nat /\
  file_short (fold_left WriteString ss f) = file_short f /\
  ((forall i, file_short f i = None) ->
   written (fold_left WriteString ss f) = written f ++ ss).
Proof.
  induction ss as [|s ss IH]; intros f; cbn [fold_left length].
  - split; [lia|]. split; [reflexivity|]. intros _. rewrite app_nil_r. reflexivity.
  - destruct (WriteString_facts f s) as (W1 & S1 & T1).
    destruct (IH (WriteString f s)) as (W & S & T).
    split; [lia|]. split; [congruence|]. intros H.
    rewrite T by (intros i; rewrite S1; apply H). rewrite T1 by exact H.
    rewrite <- app_assoc. reflexivity.
Qed.

Lemma write_facet_lines (f : File) (t : Triangle) :
  write_facet f t = fold_left WriteString (facet_lines t) f.
Proof. destruct t as [[a b] c]. reflexivity. Qed.

Lemma write_facet_facts (f : File) (t : Triangle) :
  writes (write_facet f t) = (writes f + 7)%nat /\
  file_short (write_facet f t) = file_short f /\
  ((forall i, file_short f i = None) ->
   written (write_facet f t) = written f ++ facet_lines t).
Proof.
  rewrite write_facet_lines. destruct (WriteStrings_facts (facet_lines t) f) as (W & S & T).
  split; [|split; assumption]. rewrite W. destruct t as [[a b] c]. reflexivity.
Qed.

Lemma write_facets_facts (ts : list Triangle) :
  forall f,
  writes (fold_left write_facet ts f) = (writes f + 7 * length ts)%nat /\
  file_short (fold_left write_facet ts f) = file_short f /\
  ((forall i, file_short f i = None) ->
   written (fold_left write_facet ts f) = written f ++ flat_map facet_lines ts).
Proof.
  induction ts as [|t ts IH]; intros f; cbn [fold_left flat_map length].
  - split; [lia|]. split; [reflexivity|]. intros _. rewrite app_nil_r. reflexivity.
  - destruct (write_facet_facts f t) as (W1 & S1 & T1).
    destruct (IH (write_facet f t)) as (W & S & T).
    split; [lia|]. split; [congruence|]. intros H.
    rewrite T by (intros i; rewrite S1; apply H). rewrite T1 by exact H.
    rewrite <- app_assoc. reflexivity.
Qed.

(** [WriteSTL] returns the error of [os.Create] and leaves no file when
    the file cannot be created; otherwise it returns no error, whatever
    becomes of its writes, after two writes and seven per triangle.  When
    no write falls short the file holds the opening line, the seven lines
    of each triangle in order (with the normal 0 0 0 and the coordinates
    to six decimals), and the closing line. *)
Theorem WriteSTL_file (os_Create : string -> create_result) (filename : string)
    (triangles : list Triangle) :
  (forall err, os_Create filename = CreateError err ->
               WriteSTL os_Create filename triangles = (Some err, None)) /\
  (forall short, os_Create filename = Created short ->
     exists f, WriteSTL os_Create filename triangles = (None, Some f) /\
               writes f = (2 + 7 * length triangles)%nat /\
               ((forall i, short i = None) ->
                written f = [("solid stencil" ++ newline)%string]
                            ++ flat_map facet_lines triangles
                            ++ [("endsolid stencil" ++ newline)%string])).
Proof.
  split.
  - intros err Hc. unfold WriteSTL. rewrite Hc. reflexivity.
  - intros short Hc. unfold WriteSTL. rewrite Hc. cbv zeta. eexists. split; [reflexivity|].
    set (f0 := WriteString {| written := []; writes := 0; file_short := short |}
                 ("solid stencil" ++ newline)%string).
    destruct (write_facets_facts triangles f0) as (W & S & T).
    destruct (WriteString_facts (fold_left write_facet triangles f0)
                ("endsolid stencil" ++ newline)%string) as (W' & _ & T').
    split; [rewrite W', W; cbn [f0 WriteString writes]; lia|].
    intros Hshort. rewrite T' by (intros i; rewrite S; apply Hshort).
    rewrite T by (intros i; apply Hshort).
    unfold f0, WriteString. cbn [written file_short writes]. rewrite Hshort.
    rewrite <- app_assoc. reflexivity.
Qed.
